(** * The scoring engine of the journal: [lib/scoring.ts] and its callers

    The TypeScript module computes with JavaScript numbers and strings.
    Its functions are transcribed once, over an interface of the number
    operations they use, and read at two carriers:

    - [Binary64.js]: IEEE 754 binary64 with round-to-nearest-even, what a
      JavaScript engine computes ([NaN], the infinities, signed zeros,
      rounding and overflow included);
    - [RealNumber]: exact real arithmetic, what the formulas mean.

    Host functions whose results ECMAScript leaves to the implementation
    ([Math.exp] away from its special values, Unicode case conversion, the
    local time zone and the clock) are parameters.

    The first part holds the definitions: the module, the two pages that
    call it (their scored entries, their handlers, the report's rows and
    averages) and the analyzer page.  The second part holds the properties
    of the scoring functions, and the third those of the rest of the
    code. *)

From Stdlib Require Import Ascii String.
From Stdlib Require Import ZArith QArith Reals Lra Lia List Bool Permutation.
From Stdlib Require Import SpecFloat.
From Stdlib Require Import DecimalString DecimalZ DecimalPos.
From Stdlib Require DecimalFacts.
From Stdlib Require PrimFloat FloatOps.
Import ListNotations.

Set Implicit Arguments.

(** ** JavaScript numbers as an interface *)

Class Number (num : Type) : Type := {
  lit : Q -> num;                    (* a numeric literal, e.g. [1.8] *)
  add : num -> num -> num;           (* [x + y] *)
  sub : num -> num -> num;           (* [x - y] *)
  mul : num -> num -> num;           (* [x * y] *)
  div : num -> num -> num;           (* [x / y] *)
  neg : num -> num;                  (* [-x] *)
  Math_max : num -> num -> num;      (* [Math.max(x, y)] *)
  Math_min : num -> num -> num;      (* [Math.min(x, y)] *)
  Math_exp : num -> num              (* [Math.exp(x)] *)
}.

Declare Scope num_scope.
Delimit Scope num_scope with num.
Infix "+" := add : num_scope.
Infix "-" := sub : num_scope.
Infix "*" := mul : num_scope.
Infix "/" := div : num_scope.
Notation "- x" := (neg x) : num_scope.

(** Exact real arithmetic. *)
#[global] Instance RealNumber : Number R := {|
  lit := Q2R;
  add := Rplus;
  sub := Rminus;
  mul := Rmult;
  div := Rdiv;
  neg := Ropp;
  Math_max := Rmax;
  Math_min := Rmin;
  Math_exp := exp
|}.

(** IEEE 754 binary64, on the Standard Library's executable specification
    of floating-point arithmetic ([spec_float] has one [NaN], as JavaScript
    observes it). *)
Module Binary64.

Definition prec : Z := 53.
Definition emax : Z := 1024.

Definition NaN : spec_float := S754_nan.
Definition Infinity : spec_float := S754_infinity false.

(** An integer, rounded to the nearest double. *)
Definition int (z : Z) : spec_float := binary_normalize prec emax z 0 false.

(** A literal [n/d].  For the literals used below either both parts are
    exact doubles, and the one rounding of the division yields the double
    nearest to the literal's value, or the denominator is 1 and the one
    rounding is that of the numerator ([1e308]).  [KernelFloats.literals_agree]
    compares them with the kernel's own reading of the literals. *)
Definition literal (q : Q) : spec_float :=
  SFdiv prec emax (int (Qnum q)) (int (Zpos (Qden q))).

(** [Math.max]: [NaN] if either argument is, and [+0] above [-0]. *)
Definition max (a b : spec_float) : spec_float :=
  match a, b with
  | S754_nan, _ | _, S754_nan => S754_nan
  | S754_zero sa, S754_zero sb => S754_zero (sa && sb)
  | _, _ => if SFltb a b then b else a
  end.

(** [Math.min]: [NaN] if either argument is, and [-0] below [+0]. *)
Definition min (a b : spec_float) : spec_float :=
  match a, b with
  | S754_nan, _ | _, S754_nan => S754_nan
  | S754_zero sa, S754_zero sb => S754_zero (sa || sb)
  | _, _ => if SFltb b a then b else a
  end.

(** [Math.exp]: ECMAScript fixes the result at [NaN], [+Infinity], [+0],
    [-0] and [-Infinity]; elsewhere it is "an implementation-approximated
    Number value", which the host supplies. *)
Class Host : Type := approx : spec_float -> spec_float.

Definition exp {host : Host} (x : spec_float) : spec_float :=
  match x with
  | S754_nan => S754_nan
  | S754_infinity false => S754_infinity false
  | S754_zero _ => int 1
  | S754_infinity true => S754_zero false
  | S754_finite _ _ _ => approx x
  end.

#[global] Instance js {host : Host} : Number spec_float := {|
  lit := literal;
  add := SFadd prec emax;
  sub := SFsub prec emax;
  mul := SFmul prec emax;
  div := SFdiv prec emax;
  neg := SFopp;
  Math_max := max;
  Math_min := min;
  Math_exp := exp
|}.

(** A sample host, for runs that need one: [x] is scaled by [2^-10], the
    Taylor polynomial of degree 8 of [e^y] is evaluated by Horner's rule,
    and the result is squared ten times. *)
Definition sample_approx : Host := fun x : spec_float =>
  let plus := SFadd prec emax in
  let times := SFmul prec emax in
  let over := SFdiv prec emax in
  let y := over x (int 1024) in
  let horner := fun (k : Z) (acc : spec_float) =>
                  plus (int 1) (times (over y (int k)) acc) in
  let p := fold_right horner (int 1) [1; 2; 3; 4; 5; 6; 7; 8]%Z in
  Nat.iter 10 (fun t => times t t) p.

(** [Number.isFinite], [Number.isNaN] and the comparison [x <= y]. *)
Definition isFinite (x : spec_float) : bool :=
  match x with
  | S754_zero _ | S754_finite _ _ _ => true
  | _ => false
  end.

Definition isNaN (x : spec_float) : bool :=
  match x with S754_nan => true | _ => false end.

(** A double other than the zeros, the infinities and [NaN]. *)
Definition isProper (x : spec_float) : bool :=
  match x with S754_finite _ _ _ => true | _ => false end.

Definition leb (x y : spec_float) : bool := SFleb x y.
Definition ltb (x y : spec_float) : bool := SFltb x y.

(** Integers as doubles: [shl c k] is [c * 2^k], and the double of an
    integer [+-c] below [2^53] has [c], shifted left to 53 bits, as its
    mantissa. *)
Definition shl (c : positive) (k : nat) : positive := Nat.iter k xO c.

Definition digits (c : positive) : Z := Zpos (digits2_pos c).

Definition normal (s : bool) (c : positive) : spec_float :=
  S754_finite s (shl c (Z.to_nat (53 - digits c))) (digits c - 53).

Definition of_Z (z : Z) : spec_float :=
  match z with
  | Z0 => S754_zero false
  | Zpos c => normal false c
  | Zneg c => normal true c
  end.

Definition signed (s : bool) (c : positive) : Z := cond_Zopp s (Zpos c).

End Binary64.

(** ** JavaScript strings: sequences of UTF-16 code units *)

Definition jsstring : Type := list N.

(** A literal of ASCII characters. *)
Definition str (s : string) : jsstring := List.map N_of_ascii (list_ascii_of_string s).

Definition jsstring_eqb (a b : jsstring) : bool :=
  if list_eq_dec N.eq_dec a b then true else false.

(** The code points [String.prototype.trim] strips: WhiteSpace and
    LineTerminator of ECMAScript. *)
Definition isWhiteSpace (c : N) : bool :=
  (existsb (N.eqb c)
     [9; 10; 11; 12; 13; 32; 160; 5760; 8232; 8233; 8239; 8287; 12288; 65279]
   || ((8192 <=? c) && (c <=? 8202)))%N.

Fixpoint trimStart (s : jsstring) : jsstring :=
  match s with
  | c :: r => if isWhiteSpace c then trimStart r else s
  | [] => []
  end.

Definition trimEnd (s : jsstring) : jsstring := rev (trimStart (rev s)).

Definition trim (s : jsstring) : jsstring := trimEnd (trimStart s).

Definition isASCII (c : N) : bool := (c <? 128)%N.

Definition lowerASCII (c : N) : N :=
  if ((65 <=? c) && (c <=? 90))%N then (c + 32)%N else c.

Fixpoint startsWith (t w : jsstring) : bool :=
  match w, t with
  | [], _ => true
  | _ :: _, [] => false
  | a :: w', b :: t' => (a =? b)%N && startsWith t' w'
  end.

(** [t.includes(w)]: [w] occurs in [t] as a substring. *)
Fixpoint includes (t w : jsstring) : bool :=
  startsWith t w ||
  match t with
  | [] => false
  | _ :: t' => includes t' w
  end.

(** ** [lib/scoring.ts] *)

Inductive EntryCategory : Type :=
  | Physical | Social | Focus | EmotionRegulation
  | Avoidance | Impulse | Sleep | Other.

(** The closed enumeration, listed. *)
Definition all_categories : list EntryCategory :=
  [Physical; Social; Focus; EmotionRegulation; Avoidance; Impulse; Sleep; Other].

Section Scoring.

Context {num : Type} {NUM : Number num}.

Local Open Scope num_scope.

Record Entry : Type := {
  id : jsstring;
  text : jsstring;
  createdAt : jsstring;               (* ISO string *)
  category : option EntryCategory;
  value : option num
}.

Record ScoredEntry : Type := {
  s_id : jsstring;
  s_text : jsstring;
  s_createdAt : jsstring;
  s_category : EntryCategory;
  s_value : num
}.

Record ScoreConfig : Type := {
  lambda : num;                        (* loss aversion > 1 *)
  scale : num;                         (* scaling factor c *)
  emaAlpha : num                       (* 0..1, e.g. 0.3 *)
}.

Definition DEFAULT_CONFIG : ScoreConfig := {|
  lambda := lit 1.8;
  scale := lit 6;
  emaAlpha := lit 0.3
|}.

(** *** Math core *)

Definition clamp (n : num) (min max : num) : num :=
  Math_max min (Math_min max n).

(** A call [clamp(n)], both bounds defaulted. *)
Definition clamp_default (n : num) : num := clamp n (lit 0) (lit 100).

Definition sigmoid (z : num) : num :=
  lit 1 / (lit 1 + Math_exp (- z)).

(** The object [scoreDayFromValues] returns. *)
Record DayValues : Type := {
  positiveSum : num;
  negativeSum : num;
  rawScore : num
}.

Definition scoreDayFromValues (values : list num) (config : ScoreConfig) : DayValues :=
  let p := fold_left (fun acc v => acc + Math_max (lit 0) v) values (lit 0) in
  let n := fold_left (fun acc v => acc + Math_max (lit 0) (- v)) values (lit 0) in
  let z := (p - lambda config * n) / scale config in
  let raw := lit 100 * sigmoid z in
  {| positiveSum := p; negativeSum := n; rawScore := clamp_default raw |}.

(** [yesterdaySmoothed == null] holds of [null] and [undefined]: [None]. *)
Definition emaScore (todayRaw : num) (yesterdaySmoothed : option num)
    (config : ScoreConfig) : num :=
  match yesterdaySmoothed with
  | None => clamp_default todayRaw
  | Some yesterday =>
      let a := emaAlpha config in
      clamp_default (a * todayRaw + (lit 1 - a) * yesterday)
  end.

(** *** Minimal local scoring *)

(** [String.prototype.toLowerCase]: on a string of ASCII code units it maps
    [A]-[Z] to [a]-[z]; any other string goes through the host's Unicode
    case conversion. *)
Variable unicode_toLowerCase : jsstring -> jsstring.

Definition toLowerCase (s : jsstring) : jsstring :=
  if forallb isASCII s then List.map lowerASCII s else unicode_toLowerCase s.

Record Scored : Type := { category_of : EntryCategory; value_of : num }.

Definition scoreEntryLocal (txt : jsstring) : Scored :=
  let t := toLowerCase (trim txt) in
  let hit (words : list jsstring) := existsb (fun w => includes t w) words in
  (* POSITIVE *)
  if hit [str "walk"; str "run"; str "gym"; str "workout"; str "yoga"; str "stretch"; str "exercise"]
  then {| category_of := Physical; value_of := lit 4 |}
  else if hit [str "cook"; str "healthy"; str "salad"; str "water"; str "hydrated"]
  then {| category_of := Physical; value_of := lit 2 |}
  else if hit [str "called"; str "meet"; str "met"; str "friend"; str "family"; str "talked"]
  then {| category_of := Social; value_of := lit 3 |}
  else if hit [str "focused"; str "deep work"; str "finish"; str "completed"; str "shipped"]
  then {| category_of := Focus; value_of := lit 4 |}
  else if hit [str "journal"; str "meditate"; str "meditation"; str "breath"; str "therapy"]
  then {| category_of := EmotionRegulation; value_of := lit 3 |}
  else if hit [str "slept early"; str "sleep early"; str "8 hours"; str "good sleep"]
  then {| category_of := Sleep; value_of := lit 4 |}
  (* NEGATIVE *)
  else if hit [str "doomscroll"; str "scrolling"; str "tiktok"; str "instagram for hours"]
  then {| category_of := Avoidance; value_of := - lit 3 |}
  else if hit [str "stayed up"; str "3am"; str "4am"; str "no sleep"; str "insomnia"]
  then {| category_of := Sleep; value_of := - lit 4 |}
  else if hit [str "drank"; str "alcohol"; str "hangover"]
  then {| category_of := Impulse; value_of := - lit 3 |}
  else if hit [str "argued"; str "fight"; str "shouted"; str "rage"]
  then {| category_of := Impulse; value_of := - lit 4 |}
  else if hit [str "avoided"; str "procrastinated"; str "skipped"]
  then {| category_of := Avoidance; value_of := - lit 2 |}
  else {| category_of := Other; value_of := lit 0 |}.

(** *** Date helper *)

(** [toLocalDateKey] formats year, month and day of [new Date(iso)] in the
    host's local time zone. *)
Variable toLocalDateKey : jsstring -> jsstring.

(** ** The callers: [app/page.tsx] and [app/report/page.tsx] *)

(** Both pages call the classifier while they build their scored entries.
    To say when it is called, a computation carries, beside its result, the
    texts [scoreEntryLocal] was called on, in call order. *)
Definition Traced (A : Type) : Type := (A * list jsstring)%type.

Definition ret {A : Type} (a : A) : Traced A := (a, []).

Definition bind {A B : Type} (m : Traced A) (k : A -> Traced B) : Traced B :=
  let (a, calls1) := m in
  let (b, calls2) := k a in
  (b, calls1 ++ calls2).

Notation "x <- m ;; k" := (bind m (fun x => k))
  (at level 61, m at next level, right associativity).

(** [xs.map(f)] for an [f] that may call the classifier. *)
Fixpoint mapT {A B : Type} (f : A -> Traced B) (xs : list A) : Traced (list B) :=
  match xs with
  | [] => ret []
  | x :: rest =>
      y <- f x ;;
      ys <- mapT f rest ;;
      ret (y :: ys)
  end.

Definition call_scoreEntryLocal (txt : jsstring) : Traced Scored :=
  (scoreEntryLocal txt, [txt]).

(** The callback both pages map over a day's entries. *)
Definition toScoredEntry (e : Entry) : Traced ScoredEntry :=
  scored <- call_scoreEntryLocal (text e) ;;
  ret {| s_id := id e;
         s_text := text e;
         s_createdAt := createdAt e;
         (* e.category ?? scored.category *)
         s_category := match category e with
                       | Some c => c
                       | None => category_of scored
                       end;
         (* typeof e.value === "number" ? e.value : scored.value *)
         s_value := match value e with
                    | Some v => v
                    | None => value_of scored
                    end |}.

Definition onDay (dateKey : jsstring) (entries : list Entry) : list Entry :=
  filter (fun e => jsstring_eqb (toLocalDateKey (createdAt e)) dateKey) entries.

(** [app/page.tsx]: [todayEntries], [scoredToday] and [todayScore]. *)
Definition scoredToday (entries : list Entry) (todayKey : jsstring)
    : Traced (list ScoredEntry) :=
  mapT toScoredEntry (onDay todayKey entries).

Definition todayScore (entries : list Entry) (todayKey : jsstring)
    : Traced DayValues :=
  scored <- scoredToday entries todayKey ;;
  ret (scoreDayFromValues (List.map s_value scored) DEFAULT_CONFIG).

(** [app/report/page.tsx]: one element of [days]. *)
Record DayScore : Type := {
  dateKey : jsstring;
  entries_of : list ScoredEntry;
  d_positiveSum : num;
  d_negativeSum : num;
  d_rawScore : num;
  smoothedScore : num
}.

(** The body of [keys.map(...)], with the captured variable [prevSmoothed]
    passed along: each day reads it and rebinds it to its own smoothed
    score. *)
Fixpoint days_from (entries : list Entry) (keys : list jsstring)
    (prevSmoothed : option num) : Traced (list DayScore) :=
  match keys with
  | [] => ret []
  | key :: later =>
      dayEntries <- mapT toScoredEntry (onDay key entries) ;;
      let values := List.map s_value dayEntries in
      let base := scoreDayFromValues values DEFAULT_CONFIG in
      let smoothed := emaScore (rawScore base) prevSmoothed DEFAULT_CONFIG in
      rest <- days_from entries later (Some smoothed) ;;
      ret ({| dateKey := key;
              entries_of := dayEntries;
              d_positiveSum := positiveSum base;
              d_negativeSum := negativeSum base;
              d_rawScore := rawScore base;
              smoothedScore := smoothed |} :: rest)
  end.

(** [keys] is [lastNDaysKeys(7).reverse()], oldest day first; it depends on
    the host's clock only. [prevSmoothed] starts as [null]. *)
Definition ReportPage_days (entries : list Entry) (keys : list jsstring)
    : Traced (list DayScore) :=
  days_from entries keys None.

(** The smoothing that loop performs on the days' raw scores: [emaScore]
    once per day, oldest first, each call handed the result of the call
    before it. *)
Fixpoint smoothed_from (config : ScoreConfig) (raws : list num)
    (prevSmoothed : option num) : list num :=
  match raws with
  | [] => []
  | todayRaw :: later =>
      let smoothed := emaScore todayRaw prevSmoothed config in
      smoothed :: smoothed_from config later (Some smoothed)
  end.

(** ** The specification's formulas, for comparison with the code *)

(** [Sigma f values k] is the sum of [f v] over the first [k] values, by
    the usual recursion: the empty sum is 0, and one more term is added on
    the right. *)
Fixpoint Sigma (f : num -> num) (values : list num) (k : nat) : num :=
  match k with
  | O => lit 0
  | S k' => Sigma f values k' + f (nth k' values (lit 0))
  end.

(** The recurrence of the trend smoother over days numbered from 0:
    [S_0 = clamp(r_0)] and
    [S_t = clamp(alpha * r_t + (1 - alpha) * S_(t-1))]. *)
Fixpoint ema_recurrence (config : ScoreConfig) (r : nat -> num) (t : nat) : num :=
  match t with
  | O => clamp_default (r O)
  | S t' =>
      clamp_default
        (emaAlpha config * r t + (lit 1 - emaAlpha config) * ema_recurrence config r t')
  end.

(** The classifier as the specification words it: an ordered list of
    keyword-group rules, the first rule with a keyword in the text wins,
    and [(Other, 0)] when none has. *)
Definition keyword_rules : list (list jsstring * Scored) :=
  [ ([str "walk"; str "run"; str "gym"; str "workout"; str "yoga"; str "stretch"; str "exercise"],
     {| category_of := Physical; value_of := lit 4 |});
    ([str "cook"; str "healthy"; str "salad"; str "water"; str "hydrated"],
     {| category_of := Physical; value_of := lit 2 |});
    ([str "called"; str "meet"; str "met"; str "friend"; str "family"; str "talked"],
     {| category_of := Social; value_of := lit 3 |});
    ([str "focused"; str "deep work"; str "finish"; str "completed"; str "shipped"],
     {| category_of := Focus; value_of := lit 4 |});
    ([str "journal"; str "meditate"; str "meditation"; str "breath"; str "therapy"],
     {| category_of := EmotionRegulation; value_of := lit 3 |});
    ([str "slept early"; str "sleep early"; str "8 hours"; str "good sleep"],
     {| category_of := Sleep; value_of := lit 4 |});
    ([str "doomscroll"; str "scrolling"; str "tiktok"; str "instagram for hours"],
     {| category_of := Avoidance; value_of := - lit 3 |});
    ([str "stayed up"; str "3am"; str "4am"; str "no sleep"; str "insomnia"],
     {| category_of := Sleep; value_of := - lit 4 |});
    ([str "drank"; str "alcohol"; str "hangover"],
     {| category_of := Impulse; value_of := - lit 3 |});
    ([str "argued"; str "fight"; str "shouted"; str "rage"],
     {| category_of := Impulse; value_of := - lit 4 |});
    ([str "avoided"; str "procrastinated"; str "skipped"],
     {| category_of := Avoidance; value_of := - lit 2 |}) ].

Definition rule_matches (t : jsstring) (rule : list jsstring * Scored) : bool :=
  existsb (fun w => includes t w) (fst rule).

Fixpoint first_match (t : jsstring) (rules : list (list jsstring * Scored)) : Scored :=
  match rules with
  | [] => {| category_of := Other; value_of := lit 0 |}
  | rule :: lower =>
      if rule_matches t rule then snd rule else first_match t lower
  end.

(** The value a scored entry carries: the stored one when there is one. *)
Definition value_used (e : Entry) : num :=
  match value e with
  | Some v => v
  | None => value_of (scoreEntryLocal (text e))
  end.

(** The content of [prevSmoothed] once the days [done] have been mapped,
    in terms of the recurrence over [r]. *)
Definition prev_after (config : ScoreConfig) (r : nat -> num) (done : list num)
    : option num :=
  match done with
  | [] => None
  | _ :: _ => Some (ema_recurrence config r (length done - 1))
  end.

End Scoring.

Arguments Entry : clear implicits.
Arguments ScoredEntry : clear implicits.
Arguments ScoreConfig : clear implicits.
Arguments DayValues : clear implicits.
Arguments DayScore : clear implicits.
Arguments Scored : clear implicits.

(** ** Closed forms over the reals *)

(** The two accumulators of [scoreDayFromValues], the sum either of them
    computes, and the score as a function of [z]. *)
Definition pos_part (v : R) : R := Math_max (lit 0) v.
Definition neg_part (v : R) : R := Math_max (lit 0) (- v)%R.

Definition total (f : R -> R) (values : list R) : R :=
  fold_left (fun acc v => (acc + f v)%R) values (lit 0).

Definition score_of (z : R) : R := clamp_default (lit 100 * sigmoid z)%num.

(** ** Sums of integers *)

Definition Zsum (f : Z -> Z) (zs : list Z) : Z :=
  fold_right (fun z acc => (f z + acc)%Z) 0%Z zs.

(** The sum of the magnitudes of a list of integers. *)
Definition magnitude (zs : list Z) : Z := Zsum Z.abs zs.

(** ** The date helper, over the host's [Date] *)

Module LocalDate.

(** What [toLocalDateKey] reads of a valid [new Date(iso)]: the year, the
    month (0 to 11) and the day of the month (1 to 31), in the host's
    local time zone. *)
Record Fields : Type := { fullYear : Z; month : Z; date : Z }.

(** [new Date(iso)]: the host parses [iso] and converts it to local time;
    an Invalid Date has no fields. *)
Class DateHost : Type := Date : jsstring -> option Fields.

(** The getters return an integral number, or [NaN] ([None]) on an
    Invalid Date; [NaN + 1] is [NaN]. *)
Definition getFullYear (d : option Fields) : option Z := option_map fullYear d.
Definition getMonth (d : option Fields) : option Z := option_map month d.
Definition getDate (d : option Fields) : option Z := option_map date d.

Definition plus_1 (n : option Z) : option Z := option_map (fun z => z + 1)%Z n.

(** [String(n)] and [`${n}`] for such a number: its decimal digits, with
    a leading [-] when negative ([|n| < 10^21], as every year is). *)
Definition ToString (n : option Z) : jsstring :=
  match n with
  | None => str "NaN"
  | Some z => str (NilZero.string_of_int (Z.to_int z))
  end.

(** [s.padStart(maxLength, fillString)] *)
Definition padStart (s : jsstring) (maxLength : nat) (fillString : jsstring) : jsstring :=
  let fillLen := (maxLength - length s)%nat in
  if (maxLength <=? length s)%nat then s
  else match fillString with
       | [] => s
       | _ :: _ => firstn fillLen (concat (repeat fillString fillLen)) ++ s
       end.

Definition toLocalDateKey {host : DateHost} (iso : jsstring) : jsstring :=
  let d := Date iso in
  let y := getFullYear d in
  let m := padStart (ToString (plus_1 (getMonth d))) 2 (str "0") in
  let day := padStart (ToString (getDate d)) 2 (str "0") in
  ToString y ++ str "-" ++ m ++ str "-" ++ day.

(** [app/report/page.tsx], [lastNDaysKeys(n)]: iteration [i] pushes the
    key of [dd.toISOString()], where [dd] is the clock's date with its day
    of the month set back by [i]; the host supplies that string. *)
Class Clock : Type := isoDaysAgo : nat -> jsstring.

Definition lastNDaysKeys {host : DateHost} {clock : Clock} (n : nat) : list jsstring :=
  List.map (fun i => toLocalDateKey (isoDaysAgo i)) (seq 0 n).

(** The ranges ECMAScript gives the getters of a valid date. *)
Definition inRange (f : Fields) : Prop :=
  (0 <= month f <= 11)%Z /\ (1 <= date f <= 31)%Z.

(** The code unit of a decimal digit, a number below 100 on two digits,
    and the digits among the code units. *)
Definition digit (k : Z) : N := Z.to_N (48 + k).

Definition two (n : Z) : jsstring := [digit (n / 10); digit (n mod 10)].

Definition isDigit (c : N) : bool := ((48 <=? c) && (c <=? 57))%N.

(** A decimal digit put before the digits [d]. *)
Definition dig (k : Z) (d : Decimal.uint) : Decimal.uint :=
  match k with
  | 0 => Decimal.D0 d | 1 => Decimal.D1 d | 2 => Decimal.D2 d | 3 => Decimal.D3 d
  | 4 => Decimal.D4 d | 5 => Decimal.D5 d | 6 => Decimal.D6 d | 7 => Decimal.D7 d
  | 8 => Decimal.D8 d | _ => Decimal.D9 d
  end%Z.

End LocalDate.


(** ** The handlers of [app/page.tsx] and the report's averages *)

Section Handlers.

Context {num : Type} {NUM : Number num}.
Variable unicode_toLowerCase : jsstring -> jsstring.

Local Open Scope num_scope.

(** [addEntry]: the list [next] the handler passes to [setEntries] and
    [saveEntries], or nothing when it returns early.  [txt] is the content
    of the text area, [uid] the result of [uid()] and [now] that of
    [new Date().toISOString()]. *)
Definition addEntry (txt uid now : jsstring) (entries : list (Entry num))
    : option (list (Entry num)) :=
  let t := trim txt in
  if (length t <? 2)%nat then None
  else
    let base : Entry num := {| id := uid; text := t; createdAt := now;
                               category := None; value := None |} in
    let scored : Scored num := scoreEntryLocal unicode_toLowerCase t in
    let withScore : Entry num := {| id := id base; text := text base; createdAt := createdAt base;
                        category := Some (category_of scored);
                        value := Some (value_of scored) |} in
    Some (withScore :: entries).

(** [removeEntry]: the list [next] it passes on. *)
Definition removeEntry (ident : jsstring) (entries : list (Entry num)) : list (Entry num) :=
  filter (fun e => negb (jsstring_eqb (id e) ident)) entries.

(** What a user does on the page, and the log after a run of it. *)
Inductive Action : Type :=
  | Add (txt uid now : jsstring)
  | Remove (ident : jsstring).

Definition step (entries : list (Entry num)) (a : Action) : list (Entry num) :=
  match a with
  | Add txt uid now =>
      match addEntry txt uid now entries with
      | Some next => next
      | None => entries
      end
  | Remove ident => removeEntry ident entries
  end.

Definition run (actions : list Action) (entries : list (Entry num)) : list (Entry num) :=
  fold_left step actions entries.

(** An entry as [addEntry] builds it: a trimmed text of two code units or
    more, with the category and the value the classifier gives it. *)
Definition well_scored (e : Entry num) : Prop :=
  trim (text e) = text e /\ (2 <= length (text e))%nat /\
  category e = Some (category_of (scoreEntryLocal unicode_toLowerCase (text e))) /\
  value e = Some (value_of (scoreEntryLocal unicode_toLowerCase (text e))).

(** A count as a number: [days.length], [top], the length of a match
    array. *)
Definition count (n : nat) : num := lit (inject_Z (Z.of_nat n)).

(** [app/report/page.tsx], [totals]; [days.length || 1] is 1 for the
    empty list. *)
Record Totals : Type := { avgRaw : num; avgSmooth : num }.

Definition length_or_1 (n : nat) : num :=
  match n with
  | O => lit 1
  | S _ => count n
  end.

Definition totals (days : list (DayScore num)) : Totals :=
  {| avgRaw := fold_left (fun acc d => acc + d_rawScore d) days (lit 0)
               / length_or_1 (length days);
     avgSmooth := fold_left (fun acc d => acc + smoothedScore d) days (lit 0)
                  / length_or_1 (length days) |}.

(** The report page from the clock on: the days of the last seven keys,
    oldest first, and their averages. *)
Definition ReportPage {host : LocalDate.DateHost} {clock : LocalDate.Clock}
    (entries : list (Entry num)) : Traced (list (DayScore num)) :=
  ReportPage_days unicode_toLowerCase LocalDate.toLocalDateKey entries
    (rev (LocalDate.lastNDaysKeys 7)).

End Handlers.

Arguments Action : clear implicits.
Arguments Totals : clear implicits.

(** ** The emotion analyzer page *)

Inductive Emotion : Type := Joy | Sadness | Anger | Anxiety | Neutral.

Definition Emotion_eqb (a b : Emotion) : bool :=
  match a, b with
  | Joy, Joy | Sadness, Sadness | Anger, Anger | Anxiety, Anxiety | Neutral, Neutral => true
  | _, _ => false
  end.

Definition Emotion_name (e : Emotion) : jsstring :=
  match e with
  | Joy => str "Joy"
  | Sadness => str "Sadness"
  | Anger => str "Anger"
  | Anxiety => str "Anxiety"
  | Neutral => str "Neutral"
  end.

(** The code units the page's strings hold beside ASCII letters. *)
Definition quote : N := 34.          (* the double quote *)
Definition arrow : N := 8594.        (* U+2192 *)
Definition ellipsis : N := 8230.     (* U+2026 *)
Definition apostrophe : N := 8217.   (* U+2019 *)

(** [parts.join(sep)] *)
Definition join (sep : jsstring) (parts : list jsstring) : jsstring :=
  match parts with
  | [] => []
  | p :: rest => p ++ flat_map (fun q => sep ++ q) rest
  end.

Section Analyzer.

Context {num : Type} {NUM : Number num}.
Variable unicode_toLowerCase : jsstring -> jsstring.

Local Open Scope num_scope.

Record Result : Type := {
  r_emotion : Emotion;
  r_score : num;                       (* 0-100 *)
  r_reason : jsstring;
  r_rewrite : jsstring
}.

(** [lex]; [Object.entries] lists it in this order. *)
Definition lex : list (Emotion * list jsstring) :=
  [ (Joy, [str "happy"; str "glad"; str "excited"; str "grateful"; str "love";
           str "amazing"; str "great"; str "awesome"]);
    (Sadness, [str "sad"; str "down"; str "hurt"; str "lonely"; str "cry"; str "miss";
               str "regret"; str "disappointed"]);
    (Anger, [str "angry"; str "mad"; str "furious"; str "annoyed"; str "hate";
             str "unfair"; str "ridiculous"]);
    (Anxiety, [str "anxious"; str "worried"; str "afraid"; str "scared"; str "panic";
               str "stressed"; str "nervous"]) ].

(** [counts], a number per emotion.  The numbers start at 0 and grow by 1:
    they are kept as naturals, and turned into numbers where the score is
    computed from them. *)
Definition Counts : Type := Emotion -> nat.

Definition no_counts : Counts := fun _ => O.

(** [counts[emo] += 1] *)
Definition increment (counts : Counts) (emo : Emotion) : Counts :=
  fun e => if Emotion_eqb e emo then S (counts e) else counts e.

(** The string pushed on [reasonHits] for a word found. *)
Definition hit_text (w : jsstring) (emo : Emotion) : jsstring :=
  [quote] ++ w ++ [quote] ++ str " " ++ [arrow] ++ str " " ++ Emotion_name emo.

(** The two nested loops, over the state they update: [counts] and
    [reasonHits]. *)
Definition scan_words (t : jsstring) (emo : Emotion) (words : list jsstring)
    (state : Counts * list jsstring) : Counts * list jsstring :=
  fold_left (fun st w =>
               if includes t w
               then (increment (fst st) emo, snd st ++ [hit_text w emo])
               else st)
            words state.

Definition scan (t : jsstring) : Counts * list jsstring :=
  fold_left (fun st entry => scan_words t (fst entry) (snd entry) st) lex (no_counts, []).

(** [(t.match(re) || []).length] for a regular expression with the flag
    [g] that matches exactly the code unit [c], as [/!/g] and [/\?/g]
    do. *)
Definition matches (t : jsstring) (c : N) : nat := count_occ N.eq_dec t c.

(** The [forEach] that picks the top emotion, over [emotion] and [top];
    [Object.keys(counts)] lists the five emotions in this order. *)
Definition pick (counts : Counts) : Emotion * nat :=
  fold_left (fun st e =>
               match e with
               | Neutral => st
               | _ => if (snd st <? counts e)%nat then (e, counts e) else st
               end)
            [Joy; Sadness; Anger; Anxiety; Neutral] (Neutral, O).

Definition rewriteByEmotion (e : Emotion) : jsstring :=
  match e with
  | Joy => str "I feel really good about this. I wanted to share it with you and hear your thoughts."
  | Sadness => str "I" ++ [apostrophe] ++ str "m feeling down about this. I" ++ [apostrophe]
               ++ str "d appreciate understanding and a chance to talk it through."
  | Anger => str "I" ++ [apostrophe]
             ++ str "m feeling frustrated. Can we focus on what happened and agree on a clear next step?"
  | Anxiety => str "I" ++ [apostrophe]
               ++ str "m feeling anxious about this. Can we clarify the situation and decide on a small first step?"
  | Neutral => str "I want to express this clearly: what I care about is ___, and what I hope happens next is ___."
  end.

(** [analyze]; the page's own [clamp] is that of [lib/scoring.ts], word
    for word. *)
Definition analyze (txt : jsstring) : Result :=
  let t := toLowerCase unicode_toLowerCase (trim txt) in
  let (counts, reasonHits) := scan t in
  let exclam := matches t 33 in
  let qmark := matches t 63 in
  let (emotion0, top) := pick counts in
  let emotion := if (top =? 0)%nat then Neutral else emotion0 in
  let score := clamp (count top * lit 25 + count exclam * lit 10 + count qmark * lit 5)
                     (lit 0) (lit 100) in
  let reason :=
    match emotion with
    | Neutral => str "No strong emotion keywords detected."
    | _ => str "Matched: " ++ join (str ", ") (firstn 4 reasonHits)
           ++ (if (4 <? length reasonHits)%nat then [ellipsis] else [])
    end in
  {| r_emotion := emotion; r_score := score; r_reason := reason;
     r_rewrite := rewriteByEmotion emotion |}.

End Analyzer.

Arguments Result : clear implicits.

(** The words [lex] lists for an emotion. *)
Definition words_of (e : Emotion) : list jsstring :=
  match e with
  | Joy => [str "happy"; str "glad"; str "excited"; str "grateful"; str "love";
            str "amazing"; str "great"; str "awesome"]
  | Sadness => [str "sad"; str "down"; str "hurt"; str "lonely"; str "cry"; str "miss";
                str "regret"; str "disappointed"]
  | Anger => [str "angry"; str "mad"; str "furious"; str "annoyed"; str "hate";
              str "unfair"; str "ridiculous"]
  | Anxiety => [str "anxious"; str "worried"; str "afraid"; str "scared"; str "panic";
                str "stressed"; str "nervous"]
  | Neutral => []
  end.

(** The words of an emotion found in a text, and their number. *)
Definition found (t : jsstring) (e : Emotion) : list jsstring :=
  filter (fun w => includes t w) (words_of e).

Definition hits (t : jsstring) (e : Emotion) : nat := length (found t e).

(** The place of an emotion in the order of [Object.keys(counts)]. *)
Definition rank (e : Emotion) : nat :=
  match e with Joy => 0 | Sadness => 1 | Anger => 2 | Anxiety => 3 | Neutral => 4 end.

(** The largest of the four counts. *)
Definition top_hits (t : jsstring) : nat :=
  Nat.max (hits t Joy) (Nat.max (hits t Sadness) (Nat.max (hits t Anger) (hits t Anxiety))).


(** ** The order of binary64 *)

Module Order.

Local Open Scope Z_scope.

(** The comparison of two numbers is that of their places in the
    lexicographic order of these triples. *)
Definition place (x : spec_float) : Z * Z * Z :=
  match x with
  | S754_infinity true => (-2, 0, 0)
  | S754_finite true m e => (-1, - e, - Zpos m)
  | S754_zero _ | S754_nan => (0, 0, 0)
  | S754_finite false m e => (1, e, Zpos m)
  | S754_infinity false => (2, 0, 0)
  end.

Definition below (a b : Z * Z * Z) : Prop :=
  let '(a1, a2, a3) := a in
  let '(b1, b2, b3) := b in
  a1 < b1 \/ (a1 = b1 /\ (a2 < b2 \/ (a2 = b2 /\ a3 < b3))).

End Order.

(** * Properties *)

(** ** Facts that hold at every carrier *)

Section Generic.

Context {num : Type} {NUM : Number num}.
Variable unicode_toLowerCase : jsstring -> jsstring.
Variable toLocalDateKey : jsstring -> jsstring.

Local Open Scope num_scope.

(** [Sigma] reads the first [k] values only. *)
Lemma Sigma_app (f : num -> num) (l r : list num) (k : nat) :
  (k <= length l)%nat -> Sigma f (l ++ r) k = Sigma f l k.
Proof.
  induction k as [|k IH]; intros Hk; simpl.
  - reflexivity.
  - rewrite IH by lia. rewrite app_nth1 by lia. reflexivity.
Qed.

(** The accumulator loop of [reduce] computes the sum of the series. *)
Lemma reduce_Sigma (f : num -> num) (values : list num) :
  fold_left (fun acc v => acc + f v) values (lit 0) = Sigma f values (length values).
Proof.
  induction values as [|x l IH] using rev_ind.
  - reflexivity.
  - rewrite fold_left_app, length_app, Nat.add_1_r. simpl.
    rewrite IH, Sigma_app by lia.
    rewrite app_nth2, Nat.sub_diag by lia. reflexivity.
Qed.

Lemma smoothed_from_recurrence (config : ScoreConfig num) (d : num) (raws done : list num) :
  let r := fun i => nth i (done ++ raws) d in
  smoothed_from config raws (prev_after config r done)
  = List.map (ema_recurrence config r) (seq (length done) (length raws)).
Proof.
  revert done. induction raws as [|x rest IH]; intros done r; simpl.
  - reflexivity.
  - assert (Hx : r (length done) = x).
    { unfold r. rewrite app_nth2, Nat.sub_diag by lia. reflexivity. }
    assert (Hnow : emaScore x (prev_after config r done) config
                   = ema_recurrence config r (length done)).
    { destruct done as [|y done']; simpl.
      - rewrite <- Hx. reflexivity.
      - rewrite Nat.sub_0_r. simpl in Hx. rewrite Hx. reflexivity. }
    rewrite Hnow. f_equal.
    specialize (IH (done ++ [x])).
    assert (Hr : (fun i => nth i ((done ++ [x]) ++ rest) d) = r).
    { unfold r. rewrite <- app_assoc. reflexivity. }
    simpl in IH. rewrite Hr in IH.
    rewrite length_app, Nat.add_1_r in IH.
    rewrite <- IH. f_equal.
    unfold prev_after. destruct (done ++ [x]) eqn:E.
    + destruct done; discriminate.
    + rewrite <- E, length_app, Nat.add_1_r. simpl. rewrite Nat.sub_0_r. reflexivity.
Qed.

(** Result and calls of a sequenced computation. *)
Lemma fst_bind {A B : Type} (m : Traced A) (k : A -> Traced B) :
  fst (bind m k) = fst (k (fst m)).
Proof. unfold bind. destruct m as [a c1]. simpl. destruct (k a). reflexivity. Qed.

Lemma snd_bind {A B : Type} (m : Traced A) (k : A -> Traced B) :
  snd (bind m k) = snd m ++ snd (k (fst m)).
Proof. unfold bind. destruct m as [a c1]. simpl. destruct (k a). reflexivity. Qed.

(** The report's loop smooths the raw scores of its days with
    [smoothed_from]. *)
Lemma days_from_smoothed (entries : list (Entry num)) (keys : list jsstring)
    (prev : option num) :
  let ds := fst (days_from unicode_toLowerCase toLocalDateKey entries keys prev) in
  List.map (@smoothedScore num) ds
  = smoothed_from DEFAULT_CONFIG (List.map (@d_rawScore num) ds) prev.
Proof.
  revert prev. induction keys as [|key later IH]; intros prev.
  - reflexivity.
  - cbn [days_from]. cbv zeta. rewrite !fst_bind. cbn [ret fst List.map smoothed_from].
    cbn [smoothedScore d_rawScore]. f_equal. apply IH.
Qed.

(** The classifier is called on every entry the callback is mapped over,
    and each scored entry keeps a stored value. *)
Lemma mapT_toScoredEntry (es : list (Entry num)) :
  snd (mapT (toScoredEntry unicode_toLowerCase) es) = List.map (@text num) es /\
  List.map (@s_value num) (fst (mapT (toScoredEntry unicode_toLowerCase) es))
  = List.map (value_used unicode_toLowerCase) es.
Proof.
  induction es as [|e es [IHc IHv]].
  - split; reflexivity.
  - cbn [mapT]. rewrite !snd_bind, !fst_bind. cbn [ret fst snd List.map].
    rewrite IHc, IHv, app_nil_r. split; reflexivity.
Qed.

(** The chain of [if (hit(...)) return ...] is a first-match search of
    the rule table. *)
Lemma scoreEntryLocal_first_match (txt : jsstring) :
  scoreEntryLocal unicode_toLowerCase txt
  = first_match (toLowerCase unicode_toLowerCase (trim txt)) keyword_rules.
Proof. reflexivity. Qed.

Lemma first_match_In (t : jsstring) (rules : list (list jsstring * Scored num)) :
  In (first_match t rules)
     (List.map snd rules ++ [{| category_of := Other; value_of := lit 0 |}]).
Proof.
  induction rules as [|rule lower IH]; simpl.
  - left. reflexivity.
  - destruct (rule_matches t rule); [left; reflexivity | right; exact IH].
Qed.

(** Below the first matching rule nothing is consulted, and above it no
    rule matches. *)
Lemma first_match_split (t : jsstring) (rules : list (list jsstring * Scored num)) :
  (exists above rule lower,
      rules = above ++ rule :: lower /\
      forallb (fun r => negb (rule_matches t r)) above = true /\
      rule_matches t rule = true /\
      first_match t rules = snd rule) \/
  (forallb (fun r => negb (rule_matches t r)) rules = true /\
   first_match t rules = {| category_of := Other; value_of := lit 0 |}).
Proof.
  induction rules as [|rule lower IH]; simpl.
  - right. split; reflexivity.
  - destruct (rule_matches t rule) eqn:E.
    + left. exists [], rule, lower. repeat split; assumption.
    + destruct IH as [(above & r & low & -> & Hab & Hr & Hf) | [Hall Hf]].
      * left. exists (rule :: above), r, low. simpl. rewrite E. repeat split; assumption.
      * right. simpl. split; assumption.
Qed.

End Generic.

(** ** Exact real arithmetic *)

Module Exact.

Local Open Scope R_scope.

(** The literals of the module, as reals. *)
Lemma lit_R (q : Q) : lit q = IZR (Qnum q) / IZR (Zpos (Qden q)).
Proof. reflexivity. Qed.

Lemma lit_0 : lit 0 = 0.
Proof. rewrite lit_R. cbn [Qnum Qden]. lra. Qed.

Lemma lit_1 : lit 1 = 1.
Proof. rewrite lit_R. cbn [Qnum Qden]. lra. Qed.

Lemma lit_100 : lit 100 = 100.
Proof. rewrite lit_R. cbn [Qnum Qden]. lra. Qed.

Lemma pos_part_Rmax (v : R) : pos_part v = Rmax 0 v.
Proof. unfold pos_part. rewrite lit_0. reflexivity. Qed.

Lemma neg_part_Rmax (v : R) : neg_part v = Rmax 0 (- v).
Proof. unfold neg_part. rewrite lit_0. reflexivity. Qed.

Lemma total_nil (f : R -> R) : total f [] = 0.
Proof. unfold total. cbn [fold_left]. apply lit_0. Qed.

Lemma fold_shift (f : R -> R) (values : list R) (a : R) :
  fold_left (fun acc v => acc + f v) values a = a + total f values.
Proof.
  unfold total. revert a. induction values as [|x l IH]; intros a; cbn [fold_left].
  - rewrite lit_0. lra.
  - rewrite (IH (a + f x)), (IH (lit 0 + f x)), lit_0. lra.
Qed.

Lemma total_cons (f : R -> R) (x : R) (l : list R) :
  total f (x :: l) = f x + total f l.
Proof. unfold total at 1. cbn [fold_left]. rewrite fold_shift, lit_0. lra. Qed.


Lemma total_Permutation (f : R -> R) (l l' : list R) :
  Permutation l l' -> total f l = total f l'.
Proof.
  induction 1 as [| x l l' _ IH | x y l | l l' l'' _ IH1 _ IH2].
  - reflexivity.
  - rewrite !total_cons, IH. reflexivity.
  - rewrite !total_cons. lra.
  - congruence.
Qed.

Lemma pos_minus_neg (v : R) : pos_part v - neg_part v = v.
Proof.
  rewrite pos_part_Rmax, neg_part_Rmax.
  destruct (Rle_dec 0 v).
  - rewrite Rmax_right, Rmax_left by lra. lra.
  - rewrite Rmax_left, Rmax_right by lra. lra.
Qed.

Lemma total_pos_minus_neg (l : list R) :
  total pos_part l - total neg_part l = total (fun v => v) l.
Proof.
  induction l as [|x l IH].
  - rewrite !total_nil. lra.
  - rewrite !total_cons. pose proof (pos_minus_neg x). lra.
Qed.

Lemma score_of_R (z : R) :
  score_of z = Rmax 0 (Rmin 100 (100 * (1 / (1 + exp (- z))))).
Proof.
  unfold score_of, clamp_default, clamp, sigmoid.
  rewrite lit_0, lit_1, lit_100. reflexivity.
Qed.

Lemma scoreDayFromValues_R (values : list R) (config : ScoreConfig R) :
  scoreDayFromValues values config
  = {| positiveSum := total pos_part values;
       negativeSum := total neg_part values;
       rawScore := score_of ((total pos_part values - lambda config * total neg_part values)
                             / scale config) |}.
Proof. reflexivity. Qed.



Lemma score_of_range (z : R) : 0 <= score_of z <= 100.
Proof.
  rewrite score_of_R. split.
  - apply Rmax_l.
  - apply Rmax_lub; [lra | apply Rmin_l].
Qed.

Lemma score_of_0 : score_of 0 = 50.
Proof.
  rewrite score_of_R, Ropp_0, exp_0.
  replace (100 * (1 / (1 + 1))) with 50 by lra.
  rewrite Rmin_right, Rmax_right by lra. reflexivity.
Qed.

(** Bounds on [e^(-4/15)], from [1 + x <= e^x] at [x = -1/240] and
    [x = 1/240] and six squarings. *)
Lemma exp_lower (x : R) : 1 + x <= exp x.
Proof.
  destruct (Req_dec x 0) as [-> | Hx].
  - rewrite exp_0. lra.
  - left. now apply exp_ineq1.
Qed.

Lemma exp_neg_double (x : R) : exp (- (2 * x)) = exp (- x) * exp (- x).
Proof. replace (- (2 * x)) with (- x + - x) by lra. apply exp_plus. Qed.

Lemma exp_minus_4_15 : 0.7655 < exp (- (4 / 15)) < 0.7664.
Proof.
  assert (Hl : 239 / 240 <= exp (- (1 / 240))).
  { pose proof (exp_lower (- (1 / 240))). lra. }
  assert (Hu : exp (- (1 / 240)) <= 240 / 241).
  { rewrite exp_Ropp. replace (240 / 241) with (/ (1 + 1 / 240)) by field.
    apply Rinv_le_contravar; [lra | apply exp_lower]. }
  assert (E : exp (- (4 / 15)) = exp (- (1 / 240)) ^ 64).
  { replace (4 / 15) with (2 * (2 * (2 * (2 * (2 * (2 * (1 / 240))))))) by lra.
    rewrite !exp_neg_double. ring. }
  rewrite E. set (e := exp (- (1 / 240))) in *.
  assert (Hl64 : (239 / 240) ^ 64 <= e ^ 64) by (apply pow_incr; lra).
  assert (Hu64 : e ^ 64 <= (240 / 241) ^ 64) by (apply pow_incr; lra).
  split.
  - eapply Rlt_le_trans; [| exact Hl64]. lra.
  - eapply Rle_lt_trans; [exact Hu64 |]. lra.
Qed.

End Exact.

(** ** IEEE 754 binary64 *)

Module OnBinary64.

Import Binary64.

Section Host.

Context {host : Host}.

Lemma literal_0 : lit 0 = S754_zero false.
Proof. reflexivity. Qed.

Lemma literal_100 : lit 100 = S754_finite false 7036874417766400 (-46).
Proof. vm_compute. reflexivity. Qed.

Lemma SFltb_SFleb (x y : spec_float) : SFltb x y = true -> SFleb x y = true.
Proof.
  unfold SFltb, SFleb. destruct (SFcompare x y) as [[ | | ] | ]; congruence.
Qed.

(** [clamp(n)] is [NaN] exactly when [n] is; otherwise it lies between the
    bounds. *)
Lemma clamp_default_range (n : spec_float) :
  (isNaN n = true /\ clamp_default n = NaN) \/
  (isNaN n = false /\
   leb (lit 0) (clamp_default n) = true /\ leb (clamp_default n) (lit 100) = true).
Proof.
  unfold clamp_default, clamp, leb. rewrite literal_0, literal_100.
  cbn [Math_max Math_min js].
  destruct n as [s | s | | s m e].
  - right. destruct s; vm_compute; auto.
  - right. destruct s; vm_compute; auto.
  - left. split; reflexivity.
  - right. split; [reflexivity |].
    unfold min.
    destruct (SFltb (S754_finite s m e) (S754_finite false 7036874417766400 (-46))) eqn:E.
    + destruct s.
      * vm_compute. auto.
      * split; [reflexivity | apply SFltb_SFleb, E].
    + vm_compute. auto.
Qed.

(** A day without values: [p = n = 0], and [z] is [+0] or [-0] whenever
    [lambda] is finite and [scale] is positive. *)
Lemma empty_day (config : ScoreConfig spec_float) :
  isFinite (lambda config) = true ->
  ltb (lit 0) (scale config) = true ->
  scoreDayFromValues [] config
  = {| positiveSum := lit 0; negativeSum := lit 0; rawScore := lit 50 |}.
Proof.
  destruct config as [l s a]. cbn [lambda scale].
  intros Hl Hs.
  destruct l as [sl | sl | | sl ml el]; try discriminate Hl;
    destruct s as [ss | [|] | | [|] ms es]; try discriminate Hs;
    destruct sl; vm_compute; reflexivity.
Qed.

(** With [scale = 0] the division yields [NaN] or an infinity, whatever
    the sums are, and the score degenerates to [NaN], 0 or 100. *)
Lemma zero_scale_score (x : spec_float) :
  let r := clamp_default (lit 100 * sigmoid (x / lit 0))%num in
  match x with
  | S754_nan | S754_zero _ => r = NaN
  | S754_infinity false | S754_finite false _ _ => r = lit 100
  | S754_infinity true | S754_finite true _ _ => r = lit 0
  end.
Proof.
  destruct x as [s | [|] | | [|] m e]; vm_compute; reflexivity.
Qed.

End Host.

End OnBinary64.

(** ** Integers in binary64

    Sums and differences of integers are exact as long as every operand
    and result stays below [2^53] in magnitude: the rounding of
    [binary_round] then only shifts zeros in or out. *)
Module IntegerDoubles.

Import Binary64.
Local Open Scope Z_scope.

Lemma digits_shl c k : digits (shl c k) = digits c + Z.of_nat k.
Proof.
  unfold digits, shl. induction k as [|k IH].
  - simpl. lia.
  - rewrite Nat.iter_succ. cbn [digits2_pos]. rewrite Pos2Z.inj_succ, IH. lia.
Qed.

Lemma digits_pos c : 1 <= digits c.
Proof. unfold digits. lia. Qed.

Lemma Zpos_shl c k : Zpos (shl c k) = Zpos c * 2 ^ Z.of_nat k.
Proof.
  unfold shl. induction k as [|k IH].
  - simpl. lia.
  - rewrite Nat.iter_succ, Pos2Z.inj_xO, IH, Nat2Z.inj_succ, Z.pow_succ_r by lia. lia.
Qed.

Lemma shl_shl c j k : shl (shl c j) k = shl c (k + j).
Proof. unfold shl. symmetry. apply Nat.iter_add. Qed.

Lemma Pos_iter_xO c d : Pos.iter xO c d = shl c (Pos.to_nat d).
Proof. unfold shl. rewrite Pos2Nat.inj_iter. reflexivity. Qed.

(** The library's own iterator, as an iteration over [nat]. *)
Lemma iter_pos_Nat {A} (f : A -> A) p x : iter_pos f p x = Nat.iter (Pos.to_nat p) f x.
Proof.
  revert x. induction p as [p IH | p IH |]; intros x; cbn [iter_pos].
  - rewrite !IH, Pos2Nat.inj_xI. rewrite <- Nat.iter_add, <- Nat.iter_succ_r. f_equal. lia.
  - rewrite !IH, Pos2Nat.inj_xO. rewrite <- Nat.iter_add. f_equal. lia.
  - reflexivity.
Qed.

Lemma shr_1_even m : shr_1 (Build_shr_record (Zpos (xO m)) false false) = Build_shr_record (Zpos m) false false.
Proof. reflexivity. Qed.

Lemma iter_shr_1 c j k :
  Nat.iter k shr_1 (Build_shr_record (Zpos (shl c (k + j))) false false)
  = Build_shr_record (Zpos (shl c j)) false false.
Proof.
  induction k as [|k IH].
  - reflexivity.
  - rewrite Nat.iter_succ_r. replace (S k + j)%nat with (S (k + j)) by lia.
    unfold shl at 1. rewrite Nat.iter_succ. fold (shl c (k + j)). rewrite shr_1_even. exact IH.
Qed.

Lemma fexp_small d : 1 <= d <= 53 -> fexp prec emax d = d - 53.
Proof. intros. unfold fexp, emin, prec, emax. lia. Qed.

Lemma shr_fexp_nf c :
  digits c <= 53 ->
  let M := shl c (Z.to_nat (53 - digits c)) in
  shr_fexp prec emax (Zpos M) (digits c - 53) loc_Exact
  = (Build_shr_record (Zpos M) false false, digits c - 53).
Proof.
  intros Hd M. subst M. pose proof (digits_pos c).
  unfold shr_fexp. cbn [Zdigits2 shr_record_of_loc].
  fold (digits (shl c (Z.to_nat (53 - digits c)))). rewrite digits_shl, Z2Nat.id by lia.
  replace (digits c + (53 - digits c) + (digits c - 53)) with (digits c) by lia.
  rewrite fexp_small by lia. rewrite Z.sub_diag. reflexivity.
Qed.

Lemma round_aux_nf s c :
  digits c <= 53 ->
  binary_round_aux prec emax s (Zpos (shl c (Z.to_nat (53 - digits c)))) (digits c - 53) loc_Exact
  = normal s c.
Proof.
  intros Hd. pose proof (digits_pos c).
  unfold binary_round_aux. rewrite (@shr_fexp_nf c Hd).
  cbn [shr_m loc_of_shr_record round_nearest_even].
  rewrite (@shr_fexp_nf c Hd). cbn [shr_m].
  unfold normal, emax, prec.
  destruct (Z.leb_spec (digits c - 53) (1024 - 53)); [reflexivity | lia].
Qed.

Lemma shr_fexp_shifted c k p :
  digits c <= 53 ->
  digits c - 53 + Z.of_nat k = Zpos p ->
  shr_fexp prec emax (Zpos (shl c k)) (- Z.of_nat k) loc_Exact
  = (Build_shr_record (Zpos (shl c (Z.to_nat (53 - digits c)))) false false, digits c - 53).
Proof.
  intros Hd E. pose proof (digits_pos c).
  unfold shr_fexp. cbn [Zdigits2 shr_record_of_loc].
  fold (digits (shl c k)). rewrite digits_shl.
  replace (digits c + Z.of_nat k + - Z.of_nat k) with (digits c) by lia.
  rewrite fexp_small by lia.
  replace (digits c - 53 - - Z.of_nat k) with (Zpos p) by lia.
  cbn [shr]. rewrite iter_pos_Nat.
  replace k with (Pos.to_nat p + Z.to_nat (53 - digits c))%nat at 1 by lia.
  rewrite iter_shr_1. f_equal. lia.
Qed.

(** Rounding [c * 2^k * 2^-k] yields the double of [c], whatever [k]. *)
Lemma binary_round_shl s c k :
  digits c <= 53 ->
  binary_round prec emax s (shl c k) (- Z.of_nat k) = normal s c.
Proof.
  intros Hd. pose proof (digits_pos c).
  unfold binary_round. fold (digits (shl c k)). rewrite digits_shl.
  replace (digits c + Z.of_nat k + - Z.of_nat k) with (digits c) by lia.
  rewrite fexp_small by lia.
  unfold shl_align.
  destruct (digits c - 53 - - Z.of_nat k) as [| p | p] eqn:E.
  - (* aligned already *)
    assert (k = Z.to_nat (53 - digits c)) by lia. subst k.
    replace (- Z.of_nat (Z.to_nat (53 - digits c))) with (digits c - 53) by lia.
    apply round_aux_nf, Hd.
  - (* too many digits: the rounding shifts right, exactly *)
    unfold binary_round_aux.
    rewrite (@shr_fexp_shifted c k p) by lia.
    cbn [shr_m loc_of_shr_record round_nearest_even].
    rewrite (@shr_fexp_nf c Hd). cbn [shr_m].
    unfold normal, emax, prec.
    destruct (Z.leb_spec (digits c - 53) (1024 - 53)); [reflexivity | lia].
  - (* too few digits: aligned to the left first *)
    rewrite Pos_iter_xO, shl_shl.
    replace (Pos.to_nat p + k)%nat with (Z.to_nat (53 - digits c)) by lia.
    apply round_aux_nf, Hd.
Qed.

Lemma digits_size c : digits2_pos c = Pos.size c.
Proof. induction c; simpl; congruence. Qed.

Lemma digits_le_53 c : Zpos c < 2 ^ 53 -> digits c <= 53.
Proof.
  intros Hc. unfold digits. rewrite digits_size.
  destruct (Z_le_gt_dec (Zpos (Pos.size c)) 53) as [H | H]; [exact H | exfalso].
  pose proof (Pos.size_le c) as Hs.
  apply Pos2Z.pos_le_pos in Hs. rewrite Pos2Z.inj_pow, (Pos2Z.inj_xO c) in Hs.
  assert (2 ^ 54 <= 2 ^ Zpos (Pos.size c)) by (apply Z.pow_le_mono_r; lia).
  assert (2 ^ 54 = 2 * 2 ^ 53) by reflexivity.
  lia.
Qed.

Lemma normalize_scaled z k :
  Z.abs z < 2 ^ 53 ->
  binary_normalize prec emax (z * 2 ^ Z.of_nat k) (- Z.of_nat k) false = of_Z z.
Proof.
  intros Hz. destruct z as [| c | c]; cbn [of_Z].
  - reflexivity.
  - rewrite <- Zpos_shl. cbn [binary_normalize]. apply binary_round_shl, digits_le_53. lia.
  - replace (Zneg c * 2 ^ Z.of_nat k) with (Zneg (shl c k)).
    + cbn [binary_normalize]. apply binary_round_shl, digits_le_53. lia.
    + rewrite <- Pos2Z.opp_pos, Zpos_shl. lia.
Qed.

Lemma int_of_Z z : Z.abs z < 2 ^ 53 -> int z = of_Z z.
Proof.
  intros Hz. unfold int. rewrite <- (@normalize_scaled z 0%nat Hz). f_equal. cbn. lia.
Qed.

Lemma fst_shl_align M e e' :
  e' <= e -> fst (shl_align M e e') = shl M (Z.to_nat (e - e')).
Proof.
  intros He. unfold shl_align. destruct (e' - e) as [| p | p] eqn:E.
  - replace (e - e') with 0 by lia. reflexivity.
  - lia.
  - rewrite Pos_iter_xO. cbn [fst]. f_equal. lia.
Qed.

Lemma of_Z_signed s c : of_Z (signed s c) = normal s c.
Proof. destruct s; reflexivity. Qed.

Lemma aligned_value s c e' :
  digits c <= 53 -> e' <= digits c - 53 ->
  cond_Zopp s (Zpos (fst (shl_align (shl c (Z.to_nat (53 - digits c))) (digits c - 53) e')))
  = signed s c * 2 ^ Z.of_nat (Z.to_nat (- e')).
Proof.
  intros Hd He. pose proof (digits_pos c).
  rewrite fst_shl_align by exact He. rewrite shl_shl, Zpos_shl.
  replace (Z.to_nat (digits c - 53 - e') + Z.to_nat (53 - digits c))%nat
    with (Z.to_nat (- e')) by lia.
  unfold signed. destruct s; cbn [cond_Zopp]; lia.
Qed.

Lemma SFadd_nf sa ca sb cb :
  Zpos ca < 2 ^ 53 -> Zpos cb < 2 ^ 53 -> Z.abs (signed sa ca + signed sb cb) < 2 ^ 53 ->
  SFadd prec emax (normal sa ca) (normal sb cb) = of_Z (signed sa ca + signed sb cb).
Proof.
  intros Ha Hb Hab.
  pose proof (@digits_le_53 ca Ha). pose proof (@digits_le_53 cb Hb).
  pose proof (digits_pos ca). pose proof (digits_pos cb).
  unfold normal at 1 2. cbn [SFadd]. cbv zeta.
  set (ez := Z.min (digits ca - 53) (digits cb - 53)).
  rewrite !aligned_value by lia.
  rewrite <- Z.mul_add_distr_r.
  replace ez with (- Z.of_nat (Z.to_nat (- ez))) at 2 by lia.
  apply normalize_scaled, Hab.
Qed.

Lemma SFsub_nf sa ca sb cb :
  Zpos ca < 2 ^ 53 -> Zpos cb < 2 ^ 53 -> Z.abs (signed sa ca - signed sb cb) < 2 ^ 53 ->
  SFsub prec emax (normal sa ca) (normal sb cb) = of_Z (signed sa ca - signed sb cb).
Proof.
  intros Ha Hb Hab.
  pose proof (@digits_le_53 ca Ha). pose proof (@digits_le_53 cb Hb).
  pose proof (digits_pos ca). pose proof (digits_pos cb).
  unfold normal at 1 2. cbn [SFsub]. cbv zeta.
  set (ez := Z.min (digits ca - 53) (digits cb - 53)).
  rewrite !aligned_value by lia.
  rewrite <- Z.mul_sub_distr_r.
  replace ez with (- Z.of_nat (Z.to_nat (- ez))) at 2 by lia.
  apply normalize_scaled, Hab.
Qed.

(** Addition and subtraction of integer doubles are exact below [2^53]. *)
Lemma SFadd_of_Z a b :
  Z.abs a < 2 ^ 53 -> Z.abs b < 2 ^ 53 -> Z.abs (a + b) < 2 ^ 53 ->
  SFadd prec emax (of_Z a) (of_Z b) = of_Z (a + b).
Proof.
  intros Ha Hb Hab.
  destruct a as [| ca | ca], b as [| cb | cb]; try reflexivity;
    cbn [of_Z];
    first [ apply (@SFadd_nf false ca false cb)
          | apply (@SFadd_nf false ca true cb)
          | apply (@SFadd_nf true ca false cb)
          | apply (@SFadd_nf true ca true cb) ]; cbn [signed cond_Zopp Z.opp]; lia.
Qed.

Lemma SFsub_of_Z a b :
  Z.abs a < 2 ^ 53 -> Z.abs b < 2 ^ 53 -> Z.abs (a - b) < 2 ^ 53 ->
  SFsub prec emax (of_Z a) (of_Z b) = of_Z (a - b).
Proof.
  intros Ha Hb Hab.
  destruct a as [| ca | ca], b as [| cb | cb]; try reflexivity;
    cbn [of_Z];
    first [ apply (@SFsub_nf false ca false cb)
          | apply (@SFsub_nf false ca true cb)
          | apply (@SFsub_nf true ca false cb)
          | apply (@SFsub_nf true ca true cb) ]; cbn [signed cond_Zopp Z.opp]; lia.
Qed.

Lemma max_0_of_Z a : Binary64.max (S754_zero false) (of_Z a) = of_Z (Z.max 0 a).
Proof. destruct a; reflexivity. Qed.

Lemma max_0_opp_of_Z a : Binary64.max (S754_zero false) (SFopp (of_Z a)) = of_Z (Z.max 0 (- a)).
Proof. destruct a; reflexivity. Qed.

Lemma Zsum_cons (f : Z -> Z) z zs : Zsum f (z :: zs) = f z + Zsum f zs.
Proof. reflexivity. Qed.

Lemma magnitude_cons z zs : magnitude (z :: zs) = Z.abs z + magnitude zs.
Proof. reflexivity. Qed.

Lemma Zsum_bound (f : Z -> Z) (zs : list Z) :
  (forall z, Z.abs (f z) <= Z.abs z) -> Z.abs (Zsum f zs) <= magnitude zs.
Proof.
  intros Hf. induction zs as [| z zs IH].
  - cbn. lia.
  - rewrite Zsum_cons, magnitude_cons. specialize (Hf z). lia.
Qed.

Lemma magnitude_nonneg zs : 0 <= magnitude zs.
Proof.
  induction zs as [| z zs IH].
  - cbn. lia.
  - rewrite magnitude_cons. lia.
Qed.

Lemma Zsum_Permutation (f : Z -> Z) (zs zs' : list Z) :
  Permutation zs zs' -> Zsum f zs = Zsum f zs'.
Proof.
  induction 1 as [| z l l' _ IH | y z l | l l' l'' _ IH1 _ IH2].
  - reflexivity.
  - rewrite !Zsum_cons, IH. reflexivity.
  - rewrite !Zsum_cons. lia.
  - congruence.
Qed.

Section IntegerDays.

Context {host : Host}.

Lemma add_of_Z a b :
  Z.abs a < 2 ^ 53 -> Z.abs b < 2 ^ 53 -> Z.abs (a + b) < 2 ^ 53 ->
  (of_Z a + of_Z b)%num = of_Z (a + b).
Proof. apply SFadd_of_Z. Qed.

Lemma sub_of_Z a b :
  Z.abs a < 2 ^ 53 -> Z.abs b < 2 ^ 53 -> Z.abs (a - b) < 2 ^ 53 ->
  (of_Z a - of_Z b)%num = of_Z (a - b).
Proof. apply SFsub_of_Z. Qed.

(** The accumulator loop over integer doubles computes the integer
    sum. *)
Lemma reduce_of_Z (f : Z -> Z) (g : spec_float -> spec_float) (zs : list Z) (acc : Z) :
  (forall z, Z.abs (f z) <= Z.abs z) ->
  (forall z, g (of_Z z) = of_Z (f z)) ->
  Z.abs acc + magnitude zs < 2 ^ 53 ->
  fold_left (fun a v => (a + g v)%num) (List.map of_Z zs) (of_Z acc)
  = of_Z (acc + Zsum f zs).
Proof.
  intros Hf Hg. revert acc. induction zs as [| z zs IH]; intros acc Hb.
  - cbn. f_equal. lia.
  - cbn [List.map fold_left]. rewrite Zsum_cons. rewrite magnitude_cons in Hb.
    pose proof (magnitude_nonneg zs). specialize (Hf z) as Hfz.
    rewrite Hg, add_of_Z by lia.
    rewrite IH by lia. f_equal. lia.
Qed.

Lemma map_int_of_Z zs : magnitude zs < 2 ^ 53 -> List.map int zs = List.map of_Z zs.
Proof.
  induction zs as [| z zs IH]; intros Hb.
  - reflexivity.
  - rewrite magnitude_cons in Hb. pose proof (magnitude_nonneg zs).
    cbn [List.map]. rewrite IH, int_of_Z by lia. reflexivity.
Qed.

Lemma Zsum_pos_minus_neg zs :
  Zsum (Z.max 0) zs - Zsum (fun z => Z.max 0 (- z)) zs = Zsum (fun z => z) zs.
Proof.
  induction zs as [| z zs IH].
  - reflexivity.
  - rewrite !Zsum_cons. cbv beta.
    set (P := Zsum (Z.max 0) zs) in *.
    set (N := Zsum (fun z => Z.max 0 (- z)) zs) in *.
    set (T := Zsum (fun z => z) zs) in *. lia.
Qed.

(** A day of integer values: both sums, their difference and the sum of
    the values are the doubles of the integer sums. *)
Lemma integer_day (zs : list Z) (config : ScoreConfig spec_float) :
  magnitude zs < 2 ^ 53 ->
  let r := scoreDayFromValues (List.map int zs) config in
  positiveSum r = int (Zsum (Z.max 0) zs) /\
  negativeSum r = int (Zsum (fun z => Z.max 0 (- z)) zs) /\
  (positiveSum r - negativeSum r)%num = int (Zsum (fun z => z) zs) /\
  Sigma (fun v => v) (List.map int zs) (length zs) = int (Zsum (fun z => z) zs).
Proof.
  intros Hb r. subst r.
  assert (Hmax : forall z, Z.abs (Z.max 0 z) <= Z.abs z) by lia.
  assert (Hmin : forall z, Z.abs (Z.max 0 (- z)) <= Z.abs z) by lia.
  assert (Hid : forall z : Z, Z.abs z <= Z.abs z) by lia.
  pose proof (Zsum_bound (Z.max 0) zs Hmax) as Bp.
  pose proof (Zsum_bound (fun z => Z.max 0 (- z)) zs Hmin) as Bn.
  pose proof (Zsum_bound (fun z => z) zs Hid) as Bs.
  pose proof (Zsum_pos_minus_neg zs) as Hsum.
  assert (Hp : positiveSum (scoreDayFromValues (List.map int zs) config)
               = of_Z (Zsum (Z.max 0) zs)).
  { unfold scoreDayFromValues. cbn [positiveSum]. rewrite map_int_of_Z by exact Hb.
    change (lit 0%Q) with (of_Z 0).
    rewrite (@reduce_of_Z (Z.max 0) (fun v => Math_max (of_Z 0) v) zs 0 Hmax); [reflexivity | | lia].
    intros z. apply max_0_of_Z. }
  assert (Hn : negativeSum (scoreDayFromValues (List.map int zs) config)
               = of_Z (Zsum (fun z => Z.max 0 (- z)) zs)).
  { unfold scoreDayFromValues. cbn [negativeSum]. rewrite map_int_of_Z by exact Hb.
    change (lit 0%Q) with (of_Z 0).
    rewrite (@reduce_of_Z (fun z => Z.max 0 (- z)) (fun v => Math_max (of_Z 0) (- v)%num) zs 0 Hmin);
      [reflexivity | | lia].
    intros z. apply max_0_opp_of_Z. }
  assert (HT : Sigma (fun v => v) (List.map int zs) (length zs) = of_Z (Zsum (fun z => z) zs)).
  { rewrite <- (length_map int zs), <- (reduce_Sigma (fun v : spec_float => v)).
    rewrite map_int_of_Z by exact Hb. change (lit 0%Q) with (of_Z 0).
    rewrite (@reduce_of_Z (fun z => z) (fun v => v) zs 0 Hid); [reflexivity | reflexivity | lia]. }
  rewrite Hp, Hn, HT.
  set (P := Zsum (Z.max 0) zs) in *.
  set (N := Zsum (fun z => Z.max 0 (- z)) zs) in *.
  set (T := Zsum (fun z => z) zs) in *.
  rewrite (@int_of_Z P), (@int_of_Z N), (@int_of_Z T) by lia.
  repeat split.
  rewrite sub_of_Z by lia. f_equal. exact Hsum.
Qed.

(** The whole result is a function of the two sums. *)
Lemma integer_day_Permutation (zs zs' : list Z) (config : ScoreConfig spec_float) :
  magnitude zs < 2 ^ 53 -> Permutation zs zs' ->
  scoreDayFromValues (List.map int zs') config = scoreDayFromValues (List.map int zs) config.
Proof.
  intros Hb Hperm.
  assert (Hb' : magnitude zs' < 2 ^ 53).
  { unfold magnitude. rewrite <- (Zsum_Permutation Z.abs Hperm). exact Hb. }
  destruct (integer_day zs config Hb) as (Hp & Hn & _).
  destruct (integer_day zs' config Hb') as (Hp' & Hn' & _).
  rewrite <- (Zsum_Permutation (Z.max 0) Hperm) in Hp'.
  rewrite <- (Zsum_Permutation (fun z => Z.max 0 (- z)) Hperm) in Hn'.
  unfold scoreDayFromValues in *. cbn [positiveSum negativeSum] in *.
  rewrite Hp, Hn, Hp', Hn'. reflexivity.
Qed.

End IntegerDays.

End IntegerDoubles.

(** ** Where [NaN] comes from

    A rounded result is never [NaN]: the operations return [NaN] only from
    a [NaN] operand, from [Infinity - Infinity], [0 * Infinity], [0 / 0]
    and [Infinity / Infinity]. *)
Module NotNaN.

Import Binary64.
Local Open Scope Z_scope.

Lemma shr_1_nonneg mrs : 0 <= shr_m mrs -> 0 <= shr_m (shr_1 mrs).
Proof.
  destruct mrs as [m r s]. cbn [shr_m]. intros Hm.
  destruct m as [| [p | p |] | p]; cbn; lia.
Qed.

Lemma shr_nonneg mrs e n : 0 <= shr_m mrs -> 0 <= shr_m (fst (shr mrs e n)).
Proof.
  intros Hm. destruct n as [| p | p]; cbn [shr fst]; try exact Hm.
  rewrite IntegerDoubles.iter_pos_Nat.
  apply Nat.iter_invariant; [intros; now apply shr_1_nonneg | exact Hm].
Qed.

Lemma shr_fexp_nonneg m e l : 0 <= m -> 0 <= shr_m (fst (shr_fexp prec emax m e l)).
Proof.
  intros Hm. unfold shr_fexp. apply shr_nonneg.
  destruct l as [| []]; exact Hm.
Qed.

Lemma round_nearest_even_nonneg m l : 0 <= m -> 0 <= round_nearest_even m l.
Proof.
  intros Hm. destruct l as [| []]; cbn [round_nearest_even]; try lia.
  destruct (Z.even m); lia.
Qed.

Lemma binary_round_aux_not_NaN s m e l :
  0 <= m -> isNaN (binary_round_aux prec emax s m e l) = false.
Proof.
  intros Hm. unfold binary_round_aux.
  pose proof (shr_fexp_nonneg e l Hm) as H1.
  destruct (shr_fexp prec emax m e l) as [mrs' e']. cbn [fst] in H1.
  pose proof (@shr_fexp_nonneg (round_nearest_even (shr_m mrs') (loc_of_shr_record mrs')) e' loc_Exact
                (round_nearest_even_nonneg _ H1)) as H2.
  destruct (shr_fexp prec emax _ e' loc_Exact) as [mrs'' e'']. cbn [fst] in H2.
  destruct (shr_m mrs'') as [| p | p]; [reflexivity | | lia].
  destruct (e'' <=? emax - prec); reflexivity.
Qed.

Lemma binary_normalize_not_NaN m e sz : isNaN (binary_normalize prec emax m e sz) = false.
Proof.
  destruct m as [| p | p]; cbn [binary_normalize]; [reflexivity | |];
    unfold binary_round; destruct (shl_align _ _ _) as [mz ez];
    apply binary_round_aux_not_NaN; lia.
Qed.

Lemma SFmul_not_NaN x y :
  isNaN x = false -> isNaN y = false ->
  isProper x = true \/ isProper y = true \/ (isFinite x = true /\ isFinite y = true) ->
  isNaN (SFmul prec emax x y) = false.
Proof.
  intros Hx Hy H.
  destruct x as [sx | sx | | sx mx ex], y as [sy | sy | | sy my ey];
    try discriminate; cbn [SFmul]; try reflexivity;
    try (apply binary_round_aux_not_NaN; lia);
    cbn in H; intuition discriminate.
Qed.

Lemma SFadd_not_NaN x y :
  isFinite x = true -> isNaN y = false -> isNaN (SFadd prec emax x y) = false.
Proof.
  intros Hx Hy.
  destruct x as [sx | sx | | sx mx ex], y as [sy | sy | | sy my ey];
    try discriminate; cbn [SFadd]; try reflexivity.
  - destruct sx, sy; reflexivity.
  - apply binary_normalize_not_NaN.
Qed.

Lemma SFsub_not_NaN x y :
  isFinite x = true -> isNaN y = false -> isNaN (SFsub prec emax x y) = false.
Proof.
  intros Hx Hy.
  destruct x as [sx | sx | | sx mx ex], y as [sy | sy | | sy my ey];
    try discriminate; cbn [SFsub]; try reflexivity.
  - destruct sx, sy; reflexivity.
  - apply binary_normalize_not_NaN.
Qed.

Lemma SFdiv_core_nonneg m1 e1 m2 e2 :
  0 <= m1 -> 0 < m2 ->
  0 <= fst (fst (SFdiv_core_binary prec emax m1 e1 m2 e2)).
Proof.
  intros H1 H2. unfold SFdiv_core_binary.
  set (s := _ - _ - _).
  set (m' := match s with Z0 => m1 | Zpos _ => Z.shiftl m1 s | Zneg _ => 0 end).
  assert (Hm' : 0 <= m').
  { unfold m'. destruct s; try lia. apply Z.shiftl_nonneg. exact H1. }
  pose proof (Z.div_pos m' m2 Hm' H2) as Hq. unfold Z.div in Hq.
  destruct (Z.div_eucl m' m2) as [q r]. exact Hq.
Qed.

Lemma SFdiv_not_NaN x y :
  isNaN x = false -> isNaN y = false ->
  isProper x = true \/ isProper y = true ->
  isNaN (SFdiv prec emax x y) = false.
Proof.
  intros Hx Hy H.
  destruct x as [sx | sx | | sx mx ex], y as [sy | sy | | sy my ey];
    try discriminate; cbn [SFdiv]; try reflexivity;
    try (cbn in H; intuition discriminate).
  pose proof (@SFdiv_core_nonneg (Zpos mx) ex (Zpos my) ey) as Hq.
  destruct (SFdiv_core_binary prec emax (Zpos mx) ex (Zpos my) ey) as [[mz ez] lz].
  apply binary_round_aux_not_NaN. apply Hq; lia.
Qed.

Section Score.

Context {host : Host}.

Lemma z_not_NaN (p n l s : spec_float) :
  isFinite p = true -> isFinite n = true -> isFinite l = true -> isProper s = true ->
  isNaN ((p - l * n) / s)%num = false.
Proof.
  intros Hp Hn Hl Hs. cbn [add sub mul div js].
  assert (Hm : isNaN (SFmul prec emax l n) = false).
  { apply SFmul_not_NaN; [destruct l; easy | destruct n; easy | auto]. }
  apply SFdiv_not_NaN; [| destruct s; easy | auto].
  apply SFsub_not_NaN; assumption.
Qed.

Lemma clamped_score_not_NaN (z : spec_float) :
  isNaN z = false -> isNaN (approx (- z)%num) = false ->
  isNaN (lit 100 * sigmoid z)%num = false.
Proof.
  intros Hz Ha. unfold sigmoid.
  assert (He : isNaN (Math_exp (- z)%num) = false).
  { cbn [Math_exp neg js] in *. destruct z as [s | [|] | | s m e]; try reflexivity; try discriminate.
    exact Ha. }
  cbn [add sub mul div js] in *.
  apply SFmul_not_NaN; [reflexivity | | left; reflexivity].
  apply SFdiv_not_NaN; [reflexivity | | left; reflexivity].
  apply SFadd_not_NaN; [reflexivity | exact He].
Qed.

(** The raw score is a number between the bounds when neither sum has
    overflowed, the configuration is finite with a non-zero [scale], and
    the host returns a number at [-z]. *)
Lemma rawScore_in_range (values : list spec_float) (config : ScoreConfig spec_float) :
  let r := scoreDayFromValues values config in
  let z := ((positiveSum r - lambda config * negativeSum r) / scale config)%num in
  isFinite (positiveSum r) = true -> isFinite (negativeSum r) = true ->
  isFinite (lambda config) = true -> isProper (scale config) = true ->
  isNaN (approx (- z)%num) = false ->
  leb (lit 0) (rawScore r) = true /\ leb (rawScore r) (lit 100) = true.
Proof.
  intros r z Hp Hn Hl Hs Ha.
  pose proof (z_not_NaN _ _ _ _ Hp Hn Hl Hs) as Hz. fold z in Hz.
  pose proof (clamped_score_not_NaN z Hz Ha) as Hc.
  destruct (OnBinary64.clamp_default_range (lit 100 * sigmoid z)%num) as [[H _] | [_ H]].
  - rewrite H in Hc. discriminate.
  - exact H.
Qed.

End Score.

End NotNaN.

(** The same arithmetic on the kernel's machine floats: the literals and
    the runs used below agree with it. *)
Module KernelFloats.

Import PrimFloat FloatOps.

#[warnings="-inexact-float"]
Example literals_agree :
  List.map Binary64.literal [1.8; 0.3; 0.1; 0.2; 1e308; 6; 100; 68]%Q
  = List.map Prim2SF [1.8; 0.3; 0.1; 0.2; 1e308; 6; 100; 68]%float.
Proof. vm_compute. reflexivity. Qed.

#[warnings="-inexact-float"]
Example runs_agree (host : Binary64.Host) :
  positiveSum (scoreDayFromValues (List.map Binary64.literal [0.1; 0.2; 0.3]%Q) DEFAULT_CONFIG)
  = Prim2SF (0 + 0.1 + 0.2 + 0.3)%float /\
  positiveSum (scoreDayFromValues (List.map Binary64.literal [0.3; 0.2; 0.1]%Q) DEFAULT_CONFIG)
  = Prim2SF (0 + 0.3 + 0.2 + 0.1)%float /\
  positiveSum (scoreDayFromValues (List.map Binary64.literal [1e308; 1e308]%Q) DEFAULT_CONFIG)
  = Prim2SF (0 + 1e308 + 1e308)%float /\
  (0 + 1e308 + 1e308)%float = infinity /\
  is_nan ((infinity - 1.8 * infinity) / 6)%float = true /\
  smoothed_from DEFAULT_CONFIG [lit 80; lit 40] None
  = List.map Prim2SF [80; 0.3 * 40 + (1 - 0.3) * 80]%float.
Proof. vm_compute. repeat split. Qed.

(** With the sample host, the day 4, 3, -3 scores 56.62... in binary64. *)
Example sample_host_day :
  let host : Binary64.Host := Binary64.sample_approx in
  let r := rawScore (scoreDayFromValues [lit 4; lit 3; (- lit 3)%num] DEFAULT_CONFIG) in
  Binary64.ltb (lit 56.62) r = true /\ Binary64.ltb r (lit 56.63) = true.
Proof. vm_compute. split; reflexivity. Qed.

End KernelFloats.


(** ** The day aggregator *)

Section DayAggregator.

Context {host : Binary64.Host}.

(** C1. At every carrier and for every list of values and configuration,
    [scoreDayFromValues] returns as [positiveSum] the sum of [max(0, v)],
    as [negativeSum] the sum of [max(0, -v)], and as [rawScore] the clamped
    [100 * sigmoid((positiveSum - lambda * negativeSum) / scale)], where
    over the reals [sigmoid z = 1 / (1 + e^(-z))]. For the values 4, 3, -3
    and the default configuration, binary64 gives the sums 7 and 3 exactly
    and a [z] between 0.2666 and 0.2667; over the reals the sums are 7 and
    3 and the raw score is within 0.05 of 56.6. *)
Theorem scoreDayFromValues_sums_and_score :
  (forall (num : Type) (NUM : Number num) (values : list num) (config : ScoreConfig num),
      let r := scoreDayFromValues values config in
      positiveSum r = Sigma (fun v => Math_max (lit 0) v) values (length values) /\
      negativeSum r = Sigma (fun v => Math_max (lit 0) (- v)%num) values (length values) /\
      rawScore r
      = clamp (lit 100 * sigmoid ((positiveSum r - lambda config * negativeSum r)
                                  / scale config))%num
              (lit 0) (lit 100)) /\
  (forall z : R, sigmoid z = (1 / (1 + exp (- z)))%R) /\
  (let r : DayValues spec_float :=
     scoreDayFromValues [lit 4; lit 3; (- lit 3)%num] DEFAULT_CONFIG in
   let z := ((positiveSum r - lambda DEFAULT_CONFIG * negativeSum r)
             / scale DEFAULT_CONFIG)%num in
   positiveSum r = lit 7 /\ negativeSum r = lit 3 /\
   Binary64.ltb (lit 0.2666) z = true /\ Binary64.ltb z (lit 0.2667) = true) /\
  (let r := scoreDayFromValues [4; 3; -3]%R DEFAULT_CONFIG in
   positiveSum r = 7 /\ negativeSum r = 3 /\
   56.6 - 0.05 < rawScore r < 56.6 + 0.05)%R.
Proof.
  split; [| split; [| split]].
  - intros num NUM values config r. subst r.
    unfold scoreDayFromValues. cbn [positiveSum negativeSum rawScore].
    rewrite <- !reduce_Sigma. repeat split.
  - intros z. unfold sigmoid. rewrite Exact.lit_1. reflexivity.
  - vm_compute. repeat split.
  - cbv zeta. rewrite Exact.scoreDayFromValues_R.
    cbn [positiveSum negativeSum rawScore].
    assert (Hp : total pos_part [4; 3; -3]%R = 7%R).
    { rewrite !Exact.total_cons, Exact.total_nil, !Exact.pos_part_Rmax.
      rewrite !Rmax_right, Rmax_left by lra. lra. }
    assert (Hn : total neg_part [4; 3; -3]%R = 3%R).
    { rewrite !Exact.total_cons, Exact.total_nil, !Exact.neg_part_Rmax.
      rewrite !Rmax_left, Rmax_right by lra. lra. }
    rewrite Hp, Hn. split; [reflexivity | split; [reflexivity |]].
    cbn [lambda scale DEFAULT_CONFIG]. rewrite !Exact.lit_R. cbn [Qnum Qden].
    replace ((7 - 18 / 10 * 3) / (6 / 1))%R with (4 / 15)%R by lra.
    rewrite Exact.score_of_R.
    pose proof Exact.exp_minus_4_15 as [Hl Hu].
    set (e := exp (- (4 / 15))) in *.
    assert (Hs : (56.55 < 100 * (1 / (1 + e)) < 56.65)%R).
    { assert (He : (0 < 1 + e)%R) by lra.
      replace (100 * (1 / (1 + e)))%R with (100 / (1 + e))%R by (field; lra).
      split.
      - apply Rmult_lt_reg_r with (1 + e)%R; [exact He |].
        unfold Rdiv. rewrite Rmult_assoc, Rinv_l by lra. lra.
      - apply Rmult_lt_reg_r with (1 + e)%R; [exact He |].
        unfold Rdiv. rewrite Rmult_assoc, Rinv_l by lra. lra. }
    rewrite Rmin_right, Rmax_right by lra. lra.
Qed.

(** C2, amended. Computed in binary64, the raw score of any list of
    values under any configuration is [NaN] or lies in [0, 100]. It lies
    in [0, 100] whenever neither sum has overflowed, [lambda] is finite,
    [scale] is finite and not zero and the host's [Math.exp] returns a
    number at [-z]; the sums do not overflow for integer values whose
    magnitudes sum to less than [2^53]. For the empty list, a finite
    [lambda] and a positive [scale] the result is exactly
    [positiveSum = 0], [negativeSum = 0], [rawScore = 50]. In exact real
    arithmetic the raw score always lies in [0, 100], and is 50 for the
    empty list. *)
Theorem rawScore_in_range_or_NaN :
  (forall (values : list spec_float) (config : ScoreConfig spec_float),
      let r := rawScore (scoreDayFromValues values config) in
      r = Binary64.NaN \/
      (Binary64.leb (lit 0) r = true /\ Binary64.leb r (lit 100) = true)) /\
  (forall (values : list spec_float) (config : ScoreConfig spec_float),
      let r := scoreDayFromValues values config in
      let z := ((positiveSum r - lambda config * negativeSum r) / scale config)%num in
      Binary64.isFinite (positiveSum r) = true ->
      Binary64.isFinite (negativeSum r) = true ->
      Binary64.isFinite (lambda config) = true ->
      Binary64.isProper (scale config) = true ->
      Binary64.isNaN (Binary64.approx (- z)%num) = false ->
      Binary64.leb (lit 0) (rawScore r) = true /\
      Binary64.leb (rawScore r) (lit 100) = true) /\
  (forall (zs : list Z) (config : ScoreConfig spec_float),
      (magnitude zs < 2 ^ 53)%Z ->
      let r := scoreDayFromValues (List.map Binary64.int zs) config in
      Binary64.isFinite (positiveSum r) = true /\
      Binary64.isFinite (negativeSum r) = true) /\
  (forall config : ScoreConfig spec_float,
      Binary64.isFinite (lambda config) = true ->
      Binary64.ltb (lit 0) (scale config) = true ->
      scoreDayFromValues [] config
      = {| positiveSum := lit 0; negativeSum := lit 0; rawScore := lit 50 |}) /\
  (forall (values : list R) (config : ScoreConfig R),
      (0 <= rawScore (scoreDayFromValues values config) <= 100)%R) /\
  (forall config : ScoreConfig R,
      (0 < scale config)%R ->
      scoreDayFromValues [] config
      = {| positiveSum := 0%R; negativeSum := 0%R; rawScore := 50%R |}).
Proof.
  split; [| split; [| split; [| split; [| split]]]].
  - intros values config r. subst r.
    unfold scoreDayFromValues. cbn [rawScore].
    destruct (OnBinary64.clamp_default_range
                (lit 100 * sigmoid
                   ((fold_left (fun acc v => acc + Math_max (lit 0) v) values (lit 0)
                     - lambda config
                       * fold_left (fun acc v => acc + Math_max (lit 0) (- v)) values (lit 0))
                    / scale config))%num) as [[_ H] | [_ H]].
    + left. exact H.
    + right. exact H.
  - apply NotNaN.rawScore_in_range.
  - intros zs config Hb r. subst r.
    destruct (IntegerDoubles.integer_day zs config Hb) as (Hp & Hn & _).
    assert (Hf : forall f, (forall z, (Z.abs (f z) <= Z.abs z)%Z) ->
                           Binary64.isFinite (Binary64.int (Zsum f zs)) = true).
    { intros f Hf. pose proof (IntegerDoubles.Zsum_bound f zs Hf).
      rewrite IntegerDoubles.int_of_Z by lia. destruct (Zsum f zs); reflexivity. }
    rewrite Hp, Hn. split; apply Hf; intros z; lia.
  - apply OnBinary64.empty_day.
  - intros values config. rewrite Exact.scoreDayFromValues_R. cbn [rawScore].
    apply Exact.score_of_range.
  - intros config Hs. rewrite Exact.scoreDayFromValues_R, !Exact.total_nil.
    replace ((0 - lambda config * 0) / scale config)%R with 0%R by (field; lra).
    rewrite Exact.score_of_0. reflexivity.
Qed.


(** C8, amended. No configuration is rejected: [scoreDayFromValues]
    returns a result for [scale = 0] as for any other, and in binary64 its
    raw score is then [NaN], 0 or 100 whatever the values are, and [NaN]
    for a day without values. [emaScore] passes a [NaN] on, from today's
    raw score and from yesterday's smoothed score alike. *)
Theorem zero_scale_propagates (values : list spec_float) (l a : spec_float) :
  let config := {| lambda := l; scale := lit 0; emaAlpha := a |} in
  let r := rawScore (scoreDayFromValues values config) in
  (r = Binary64.NaN \/ r = lit 0 \/ r = lit 100) /\
  rawScore (scoreDayFromValues [] config) = Binary64.NaN /\
  (forall (prev : option spec_float) (cfg : ScoreConfig spec_float),
      emaScore Binary64.NaN prev cfg = Binary64.NaN) /\
  (forall (raw : spec_float) (cfg : ScoreConfig spec_float),
      emaScore raw (Some Binary64.NaN) cfg = Binary64.NaN).
Proof.
  cbv zeta. split; [| split; [| split]].
  - unfold scoreDayFromValues. cbn [rawScore lambda scale].
    match goal with
    | |- context [div ?x (lit 0)] => pose proof (OnBinary64.zero_scale_score x) as H
    end.
    cbv zeta in H.
    match type of H with
    | match ?x with _ => _ end => destruct x as [s | [|] | | [|] m e]
    end; auto.
  - destruct l as [[|] | [|] | | [|] m e]; reflexivity.
  - intros [prev |] cfg; cbn [emaScore]; [| reflexivity].
    destruct (emaAlpha cfg) as [s | s | | s m e]; reflexivity.
  - intros raw cfg. cbn [emaScore].
    set (x := (emaAlpha cfg * raw)%num).
    assert (Hy : ((lit 1 - emaAlpha cfg) * Binary64.NaN)%num = Binary64.NaN).
    { destruct (lit 1 - emaAlpha cfg)%num as [s | s | | s m e]; reflexivity. }
    rewrite Hy. destruct x as [s | s | | s m e]; reflexivity.
Qed.

(** C10, amended. In exact real arithmetic, [positiveSum - negativeSum]
    is the sum of the values, and the whole result of [scoreDayFromValues]
    is the same for every permutation of the values. In binary64 both hold
    for every list of integer values whose magnitudes sum to less than
    [2^53]: the two sums, their difference and the sum of the values are
    then the doubles of the integer sums. *)
Theorem sums_exact_arithmetic :
  (forall (values values' : list R) (config : ScoreConfig R),
      Permutation values values' ->
      let r := scoreDayFromValues values config in
      (positiveSum r - negativeSum r)%R = Sigma (fun v => v) values (length values) /\
      scoreDayFromValues values' config = r) /\
  (forall (zs zs' : list Z) (config : ScoreConfig spec_float),
      (magnitude zs < 2 ^ 53)%Z ->
      Permutation zs zs' ->
      let values := List.map Binary64.int zs in
      let r := scoreDayFromValues values config in
      positiveSum r = Binary64.int (Zsum (Z.max 0) zs) /\
      negativeSum r = Binary64.int (Zsum (fun z => Z.max 0 (- z)) zs) /\
      (positiveSum r - negativeSum r)%num = Sigma (fun v => v) values (length values) /\
      Sigma (fun v => v) values (length values) = Binary64.int (Zsum (fun z => z) zs) /\
      scoreDayFromValues (List.map Binary64.int zs') config = r).
Proof.
  split.
  - intros values values' config Hp r. subst r. rewrite !Exact.scoreDayFromValues_R.
    cbn [positiveSum negativeSum]. split.
    + rewrite Exact.total_pos_minus_neg. unfold total.
      exact (reduce_Sigma (fun v : R => v) values).
    + rewrite (Exact.total_Permutation pos_part Hp), (Exact.total_Permutation neg_part Hp).
      reflexivity.
  - intros zs zs' config Hb Hp values r. subst values r.
    destruct (IntegerDoubles.integer_day zs config Hb) as (H1 & H2 & H3 & H4).
    rewrite length_map. repeat split; try assumption.
    + rewrite H3, H4. reflexivity.
    + apply IntegerDoubles.integer_day_Permutation; assumption.
Qed.

End DayAggregator.

(** C2 as stated fails in binary64: four finite values whose two sums
    overflow make [z] the difference of two infinities, and the raw score
    [NaN], under the default configuration. *)
Lemma rawScore_NaN_on_overflow :
  let values := List.map Binary64.literal [1e308; 1e308; -1e308; -1e308]%Q in
  forallb Binary64.isFinite values = true /\
  forall host : Binary64.Host,
    Binary64.ltb (lit 0) (scale DEFAULT_CONFIG) = true /\
    positiveSum (scoreDayFromValues values DEFAULT_CONFIG) = Binary64.Infinity /\
    negativeSum (scoreDayFromValues values DEFAULT_CONFIG) = Binary64.Infinity /\
    rawScore (scoreDayFromValues values DEFAULT_CONFIG) = Binary64.NaN /\
    Binary64.leb (lit 0) (rawScore (scoreDayFromValues values DEFAULT_CONFIG)) = false.
Proof.
  cbv zeta. split.
  - vm_compute. reflexivity.
  - intros host. vm_compute. repeat split.
Qed.

(** C2, amended, at the default configuration: the day 4, 3, -3 and the
    empty day with the sample host in binary64, and the empty day over
    the reals. *)
Lemma rawScore_in_range_or_NaN_witness :
  (let host : Binary64.Host := Binary64.sample_approx in
   let r := rawScore (scoreDayFromValues [lit 4; lit 3; (- lit 3)%num] DEFAULT_CONFIG) in
   Binary64.leb (lit 0) r = true /\ Binary64.leb r (lit 100) = true) /\
  (let host : Binary64.Host := Binary64.sample_approx in
   scoreDayFromValues (num := spec_float) [] DEFAULT_CONFIG
   = {| positiveSum := lit 0; negativeSum := lit 0; rawScore := lit 50 |}) /\
  scoreDayFromValues [] DEFAULT_CONFIG
  = {| positiveSum := 0%R; negativeSum := 0%R; rawScore := 50%R |}.
Proof.
  split; [| split].
  - apply (proj1 (proj2 (@rawScore_in_range_or_NaN Binary64.sample_approx)));
      vm_compute; reflexivity.
  - apply (proj1 (proj2 (proj2 (proj2 (@rawScore_in_range_or_NaN Binary64.sample_approx)))));
      reflexivity.
  - apply (proj2 (proj2 (proj2 (proj2 (proj2
             (@rawScore_in_range_or_NaN Binary64.sample_approx)))))).
    cbn [scale DEFAULT_CONFIG]. rewrite Exact.lit_R. cbn [Qnum Qden]. lra.
Defined.



(** C8 as stated fails: a configuration with [scale = 0] is built and
    used like any other. In binary64 the day without values then scores
    [NaN], a day with one positive value 100 and one with one negative
    value 0, and the [NaN] stays in the smoothed scores of the days
    after it. *)
Lemma zero_scale_not_rejected :
  Binary64.literal 0 = S754_zero false /\
  forall host : Binary64.Host,
    let config := {| lambda := lit 1.8; scale := lit 0; emaAlpha := lit 0.3 |} in
    rawScore (scoreDayFromValues [] config) = Binary64.NaN /\
    rawScore (scoreDayFromValues [lit 4] config) = lit 100 /\
    rawScore (scoreDayFromValues [(- lit 3)%num] config) = lit 0 /\
    smoothed_from config [rawScore (scoreDayFromValues [] config); lit 80] None
    = [Binary64.NaN; Binary64.NaN].
Proof.
  split.
  - reflexivity.
  - intros host. vm_compute. repeat split.
Qed.

(** C10 as stated fails in binary64, where addition rounds: the sums of
    0.1, 0.2, 0.3 and of 0.3, 0.2, 0.1 differ in the last place, and for
    0.1, -0.3, 0.2 the difference [positiveSum - negativeSum] is twice the
    sum of the values. *)
Lemma sums_depend_on_order_binary64 :
  let values := List.map Binary64.literal [0.1; 0.2; 0.3]%Q in
  let values' := List.map Binary64.literal [0.3; 0.2; 0.1]%Q in
  let mixed := List.map Binary64.literal [0.1; -0.3; 0.2]%Q in
  Permutation values values' /\
  forall host : Binary64.Host,
    positiveSum (scoreDayFromValues values DEFAULT_CONFIG)
    <> positiveSum (scoreDayFromValues values' DEFAULT_CONFIG) /\
    (positiveSum (scoreDayFromValues mixed DEFAULT_CONFIG)
     - negativeSum (scoreDayFromValues mixed DEFAULT_CONFIG))%num
    <> Sigma (fun v => v) mixed (length mixed) /\
    (positiveSum (scoreDayFromValues mixed DEFAULT_CONFIG)
     - negativeSum (scoreDayFromValues mixed DEFAULT_CONFIG))%num
    = (lit 2 * Sigma (fun v => v) mixed (length mixed))%num.
Proof.
  cbv zeta. split.
  - cbn [List.map].
    apply Permutation_trans with
      (Binary64.literal 0.2 :: Binary64.literal 0.3 :: [Binary64.literal 0.1]).
    + apply (Permutation_cons_append [Binary64.literal 0.2; Binary64.literal 0.3]).
    + apply perm_trans with
        (Binary64.literal 0.3 :: Binary64.literal 0.2 :: [Binary64.literal 0.1]);
        [apply perm_swap | apply Permutation_refl].
  - intros host. vm_compute. repeat split; discriminate.
Qed.

(** C10, amended, at the values 4, 3, -3 and their permutation 3, 4,
    -3: over the reals, and in binary64 with the sample host. *)
Lemma sums_exact_arithmetic_witness :
  (let r := scoreDayFromValues [4; 3; -3]%R DEFAULT_CONFIG in
   (positiveSum r - negativeSum r)%R = Sigma (fun v => v) [4; 3; -3]%R 3 /\
   scoreDayFromValues [3; 4; -3]%R DEFAULT_CONFIG = r) /\
  (let host : Binary64.Host := Binary64.sample_approx in
   let r := scoreDayFromValues (List.map Binary64.int [4; 3; -3]%Z) DEFAULT_CONFIG in
   positiveSum r = Binary64.int 7 /\
   negativeSum r = Binary64.int 3 /\
   scoreDayFromValues (List.map Binary64.int [3; 4; -3]%Z) DEFAULT_CONFIG = r).
Proof.
  split.
  - apply (proj1 (@sums_exact_arithmetic Binary64.sample_approx)
             [4; 3; -3]%R [3; 4; -3]%R DEFAULT_CONFIG).
    apply perm_swap.
  - cbv zeta.
    destruct (proj2 (@sums_exact_arithmetic Binary64.sample_approx)
                [4; 3; -3]%Z [3; 4; -3]%Z
                (@DEFAULT_CONFIG spec_float (@Binary64.js Binary64.sample_approx)))
      as (Hp & Hn & _ & _ & Hperm).
    + vm_compute. reflexivity.
    + apply perm_swap.
    + repeat split; assumption.
Defined.

(** ** The trend smoother *)

Section TrendSmoother.

Context {host : Binary64.Host}.

(** C5. With no previous smoothed value, [emaScore] returns the clamped
    raw value, at every carrier and for every configuration; over the
    reals that is [max(0, min(100, r))]. *)
Theorem emaScore_seed :
  (forall (num : Type) (NUM : Number num) (r : num) (config : ScoreConfig num),
      emaScore r None config = clamp r (lit 0) (lit 100)) /\
  (forall (r : R) (config : ScoreConfig R),
      emaScore r None config = Rmax 0 (Rmin 100 r)).
Proof.
  split.
  - intros num NUM r config. reflexivity.
  - intros r config. cbn [emaScore]. unfold clamp_default, clamp.
    rewrite Exact.lit_0, Exact.lit_100. reflexivity.
Qed.

(** C4. Calling [emaScore] once per day, oldest day first, with no
    previous value for the first day and the previous call's result
    thereafter, yields on day [t] the value [S_t] of the recurrence
    [S_0 = clamp(r_0)], [S_t = clamp(alpha * r_t + (1 - alpha) * S_(t-1))],
    at every carrier and for every configuration; the report page smooths
    the raw scores of its days in that way. For the raw scores 80 and 40
    and [alpha = 0.3] the smoothed scores are 80 and 68, in binary64 and
    over the reals. *)
Theorem emaScore_in_order_is_recurrence :
  (forall (num : Type) (NUM : Number num) (config : ScoreConfig num)
          (raws : list num) (d : num),
      smoothed_from config raws None
      = List.map (ema_recurrence config (fun t => nth t raws d)) (seq 0 (length raws))) /\
  (forall (num : Type) (NUM : Number num)
          (unicode_toLowerCase toLocalDateKey : jsstring -> jsstring)
          (entries : list (Entry num)) (keys : list jsstring),
      let days := fst (ReportPage_days unicode_toLowerCase toLocalDateKey entries keys) in
      List.map (@smoothedScore num) days
      = smoothed_from DEFAULT_CONFIG (List.map (@d_rawScore num) days) None) /\
  (let day2 : spec_float := (lit 0.3 * lit 40 + (lit 1 - lit 0.3) * lit 80)%num in
   emaAlpha (DEFAULT_CONFIG (num := spec_float)) = lit 0.3 /\ day2 = lit 68 /\
   smoothed_from DEFAULT_CONFIG [lit 80; lit 40] None = [lit 80; day2]) /\
  (emaAlpha DEFAULT_CONFIG = 0.3 /\
   smoothed_from DEFAULT_CONFIG [80; 40] None = [80; 0.3 * 40 + 0.7 * 80] /\
   0.3 * 40 + 0.7 * 80 = 68)%R.
Proof.
  split; [| split; [| split]].
  - intros num NUM config raws d.
    exact (smoothed_from_recurrence config d raws []).
  - intros num NUM ul tz entries keys. apply days_from_smoothed.
  - vm_compute. repeat split.
  - split; [| split].
    + cbn [emaAlpha DEFAULT_CONFIG]. rewrite Exact.lit_R. cbn [Qnum Qden]. lra.
    + cbn [smoothed_from emaScore emaAlpha DEFAULT_CONFIG].
      unfold clamp_default, clamp.
      rewrite Exact.lit_0, Exact.lit_1, Exact.lit_100, (Exact.lit_R 0.3).
      cbn [Qnum Qden Math_max Math_min add sub mul RealNumber].
      rewrite (Rmin_right 100 80), (Rmax_right 0 80) by lra.
      replace (3 / 10 * 40 + (1 - 3 / 10) * 80)%R with 68%R by lra.
      rewrite (Rmin_right 100 68), (Rmax_right 0 68) by lra.
      repeat f_equal. lra.
    + lra.
Qed.

End TrendSmoother.

(** ** The classifier *)

Section Classifier.

Context {host : Binary64.Host}.

Variable unicode_toLowerCase : jsstring -> jsstring.

(** The results the classifier can return, in binary64. *)
Lemma scoreEntryLocal_results (txt : jsstring) :
  let r : Scored spec_float := scoreEntryLocal unicode_toLowerCase txt in
  In (category_of r) all_categories /\
  Binary64.leb (lit (-5)) (value_of r) = true /\
  Binary64.leb (value_of r) (lit 5) = true /\
  Binary64.leb (value_of r) (lit 10) = true.
Proof.
  cbv zeta. rewrite scoreEntryLocal_first_match.
  pose proof (first_match_In (num := spec_float)
                (toLowerCase unicode_toLowerCase (trim txt)) keyword_rules) as H.
  cbn [List.map keyword_rules snd app] in H.
  repeat (destruct H as [<- | H]; [vm_compute; intuition congruence |]).
  destruct H.
Qed.

(** The same over the reals. *)
Lemma scoreEntryLocal_results_R (txt : jsstring) :
  let r : Scored R := scoreEntryLocal unicode_toLowerCase txt in
  (-5 <= value_of r <= 5)%R.
Proof.
  cbv zeta. rewrite scoreEntryLocal_first_match.
  pose proof (first_match_In (num := R)
                (toLowerCase unicode_toLowerCase (trim txt)) keyword_rules) as H.
  cbn [List.map keyword_rules snd app] in H.
  repeat (destruct H as [<- | H];
          [cbn [value_of]; rewrite ?Exact.lit_R; cbn [Qnum Qden neg RealNumber]; lra |]).
  destruct H.
Qed.

(** The values the classifier returns are integers, in binary64 too. *)
Lemma scoreEntryLocal_integer (txt : jsstring) :
  exists z : Z,
    (-4 <= z <= 4)%Z /\
    value_of (scoreEntryLocal unicode_toLowerCase txt) = Binary64.int z.
Proof.
  rewrite scoreEntryLocal_first_match.
  pose proof (first_match_In (num := spec_float)
                (toLowerCase unicode_toLowerCase (trim txt)) keyword_rules) as H.
  cbn [List.map keyword_rules snd app] in H.
  repeat (destruct H as [<- | H];
          [first [ exists 4%Z; split; [lia | reflexivity]
                 | exists 3%Z; split; [lia | reflexivity]
                 | exists 2%Z; split; [lia | reflexivity]
                 | exists 0%Z; split; [lia | reflexivity]
                 | exists (-2)%Z; split; [lia | reflexivity]
                 | exists (-3)%Z; split; [lia | reflexivity]
                 | exists (-4)%Z; split; [lia | reflexivity] ] |]).
  destruct H.
Qed.

(** C3. For every string the classifier returns a category of the
    enumeration and a value between -5 and 5, hence within [-5, 10], in
    binary64 (where the value is the double of an integer between -4 and
    4) and over the reals; on the empty string it returns [(Other, 0)], at
    every carrier. *)
Theorem scoreEntryLocal_total :
  (NoDup all_categories /\ forall c : EntryCategory, In c all_categories) /\
  (forall txt : jsstring,
      let r : Scored spec_float := scoreEntryLocal unicode_toLowerCase txt in
      In (category_of r) all_categories /\
      Binary64.leb (lit (-5)) (value_of r) = true /\
      Binary64.leb (value_of r) (lit 5) = true /\
      Binary64.leb (value_of r) (lit 10) = true /\
      exists z : Z, (-4 <= z <= 4)%Z /\ value_of r = Binary64.int z) /\
  (forall txt : jsstring,
      let r : Scored R := scoreEntryLocal unicode_toLowerCase txt in
      (-5 <= value_of r <= 5 /\ value_of r <= 10)%R) /\
  (forall (num : Type) (NUM : Number num),
      scoreEntryLocal unicode_toLowerCase (str "")
      = {| category_of := Other; value_of := lit 0 |}).
Proof.
  split; [| split; [| split]].
  - split.
    + unfold all_categories.
      repeat (constructor; [simpl; intuition discriminate |]). constructor.
    + intros []; simpl; tauto.
  - intros txt. cbv zeta.
    destruct (scoreEntryLocal_results txt) as (H1 & H2 & H3 & H4).
    repeat split; try assumption. apply scoreEntryLocal_integer.
  - intros txt. pose proof (scoreEntryLocal_results_R txt) as H. cbv zeta in *. lra.
  - intros num NUM. reflexivity.
Qed.

(** C6. The classifier normalises the text (trim, then lower case) and
    returns the outcome of the first rule, in the order of the rule table,
    one of whose keywords occurs in it: no rule above that one matches; and
    [(Other, 0)] when no rule matches. The text "Went for a 20 min walk"
    normalises to "went for a 20 min walk", which contains "walk", a
    keyword of the first rule, and is classified [(Physical, 4)]. *)
Theorem scoreEntryLocal_first_rule_wins :
  (forall (num : Type) (NUM : Number num) (txt : jsstring),
      let t := toLowerCase unicode_toLowerCase (trim txt) in
      let r := scoreEntryLocal unicode_toLowerCase txt in
      r = first_match t keyword_rules /\
      ((exists above rule lower,
           keyword_rules = above ++ rule :: lower /\
           forallb (fun rl => negb (rule_matches t rl)) above = true /\
           rule_matches t rule = true /\
           r = snd rule) \/
       (forallb (fun rl => negb (rule_matches t rl)) keyword_rules = true /\
        r = {| category_of := Other; value_of := lit 0 |}))) /\
  (forall (num : Type) (NUM : Number num),
      let txt := str "Went for a 20 min walk" in
      toLowerCase unicode_toLowerCase (trim txt) = str "went for a 20 min walk" /\
      includes (str "went for a 20 min walk") (str "walk") = true /\
      nth_error keyword_rules 0
      = Some ([str "walk"; str "run"; str "gym"; str "workout"; str "yoga";
               str "stretch"; str "exercise"],
              {| category_of := Physical; value_of := lit 4 |}) /\
      scoreEntryLocal unicode_toLowerCase txt
      = {| category_of := Physical; value_of := lit 4 |}).
Proof.
  split.
  - intros num NUM txt t r. subst t r.
    rewrite scoreEntryLocal_first_match. split; [reflexivity |].
    apply first_match_split.
  - intros num NUM. cbv zeta. repeat split; vm_compute; reflexivity.
Qed.

End Classifier.

(** ** The two pages *)

Section Pages.

Context {num : Type} {NUM : Number num}.
Variable unicode_toLowerCase : jsstring -> jsstring.
Variable toLocalDateKey : jsstring -> jsstring.

(** The calls of the classifier the report page makes, and the values its
    days carry. *)
Lemma days_from_calls (entries : list (Entry num)) (keys : list jsstring)
    (prev : option num) :
  let run := days_from unicode_toLowerCase toLocalDateKey entries keys prev in
  snd run
  = concat (List.map (fun key => List.map (@text num) (onDay toLocalDateKey key entries)) keys) /\
  List.map (fun d => List.map (@s_value num) (entries_of d)) (fst run)
  = List.map (fun key => List.map (value_used unicode_toLowerCase)
                           (onDay toLocalDateKey key entries)) keys.
Proof.
  cbv zeta. revert prev. induction keys as [|key later IH]; intros prev.
  - split; reflexivity.
  - cbn [days_from]. cbv zeta. rewrite !snd_bind, !fst_bind.
    cbn [ret fst snd List.map concat entries_of].
    destruct (mapT_toScoredEntry unicode_toLowerCase (onDay toLocalDateKey key entries))
      as [Hc Hv].
    rewrite Hc, Hv, app_nil_r.
    match goal with
    | |- context [days_from _ _ entries later ?p] => destruct (IH p) as [IHc IHv]
    end.
    rewrite IHc, IHv. split; reflexivity.
Qed.

(** C9, amended. Both pages call the classifier once on the text of
    every entry of the day, whether or not the entry carries a value (the
    result is then used for a missing category only). A stored value is
    copied to the scored entry as it is, without clamping; the classifier's
    value is used for the entries that carry none. *)
Theorem stored_value_used_verbatim :
  (forall (e : Entry num) (v : num),
      value e = Some v ->
      s_value (fst (toScoredEntry unicode_toLowerCase e)) = v /\
      snd (toScoredEntry unicode_toLowerCase e) = [text e]) /\
  (forall (entries : list (Entry num)) (todayKey : jsstring),
      let day := onDay toLocalDateKey todayKey entries in
      let run := scoredToday unicode_toLowerCase toLocalDateKey entries todayKey in
      snd run = List.map (@text num) day /\
      List.map (@s_value num) (fst run) = List.map (value_used unicode_toLowerCase) day) /\
  (forall (entries : list (Entry num)) (keys : list jsstring),
      let run := ReportPage_days unicode_toLowerCase toLocalDateKey entries keys in
      snd run
      = concat (List.map (fun key => List.map (@text num) (onDay toLocalDateKey key entries))
                         keys) /\
      List.map (fun d => List.map (@s_value num) (entries_of d)) (fst run)
      = List.map (fun key => List.map (value_used unicode_toLowerCase)
                               (onDay toLocalDateKey key entries)) keys) /\
  (forall (e : Entry num) (v : num),
      value e = Some v -> value_used unicode_toLowerCase e = v).
Proof.
  split; [| split; [| split]].
  - intros e v Hv. unfold toScoredEntry, call_scoreEntryLocal, bind, ret.
    cbn [fst snd s_value]. rewrite Hv. split; reflexivity.
  - intros entries todayKey. cbv zeta. unfold scoredToday.
    apply mapT_toScoredEntry.
  - intros entries keys. apply days_from_calls.
  - intros e v Hv. unfold value_used. rewrite Hv. reflexivity.
Qed.

End Pages.

(** C9 as stated fails: an entry that carries the value 42 and a category
    still has its text classified, by either page; the value 42 is kept
    as it is. *)
Lemma classifier_called_on_valued_entry :
  let e : Entry R :=
    {| id := str "n1"; text := str "gym"; createdAt := str "2024-05-01T10:00:00.000Z";
       category := Some Focus; value := Some 42%R |} in
  value e = Some 42%R /\
  forall unicode_toLowerCase toLocalDateKey : jsstring -> jsstring,
    snd (toScoredEntry unicode_toLowerCase e) = [text e] /\
    s_value (fst (toScoredEntry unicode_toLowerCase e)) = 42%R /\
    let key := toLocalDateKey (createdAt e) in
    snd (scoredToday unicode_toLowerCase toLocalDateKey [e] key) = [text e] /\
    snd (ReportPage_days unicode_toLowerCase toLocalDateKey [e] [key]) = [text e].
Proof.
  cbv zeta. split; [reflexivity |].
  intros ul tz. split; [reflexivity | split; [reflexivity |]].
  unfold scoredToday, ReportPage_days. cbn [days_from]. unfold onDay.
  cbn [filter createdAt]. unfold jsstring_eqb.
  destruct (list_eq_dec N.eq_dec _ _) as [_ | Hne]; [| exfalso; apply Hne; reflexivity].
  split; reflexivity.
Qed.

(** C9, amended, at an entry that carries the value 42 and no
    category. *)
Lemma stored_value_used_verbatim_witness :
  let e : Entry R :=
    {| id := str "n1"; text := str "gym"; createdAt := str "2024-05-01T10:00:00.000Z";
       category := None; value := Some 42%R |} in
  s_value (fst (toScoredEntry (fun s => s) e)) = 42%R /\
  snd (toScoredEntry (fun s => s) e) = [text e].
Proof.
  cbv zeta.
  apply (proj1 (@stored_value_used_verbatim R RealNumber (fun s => s) (fun s => s))).
  reflexivity.
Defined.

(** * The rest of the code *)

(** ** Strings *)

Module Strings.

Lemma trimStart_app_white (ws s : jsstring) :
  forallb isWhiteSpace ws = true -> trimStart (ws ++ s) = trimStart s.
Proof.
  induction ws as [|c ws IH]; simpl; intros H.
  - reflexivity.
  - apply andb_prop in H as [Hc Hws]. rewrite Hc. apply IH, Hws.
Qed.

(** [trimStart] strips a run of white space and stops at the first code
    unit that is none. *)
Lemma trimStart_split (s : jsstring) :
  exists ws, s = ws ++ trimStart s /\ forallb isWhiteSpace ws = true.
Proof.
  induction s as [|c s (ws & E & H)]; simpl.
  - exists []. split; reflexivity.
  - destruct (isWhiteSpace c) eqn:Hc.
    + exists (c :: ws). simpl. rewrite Hc, <- E. split; [reflexivity | exact H].
    + exists []. split; reflexivity.
Qed.

Lemma trimStart_head (s : jsstring) :
  match trimStart s with
  | [] => True
  | c :: _ => isWhiteSpace c = false
  end.
Proof.
  induction s as [|c s IH]; simpl.
  - exact I.
  - destruct (isWhiteSpace c) eqn:Hc; [exact IH | exact Hc].
Qed.

Lemma trimStart_fixed (s : jsstring) :
  match s with [] => True | c :: _ => isWhiteSpace c = false end -> trimStart s = s.
Proof. destruct s as [|c s]; simpl; [reflexivity | intros ->; reflexivity]. Qed.

Lemma trimStart_idempotent (s : jsstring) : trimStart (trimStart s) = trimStart s.
Proof. apply trimStart_fixed, trimStart_head. Qed.

Lemma trimEnd_app_white (s ws : jsstring) :
  forallb isWhiteSpace ws = true -> trimEnd (s ++ ws) = trimEnd s.
Proof.
  intros H. unfold trimEnd. rewrite rev_app_distr, trimStart_app_white; [reflexivity |].
  rewrite forallb_forall in *. intros x Hx. apply H. now apply in_rev.
Qed.

Lemma trimEnd_idempotent (s : jsstring) : trimEnd (trimEnd s) = trimEnd s.
Proof. unfold trimEnd. rewrite rev_involutive, trimStart_idempotent. reflexivity. Qed.

(** Stripping at the end keeps the first code unit of a string that
    starts with none to strip. *)
Lemma trimEnd_cons (c : N) (s : jsstring) :
  isWhiteSpace c = false -> exists r, trimEnd (c :: s) = c :: r.
Proof.
  intros Hc. unfold trimEnd. simpl rev.
  destruct (trimStart_split (rev s ++ [c])) as (ws & E & Hws).
  assert (Hr : exists pre, trimStart (rev s ++ [c]) = pre ++ [c]).
  { destruct (trimStart (rev s ++ [c])) as [|x l] eqn:Et using rev_ind.
    - rewrite app_nil_r in E. exfalso.
      rewrite <- E in Hws. rewrite forallb_app in Hws. simpl in Hws.
      rewrite Hc in Hws. rewrite andb_false_r in Hws. discriminate.
    - exists l. clear IHl.
      rewrite app_assoc in E. apply app_inj_tail in E. destruct E as [_ ->]. reflexivity. }
  destruct Hr as [pre ->]. rewrite rev_app_distr. simpl. eauto.
Qed.

Lemma trim_idempotent (s : jsstring) : trim (trim s) = trim s.
Proof.
  unfold trim.
  assert (H : trimStart (trimEnd (trimStart s)) = trimEnd (trimStart s)).
  { pose proof (trimStart_head s) as Hh. destruct (trimStart s) as [|c r] eqn:E.
    - reflexivity.
    - destruct (@trimEnd_cons c r Hh) as [r' ->]. simpl. rewrite Hh. reflexivity. }
  rewrite H. apply trimEnd_idempotent.
Qed.

(** White space around a text is stripped whatever it is. *)
Lemma trim_surrounded (before s after : jsstring) :
  forallb isWhiteSpace before = true -> forallb isWhiteSpace after = true ->
  trim (before ++ s ++ after) = trim s.
Proof.
  intros Hb Ha. unfold trim. rewrite trimStart_app_white by exact Hb.
  destruct (trimStart_split s) as (ws & E & Hws).
  destruct (trimStart s) as [|c r] eqn:Es.
  - (* [s] is white space only *)
    rewrite app_nil_r in E. subst ws.
    rewrite <- (app_nil_r (s ++ after)), trimStart_app_white; [reflexivity |].
    rewrite forallb_app, Hws, Ha. reflexivity.
  - pose proof (trimStart_head s) as Hh. rewrite Es in Hh.
    rewrite E at 1. rewrite <- app_assoc, trimStart_app_white by exact Hws.
    simpl. rewrite Hh. change (c :: r ++ after) with ((c :: r) ++ after).
    apply trimEnd_app_white, Ha.
Qed.

Lemma lowerASCII_white (c : N) : isWhiteSpace (lowerASCII c) = isWhiteSpace c.
Proof.
  unfold lowerASCII.
  destruct ((65 <=? c) && (c <=? 90))%N eqn:E; [| reflexivity].
  apply andb_prop in E as [H1 H2]. apply N.leb_le in H1, H2.
  unfold isWhiteSpace. cbn [existsb].
  repeat match goal with
         | |- context [N.eqb ?a ?b] =>
             let H := fresh in destruct (N.eqb_spec a b) as [H | H]; [exfalso; lia |]
         end.
  cbn [orb].
  repeat match goal with
         | |- context [N.leb ?a ?b] =>
             let H := fresh in destruct (N.leb_spec a b) as [H | H]
         end; try reflexivity; exfalso; lia.
Qed.

Lemma trimStart_lower (s : jsstring) :
  trimStart (List.map lowerASCII s) = List.map lowerASCII (trimStart s).
Proof.
  induction s as [|c s IH]; simpl.
  - reflexivity.
  - rewrite lowerASCII_white. destruct (isWhiteSpace c); [exact IH | reflexivity].
Qed.

Lemma trim_lower (s : jsstring) :
  trim (List.map lowerASCII s) = List.map lowerASCII (trim s).
Proof.
  unfold trim, trimEnd. rewrite trimStart_lower, <- map_rev, trimStart_lower, map_rev.
  reflexivity.
Qed.

Lemma lowerASCII_idempotent (c : N) : lowerASCII (lowerASCII c) = lowerASCII c.
Proof.
  unfold lowerASCII.
  destruct ((65 <=? c) && (c <=? 90))%N eqn:E; [| rewrite E; reflexivity].
  apply andb_prop in E as [H1 H2]. apply N.leb_le in H1, H2.
  destruct (N.leb_spec 65 (c + 32)); destruct (N.leb_spec (c + 32) 90);
    cbn [andb]; try reflexivity; lia.
Qed.

Lemma lowerASCII_ascii (c : N) : isASCII (lowerASCII c) = isASCII c.
Proof.
  unfold lowerASCII, isASCII.
  destruct ((65 <=? c) && (c <=? 90))%N eqn:E; [| reflexivity].
  apply andb_prop in E as [H1 H2]. apply N.leb_le in H1, H2.
  destruct (N.ltb_spec (c + 32) 128); destruct (N.ltb_spec c 128); try reflexivity; lia.
Qed.

Lemma trimStart_ascii (s : jsstring) :
  forallb isASCII s = true -> forallb isASCII (trimStart s) = true.
Proof.
  induction s as [|c s IH]; simpl; intros H.
  - reflexivity.
  - destruct (isWhiteSpace c); [| exact H]. apply andb_prop in H as [_ H]. apply IH, H.
Qed.

Lemma trim_ascii (s : jsstring) :
  forallb isASCII s = true -> forallb isASCII (trim s) = true.
Proof.
  intros H. unfold trim, trimEnd.
  assert (Hrev : forall l, forallb isASCII l = true -> forallb isASCII (rev l) = true).
  { intros l Hl. rewrite forallb_forall in *. intros x Hx. apply Hl. now apply in_rev. }
  apply Hrev, trimStart_ascii, Hrev, trimStart_ascii, H.
Qed.

End Strings.

(** ** The pages, row by row *)

Section PagesMore.

Context {num : Type} {NUM : Number num}.
Variable unicode_toLowerCase : jsstring -> jsstring.
Variable toLocalDateKey : jsstring -> jsstring.

Lemma mapT_fst {A B : Type} (f : A -> Traced B) (xs : list A) :
  fst (mapT f xs) = List.map (fun x => fst (f x)) xs.
Proof.
  induction xs as [|x xs IH].
  - reflexivity.
  - cbn [mapT]. rewrite !fst_bind. cbn [ret fst List.map]. rewrite IH. reflexivity.
Qed.

Lemma jsstring_eqb_eq (a b : jsstring) : jsstring_eqb a b = true <-> a = b.
Proof.
  unfold jsstring_eqb. destruct (list_eq_dec N.eq_dec a b); split; congruence.
Qed.

Lemma jsstring_eqb_refl (a : jsstring) : jsstring_eqb a a = true.
Proof. now apply jsstring_eqb_eq. Qed.

(** X1. The scored entries of a day are the entries of the log with that
    day's key, in the order of the log, each with its own [id], [text] and
    [createdAt]; the category is the stored one, or the classifier's when
    none is stored. *)
Theorem scored_entries_mirror_the_log (entries : list (Entry num)) (key : jsstring) :
  let day := filter (fun e => jsstring_eqb (toLocalDateKey (createdAt e)) key) entries in
  let scored := fst (scoredToday unicode_toLowerCase toLocalDateKey entries key) in
  (forall e, In e day <-> In e entries /\ toLocalDateKey (createdAt e) = key) /\
  length scored = length day /\
  List.map (@s_id num) scored = List.map (@id num) day /\
  List.map (@s_text num) scored = List.map (@text num) day /\
  List.map (@s_createdAt num) scored = List.map (@createdAt num) day /\
  List.map (@s_category num) scored
  = List.map (fun e => match category e with
                       | Some c => c
                       | None => category_of (scoreEntryLocal unicode_toLowerCase (text e))
                       end) day.
Proof.
  cbv zeta. unfold scoredToday, onDay. rewrite mapT_fst.
  split; [| split; [| split; [| split; [| split]]]].
  - intros e. rewrite filter_In, jsstring_eqb_eq. reflexivity.
  - apply length_map.
  - rewrite map_map. reflexivity.
  - rewrite map_map. reflexivity.
  - rewrite map_map. reflexivity.
  - rewrite map_map. reflexivity.
Qed.

(** The rows of the report, whatever [prevSmoothed] holds. *)
Lemma days_from_rows (entries : list (Entry num)) (keys : list jsstring) (prev : option num) :
  let days := fst (days_from unicode_toLowerCase toLocalDateKey entries keys prev) in
  List.map (@dateKey num) days = keys /\
  Forall (fun d =>
            let today := fst (todayScore unicode_toLowerCase toLocalDateKey entries (dateKey d)) in
            entries_of d
            = fst (scoredToday unicode_toLowerCase toLocalDateKey entries (dateKey d)) /\
            d_positiveSum d = positiveSum today /\
            d_negativeSum d = negativeSum today /\
            d_rawScore d = rawScore today) days.
Proof.
  cbv zeta. revert prev. induction keys as [|key later IH]; intros prev.
  - split; [reflexivity | constructor].
  - cbn [days_from]. cbv zeta. rewrite !fst_bind. cbn [ret fst List.map dateKey].
    match goal with
    | |- context [days_from _ _ entries later ?p] => destruct (IH p) as [IHk IHd]
    end.
    split; [rewrite IHk; reflexivity |].
    constructor; [| exact IHd].
    cbn [dateKey entries_of d_positiveSum d_negativeSum d_rawScore].
    unfold todayScore. rewrite fst_bind. cbn [ret fst]. unfold scoredToday.
    repeat split.
Qed.

(** X2. The report has one row per key, in the order of the keys, and the
    row of a day holds the scored entries, the two sums and the raw score
    that the main page computes for that day. *)
Theorem report_rows_agree_with_main_page (entries : list (Entry num)) (keys : list jsstring) :
  let days := fst (ReportPage_days unicode_toLowerCase toLocalDateKey entries keys) in
  List.map (@dateKey num) days = keys /\
  length days = length keys /\
  Forall (fun d =>
            let today := fst (todayScore unicode_toLowerCase toLocalDateKey entries (dateKey d)) in
            entries_of d
            = fst (scoredToday unicode_toLowerCase toLocalDateKey entries (dateKey d)) /\
            d_positiveSum d = positiveSum today /\
            d_negativeSum d = negativeSum today /\
            d_rawScore d = rawScore today) days.
Proof.
  cbv zeta. unfold ReportPage_days.
  destruct (days_from_rows entries keys None) as [Hk Hd].
  split; [exact Hk | split; [| exact Hd]].
  rewrite <- Hk at 2. rewrite length_map. reflexivity.
Qed.

(** Entries by key: with no key listed twice, the listed keys split the
    entries that have one of them. *)
Lemma filter_keys_split (key : jsstring) (later : list jsstring) (entries : list (Entry num)) :
  ~ In key later ->
  Permutation
    (filter (fun e => existsb (jsstring_eqb (toLocalDateKey (createdAt e))) (key :: later)) entries)
    (onDay toLocalDateKey key entries
     ++ filter (fun e => existsb (jsstring_eqb (toLocalDateKey (createdAt e))) later) entries).
Proof.
  intros Hnew. unfold onDay. induction entries as [|e es IH].
  - constructor.
  - cbn [filter existsb].
    destruct (jsstring_eqb (toLocalDateKey (createdAt e)) key) eqn:E.
    + cbn [orb].
      assert (Hl : existsb (jsstring_eqb (toLocalDateKey (createdAt e))) later = false).
      { apply jsstring_eqb_eq in E. rewrite E.
        destruct (existsb (jsstring_eqb key) later) eqn:X; [| reflexivity].
        apply existsb_exists in X as (k & Hin & Hk). apply jsstring_eqb_eq in Hk.
        subst k. contradiction. }
      rewrite Hl. cbn [app]. constructor. exact IH.
    + cbn [orb]. destruct (existsb _ later).
      * apply Permutation_cons_app, IH.
      * exact IH.
Qed.

Lemma days_from_entries (entries : list (Entry num)) (keys : list jsstring) (prev : option num) :
  List.map (fun d => List.map (@s_id num) (entries_of d))
    (fst (days_from unicode_toLowerCase toLocalDateKey entries keys prev))
  = List.map (fun key => List.map (@id num) (onDay toLocalDateKey key entries)) keys.
Proof.
  revert prev. induction keys as [|key later IH]; intros prev.
  - reflexivity.
  - cbn [days_from]. cbv zeta. rewrite !fst_bind. cbn [ret fst List.map entries_of].
    rewrite IH, mapT_fst, map_map. reflexivity.
Qed.

(** X3. When no key is listed twice, every entry of the log whose key is
    listed is on exactly one row of the report, and the entries whose key
    is not listed are on none: the rows together hold the entries with a
    listed key, each once. *)
Theorem report_rows_partition_the_log (entries : list (Entry num)) (keys : list jsstring) :
  NoDup keys ->
  let days := fst (ReportPage_days unicode_toLowerCase toLocalDateKey entries keys) in
  Permutation
    (concat (List.map (fun d => List.map (@s_id num) (entries_of d)) days))
    (List.map (@id num)
       (filter (fun e => existsb (jsstring_eqb (toLocalDateKey (createdAt e))) keys) entries)).
Proof.
  intros Hnd. cbv zeta. unfold ReportPage_days. rewrite days_from_entries.
  induction Hnd as [|key later Hnew Hnd IH].
  - cbn [List.map concat existsb].
    assert (H : filter (fun _ : Entry num => false) entries = []).
    { induction entries; [reflexivity | assumption]. }
    rewrite H. constructor.
  - cbn [List.map concat].
    rewrite (Permutation_map (@id num) (@filter_keys_split key later entries Hnew)), map_app.
    apply Permutation_app_head, IH.
Qed.

End PagesMore.

(** ** Decimal digits *)

Module DateKeys.

Import LocalDate.


Lemma digit_inj (j k : Z) : (0 <= j)%Z -> (0 <= k)%Z -> digit j = digit k -> j = k.
Proof. unfold digit. intros Hj Hk E. apply (f_equal Z.of_N) in E. rewrite !Z2N.id in E by lia. lia. Qed.

Lemma str_inj (a b : string) : str a = str b -> a = b.
Proof.
  unfold str. intros H.
  assert (Hl : list_ascii_of_string a = list_ascii_of_string b).
  { revert H. generalize (list_ascii_of_string a) (list_ascii_of_string b).
    intros l. induction l as [|x l IH]; intros [|y m] E; try discriminate; [reflexivity |].
    simpl in E. injection E as Hx Hm. f_equal; [| now apply IH].
    rewrite <- (ascii_N_embedding x), <- (ascii_N_embedding y), Hx. reflexivity. }
  rewrite <- (string_of_list_ascii_of_string a), <- (string_of_list_ascii_of_string b), Hl.
  reflexivity.
Qed.

Lemma ToString_inj (a b : Z) : ToString (Some a) = ToString (Some b) -> a = b.
Proof.
  unfold ToString. intros H. apply str_inj in H.
  assert (Hn : forall z, NilZero.int_of_string (NilZero.string_of_int (Z.to_int z))
                         = Some (Z.to_int z)).
  { intros z. apply NilZero.isi; destruct z; simpl; try discriminate;
      intros E; injection E; apply Unsigned.to_uint_nonnil. }
  pose proof (Hn a) as Ha. rewrite H, Hn in Ha. injection Ha as Ha.
  symmetry. apply DecimalZ.to_int_inj, Ha.
Qed.

(** Checking a decidable property on every integer of a range. *)
Lemma on_range (P : Z -> bool) (lo len z : Z) :
  forallb (fun k => P (lo + Z.of_nat k)%Z) (seq 0 (Z.to_nat len)) = true ->
  (lo <= z < lo + len)%Z -> P z = true.
Proof.
  intros Hall Hz. rewrite forallb_forall in Hall.
  specialize (Hall (Z.to_nat (z - lo))).
  replace (lo + Z.of_nat (Z.to_nat (z - lo)))%Z with z in Hall by lia.
  apply Hall, in_seq. lia.
Qed.

Lemma two_digits (n : Z) :
  (0 <= n <= 99)%Z -> padStart (ToString (Some n)) 2 (str "0") = two n.
Proof.
  intros H. apply jsstring_eqb_eq.
  apply (@on_range (fun k => jsstring_eqb (padStart (ToString (Some k)) 2 (str "0")) (two k))
                   0 100 n); [vm_compute; reflexivity | lia].
Qed.

Lemma two_inj (a b : Z) : (0 <= a <= 99)%Z -> (0 <= b <= 99)%Z -> two a = two b -> a = b.
Proof.
  intros Ha Hb E. unfold two in E.
  pose proof (Z.div_mod a 10 ltac:(lia)). pose proof (Z.div_mod b 10 ltac:(lia)).
  pose proof (Z.mod_pos_bound a 10 ltac:(lia)). pose proof (Z.mod_pos_bound b 10 ltac:(lia)).
  assert (0 <= a / 10)%Z by (apply Z.div_pos; lia).
  assert (0 <= b / 10)%Z by (apply Z.div_pos; lia).
  remember (a / 10)%Z as qa. remember (b / 10)%Z as qb.
  remember (a mod 10)%Z as ra. remember (b mod 10)%Z as rb.
  injection E as E1 E2.
  apply digit_inj in E1, E2; lia.
Qed.


Ltac each_digit k :=
  let H := fresh in
  assert (H : (k = 0 \/ k = 1 \/ k = 2 \/ k = 3 \/ k = 4 \/ k = 5 \/ k = 6 \/ k = 7
               \/ k = 8 \/ k = 9)%Z) by lia;
  repeat (destruct H as [-> | H]); [.. | subst k].

Lemma of_lu_dig (k : Z) (d : Decimal.uint) :
  (0 <= k <= 9)%Z -> Unsigned.of_lu (dig k d) = (Z.to_N k + 10 * Unsigned.of_lu d)%N.
Proof. intros Hk. rewrite Unsigned.of_lu_eqn. each_digit k; reflexivity. Qed.

Lemma revapp_dig (k : Z) (d acc : Decimal.uint) :
  (0 <= k <= 9)%Z -> Decimal.revapp (dig k d) acc = Decimal.revapp d (dig k acc).
Proof. intros Hk. each_digit k; reflexivity. Qed.

Lemma unorm_dig (k : Z) (d : Decimal.uint) :
  (1 <= k <= 9)%Z -> Decimal.unorm (dig k d) = dig k d.
Proof. intros Hk. each_digit k; try lia; reflexivity. Qed.

Lemma string_dig (k : Z) (d : Decimal.uint) :
  (0 <= k <= 9)%Z ->
  str (NilZero.string_of_uint (dig k d)) = digit k :: str (NilEmpty.string_of_uint d).
Proof. intros Hk. each_digit k; reflexivity. Qed.

Lemma string_dig' (k : Z) (d : Decimal.uint) :
  (0 <= k <= 9)%Z ->
  str (NilEmpty.string_of_uint (dig k d)) = digit k :: str (NilEmpty.string_of_uint d).
Proof. intros Hk. each_digit k; reflexivity. Qed.

Lemma isDigit_digit (k : Z) : (0 <= k <= 9)%Z -> isDigit (digit k) = true.
Proof. intros Hk. each_digit k; reflexivity. Qed.

(** The digits of a positive number, from those of its value read from
    the right. *)
Lemma to_uint_of_lu (p : positive) (l : Decimal.uint) :
  Unsigned.of_lu l = Npos p -> Pos.to_uint p = Decimal.unorm (Decimal.rev l).
Proof.
  intros H. change (Pos.to_uint p) with (N.to_uint (Npos p)).
  rewrite <- H, <- Unsigned.of_lu_rev. apply Unsigned.to_of.
Qed.

Lemma year_digits (y : Z) :
  (1000 <= y <= 9999)%Z ->
  ToString (Some y)
  = [digit (y / 1000); digit (y / 100 mod 10); digit (y / 10 mod 10); digit (y mod 10)].
Proof.
  intros Hy. destruct y as [| p | p]; try lia.
  set (y := Zpos p) in *.
  set (a := (y / 1000)%Z). set (b := (y / 100 mod 10)%Z).
  set (c := (y / 10 mod 10)%Z). set (e := (y mod 10)%Z).
  assert (Ha : (1 <= a <= 9)%Z) by (unfold a; Z.div_mod_to_equations; lia).
  assert (Hb : (0 <= b <= 9)%Z) by (unfold b; Z.div_mod_to_equations; lia).
  assert (Hc : (0 <= c <= 9)%Z) by (unfold c; Z.div_mod_to_equations; lia).
  assert (He : (0 <= e <= 9)%Z) by (unfold e; Z.div_mod_to_equations; lia).
  assert (Hl : Unsigned.of_lu (dig e (dig c (dig b (dig a Decimal.Nil)))) = Npos p).
  { rewrite !of_lu_dig by lia. change (Unsigned.of_lu Decimal.Nil) with 0%N.
    apply N2Z.inj. rewrite !N2Z.inj_add, !N2Z.inj_mul, !Z2N.id by lia.
    change (Z.of_N (Npos p)) with y. unfold a, b, c, e. cbn [Z.of_N]. Z.div_mod_to_equations. lia. }
  unfold ToString. change (Z.to_int y) with (Decimal.Pos (Pos.to_uint p)).
  rewrite (to_uint_of_lu _ Hl). unfold Decimal.rev.
  rewrite !revapp_dig by lia. cbn [Decimal.revapp].
  rewrite unorm_dig by lia. cbn [NilZero.string_of_int].
  rewrite string_dig, !string_dig' by lia. reflexivity.
Qed.

Lemma string_length (u : Decimal.uint) :
  length (str (NilEmpty.string_of_uint u)) = Decimal.nb_digits u.
Proof.
  unfold str. induction u; cbn [NilEmpty.string_of_uint list_ascii_of_string List.map length
                                  Decimal.nb_digits]; congruence.
Qed.

Lemma nb_digits_dig (k : Z) (d : Decimal.uint) :
  (0 <= k <= 9)%Z -> Decimal.nb_digits (dig k d) = S (Decimal.nb_digits d).
Proof. intros Hk. each_digit k; reflexivity. Qed.

Lemma short_year (y : Z) :
  (0 <= y < 1000)%Z -> (length (ToString (Some y)) < 4)%nat.
Proof.
  intros Hy. destruct y as [| p | p]; try lia; [cbn; lia |].
  set (y := Zpos p) in *.
  set (b := (y / 100)%Z). set (c := (y / 10 mod 10)%Z). set (e := (y mod 10)%Z).
  assert (Hb : (0 <= b <= 9)%Z) by (unfold b; Z.div_mod_to_equations; lia).
  assert (Hc : (0 <= c <= 9)%Z) by (unfold c; Z.div_mod_to_equations; lia).
  assert (He : (0 <= e <= 9)%Z) by (unfold e; Z.div_mod_to_equations; lia).
  set (l := dig e (dig c (dig b Decimal.Nil))).
  assert (Hl : Unsigned.of_lu l = Npos p).
  { unfold l. rewrite !of_lu_dig by lia. change (Unsigned.of_lu Decimal.Nil) with 0%N.
    apply N2Z.inj. rewrite !N2Z.inj_add, !N2Z.inj_mul, !Z2N.id by lia.
    change (Z.of_N (Npos p)) with y. unfold b, c, e. cbn [Z.of_N].
    Z.div_mod_to_equations. lia. }
  assert (Hn : Decimal.nb_digits (Decimal.rev l) = 3%nat).
  { rewrite DecimalFacts.nb_digits_rev. unfold l. rewrite !nb_digits_dig by lia. reflexivity. }
  unfold ToString. change (Z.to_int y) with (Decimal.Pos (Pos.to_uint p)).
  cbn [NilZero.string_of_int].
  assert (Hs : NilZero.string_of_uint (Pos.to_uint p)
               = NilEmpty.string_of_uint (Pos.to_uint p)).
  { pose proof (Unsigned.to_uint_nonnil p). destruct (Pos.to_uint p); try reflexivity.
    contradiction. }
  rewrite Hs, string_length, (to_uint_of_lu _ Hl).
  assert (Hu : (Decimal.nb_digits (Decimal.unorm (Decimal.rev l))
                <= Decimal.nb_digits (Decimal.rev l))%nat).
  { apply DecimalFacts.nb_digits_unorm, DecimalFacts.nb_digits_n0. lia. }
  lia.
Qed.

Lemma year_of_four_digits (y : Z) :
  (1000 <= y <= 9999)%Z ->
  length (ToString (Some y)) = 4%nat /\ forallb isDigit (ToString (Some y)) = true.
Proof.
  intros Hy. rewrite (year_digits Hy). split; [reflexivity |].
  cbn [forallb]. rewrite !isDigit_digit by (Z.div_mod_to_equations; lia). reflexivity.
Qed.

Section Host.

Context {host : DateHost}.

Lemma key_of_valid (iso : jsstring) (f : Fields) :
  Date iso = Some f -> inRange f ->
  toLocalDateKey iso
  = ToString (Some (fullYear f)) ++ str "-" ++ two (month f + 1) ++ str "-" ++ two (date f).
Proof.
  intros Hd [Hm Hday]. unfold toLocalDateKey. rewrite Hd.
  cbn [getFullYear getMonth getDate plus_1 option_map].
  rewrite !two_digits by lia. reflexivity.
Qed.

Lemma key_of_invalid (iso : jsstring) :
  Date iso = None -> toLocalDateKey iso = str "NaN-NaN-NaN".
Proof. intros Hd. unfold toLocalDateKey. rewrite Hd. reflexivity. Qed.

Lemma app_same_length_inj {A : Type} (a b c d : list A) :
  length c = length d -> a ++ c = b ++ d -> a = b /\ c = d.
Proof.
  intros Hl E.
  assert (Hab : length a = length b).
  { apply (f_equal (@length A)) in E. rewrite !length_app in E. lia. }
  revert b Hab E. induction a as [|x a IH]; intros [|y b] Hab E; try discriminate.
  - split; [reflexivity | exact E].
  - simpl in E. injection E as -> E. simpl in Hab.
    destruct (IH b ltac:(lia) E) as [-> ->]. split; reflexivity.
Qed.

Lemma key_inj (a b : jsstring) (f g : Fields) :
  Date a = Some f -> inRange f -> Date b = Some g -> inRange g ->
  toLocalDateKey a = toLocalDateKey b -> f = g.
Proof.
  intros Ha Hf Hb Hg E.
  rewrite (@key_of_valid _ _ Ha Hf), (@key_of_valid _ _ Hb Hg) in E.
  apply app_same_length_inj in E; [| reflexivity].
  destruct E as [Ey E]. apply ToString_inj in Ey.
  apply app_inv_head in E. apply app_same_length_inj in E; [| reflexivity].
  destruct E as [Em Ed]. apply app_inv_head in Ed.
  destruct Hf as [Hfm Hfd], Hg as [Hgm Hgd].
  apply two_inj in Em; [| lia | lia]. apply two_inj in Ed; [| lia | lia].
  destruct f, g. cbn in *. f_equal; lia.
Qed.

Lemma valid_key_not_NaN (a : jsstring) (f : Fields) :
  Date a = Some f -> inRange f -> toLocalDateKey a <> str "NaN-NaN-NaN".
Proof.
  intros Ha Hf E. rewrite (@key_of_valid _ _ Ha Hf) in E.
  change (str "NaN-NaN-NaN") with (str "NaN-N" ++ str "aN-NaN") in E.
  apply app_same_length_inj in E; [| reflexivity].
  destruct E as [_ E].
  apply (f_equal (fun l => hd 0%N l)) in E. discriminate E.
Qed.

End Host.

End DateKeys.

(** ** The date key *)

Section DateKeyTheorems.

Import LocalDate DateKeys.

Context {host : DateHost}.

(** X4. For a valid date, the key is the decimal year, a dash, the month
    counted from 1 on two digits, a dash, and the day of the month on two
    digits.  The year is not padded: the key has the ten code units of
    YYYY-MM-DD for the years 1000 to 9999, and fewer for the years 0 to
    999.  For an Invalid Date the key is "NaN-NaN-NaN". *)
Theorem toLocalDateKey_format (iso : jsstring) :
  (forall f : Fields,
      Date iso = Some f -> inRange f ->
      let key := toLocalDateKey iso in
      key = ToString (Some (fullYear f)) ++ str "-" ++ two (month f + 1) ++ str "-" ++ two (date f) /\
      forallb isDigit (two (month f + 1) ++ two (date f)) = true /\
      ((1000 <= fullYear f <= 9999)%Z ->
       length key = 10%nat /\ forallb isDigit (ToString (Some (fullYear f))) = true) /\
      ((0 <= fullYear f < 1000)%Z -> (length key < 10)%nat)) /\
  (Date iso = None -> toLocalDateKey iso = str "NaN-NaN-NaN").
Proof.
  split.
  - intros f Hd Hf key. subst key. rewrite (@key_of_valid _ _ _ Hd Hf).
    destruct Hf as [Hm Hday].
    split; [reflexivity | split; [| split]].
    + assert (Hall : forall n, (0 <= n <= 99)%Z -> forallb isDigit (two n) = true).
      { intros n Hn.
        apply (@on_range (fun k => forallb isDigit (two k)) 0 100 n);
          [vm_compute; reflexivity | lia]. }
      rewrite forallb_app, !Hall by lia. reflexivity.
    + intros Hy. destruct (@year_of_four_digits _ Hy) as [Hl Hdig].
      split; [| exact Hdig]. rewrite !length_app, Hl. reflexivity.
    + intros Hy. pose proof (@short_year _ Hy) as Hl.
      rewrite !length_app. cbn [length two str List.map list_ascii_of_string]. lia.
  - apply key_of_invalid.
Qed.

(** X5. Two valid dates have the same key exactly when they have the same
    local year, month and day of the month; no valid date has the key of
    an Invalid Date. *)
Theorem toLocalDateKey_injective (a b : jsstring) (f g : Fields) :
  Date a = Some f -> inRange f -> Date b = Some g -> inRange g ->
  (toLocalDateKey a = toLocalDateKey b <-> f = g) /\
  toLocalDateKey a <> str "NaN-NaN-NaN".
Proof.
  intros Ha Hf Hb Hg. split; [split |].
  - apply (@key_inj _ _ _ _ _ Ha Hf Hb Hg).
  - intros <-. rewrite (@key_of_valid _ _ _ Ha Hf), (@key_of_valid _ _ _ Hb Hf). reflexivity.
  - apply (@valid_key_not_NaN _ _ _ Ha Hf).
Qed.

Section Grouping.

Context {num : Type} {NUM : Number num}.

(** X6. On both pages, the entries of the day of a valid date are those
    entries of the log whose [createdAt] is a valid date with the same
    local year, month and day; an entry whose [createdAt] is not a date is
    on no such day. *)
Theorem entries_grouped_by_local_date (entries : list (Entry num)) (day : jsstring)
    (f : Fields) :
  (forall iso g, Date iso = Some g -> inRange g) ->
  Date day = Some f ->
  forall e : Entry num,
    In e (onDay toLocalDateKey (toLocalDateKey day) entries)
    <-> In e entries /\ Date (createdAt e) = Some f.
Proof.
  intros Hhost Hday e. unfold onDay. rewrite filter_In, jsstring_eqb_eq.
  pose proof (Hhost _ _ Hday) as Hf.
  split; intros [Hin H]; (split; [exact Hin |]).
  - destruct (Date (createdAt e)) as [g |] eqn:Hg.
    + f_equal. apply (@key_inj _ _ _ _ _ Hg (Hhost _ _ Hg) Hday Hf H).
    + exfalso. rewrite (@key_of_invalid _ _ Hg) in H.
      symmetry in H. exact (@valid_key_not_NaN _ _ _ Hday Hf H).
  - rewrite (@key_of_valid _ _ _ H Hf), (@key_of_valid _ _ _ Hday Hf). reflexivity.
Qed.

End Grouping.

End DateKeyTheorems.

(** ** The handlers *)

Section HandlerTheorems.

Context {num : Type} {NUM : Number num}.
Variable unicode_toLowerCase : jsstring -> jsstring.

Lemma addEntry_cases (txt uid now : jsstring) (entries : list (Entry num)) :
  ((length (trim txt) < 2)%nat /\ addEntry unicode_toLowerCase txt uid now entries = None) \/
  (exists e, addEntry unicode_toLowerCase txt uid now entries = Some (e :: entries) /\
             id e = uid /\ text e = trim txt /\ createdAt e = now /\ well_scored unicode_toLowerCase e).
Proof.
  unfold addEntry. cbv zeta. destruct (Nat.ltb_spec (length (trim txt)) 2) as [H | H].
  - left. split; [exact H | reflexivity].
  - right. eexists. split; [reflexivity |]. cbn [id text createdAt].
    repeat split; cbn [text category value]; try assumption.
    apply Strings.trim_idempotent.
Qed.

Lemma removeEntry_In (ident : jsstring) (entries : list (Entry num)) (e : Entry num) :
  In e (removeEntry ident entries) <-> In e entries /\ id e <> ident.
Proof.
  unfold removeEntry. rewrite filter_In. split; intros [Hin H]; (split; [exact Hin |]).
  - intros E. rewrite E, jsstring_eqb_refl in H. discriminate.
  - destruct (jsstring_eqb (id e) ident) eqn:E; [| reflexivity].
    apply jsstring_eqb_eq in E. contradiction.
Qed.

Lemma step_well_scored (entries : list (Entry num)) (a : Action) :
  Forall (well_scored unicode_toLowerCase) entries -> Forall (well_scored unicode_toLowerCase) (step unicode_toLowerCase entries a).
Proof.
  intros H. destruct a as [txt uid now | ident]; cbn [step].
  - destruct (addEntry_cases txt uid now entries) as [[_ ->] | (e & -> & _ & _ & _ & He)].
    + exact H.
    + constructor; assumption.
  - rewrite Forall_forall in *. intros e He. apply removeEntry_In in He. apply H, He.
Qed.

Lemma run_well_scored (actions : list Action) (start : list (Entry num)) :
  Forall (well_scored unicode_toLowerCase) start ->
  Forall (well_scored unicode_toLowerCase) (run unicode_toLowerCase actions start) /\
  (length (run unicode_toLowerCase actions start) <= length start + length actions)%nat.
Proof.
  unfold run. revert start. induction actions as [|a rest IH]; intros start Hs; cbn [fold_left].
  - split; [exact Hs | cbn; lia].
  - destruct (IH _ (step_well_scored a Hs)) as [H1 H2]. split; [exact H1 |].
    assert (Hstep : (length (step unicode_toLowerCase start a) <= S (length start))%nat).
    { destruct a as [txt uid now | ident]; cbn [step].
      - destruct (addEntry_cases txt uid now start) as [[_ ->] | (e & -> & _)]; cbn; lia.
      - unfold removeEntry. pose proof (filter_length_le
          (fun e : Entry num => negb (jsstring_eqb (id e) ident)) start). lia. }
    cbn [length]. lia.
Qed.

(** X7. Whatever is typed, added and deleted, every entry of the log is as
    [addEntry] builds it: its text is trimmed and has two code units or
    more, and it carries the category and the value the classifier gives
    that text.  On such a log the pages' fallback to a fresh
    classification never changes a thing: every scored entry carries the
    classifier's value for its text. *)
Theorem log_entries_are_well_scored (actions : list Action) :
  let entries := run unicode_toLowerCase actions [] in
  Forall (fun e : Entry num =>
            trim (text e) = text e /\ (2 <= length (text e))%nat /\
            category e = Some (category_of (scoreEntryLocal unicode_toLowerCase (text e))) /\
            value e = Some (value_of (scoreEntryLocal unicode_toLowerCase (text e))))
         entries /\
  (length entries <= length actions)%nat /\
  forall (toLocalDateKey : jsstring -> jsstring) (key : jsstring),
    List.map (@s_value num)
      (fst (scoredToday unicode_toLowerCase toLocalDateKey entries key))
    = List.map (fun e => value_of (scoreEntryLocal unicode_toLowerCase (text e)))
        (onDay toLocalDateKey key entries).
Proof.
  cbv zeta.
  destruct (run_well_scored actions (Forall_nil _)) as [Hw Hl].
  split; [exact Hw | split; [exact Hl |]].
  intros tz key.
  destruct (mapT_toScoredEntry unicode_toLowerCase
              (onDay tz key (run unicode_toLowerCase actions []))) as [_ Hv].
  unfold scoredToday. rewrite Hv. apply map_ext_in.
  intros e He. unfold onDay in He. apply filter_In in He as [He _].
  rewrite Forall_forall in Hw. destruct (Hw e He) as (_ & _ & _ & Hval).
  unfold value_used. rewrite Hval. reflexivity.
Qed.

(** X8. [removeEntry] deletes every entry with the given [id] and nothing
    else, keeps the order of the entries that stay (it works through the
    log entry by entry), and changes nothing when no entry has that [id];
    deleting twice is deleting once. *)
Theorem removeEntry_deletes_by_id (ident : jsstring) (entries : list (Entry num)) :
  (forall e, In e (removeEntry ident entries) <-> In e entries /\ id e <> ident) /\
  (forall older newer : list (Entry num),
      removeEntry ident (newer ++ older) = removeEntry ident newer ++ removeEntry ident older) /\
  (forall e : Entry num,
      removeEntry ident [e] = if jsstring_eqb (id e) ident then [] else [e]) /\
  ((forall e, In e entries -> id e <> ident) -> removeEntry ident entries = entries) /\
  removeEntry ident (removeEntry ident entries) = removeEntry ident entries.
Proof.
  split; [| split; [| split; [| split]]].
  - intros e. apply removeEntry_In.
  - intros older newer. apply filter_app.
  - intros e. unfold removeEntry. cbn [filter].
    destruct (jsstring_eqb (id e) ident); reflexivity.
  - intros H. unfold removeEntry. induction entries as [|e es IH]; [reflexivity |].
    cbn [filter].
    destruct (jsstring_eqb (id e) ident) eqn:E.
    + apply jsstring_eqb_eq in E. exfalso. apply (H e); [left; reflexivity | exact E].
    + cbn [negb]. f_equal. apply IH. intros x Hx. apply H. right. exact Hx.
  - unfold removeEntry. induction entries as [|e es IH]; [reflexivity |].
    cbn [filter]. destruct (negb (jsstring_eqb (id e) ident)) eqn:E.
    + cbn [filter]. rewrite E, IH. reflexivity.
    + exact IH.
Qed.


End HandlerTheorems.

(** ** More of exact real arithmetic *)

Module ExactMore.

Local Open Scope R_scope.

Lemma clamp_default_R (x : R) : clamp_default x = Rmax 0 (Rmin 100 x).
Proof. unfold clamp_default, clamp. rewrite Exact.lit_0, Exact.lit_100. reflexivity. Qed.


Lemma clamp_default_inside (x : R) : 0 <= x <= 100 -> clamp_default x = x.
Proof. intros H. rewrite clamp_default_R, Rmin_right, Rmax_right by lra. reflexivity. Qed.

Lemma sigmoid_R (z : R) : sigmoid z = / (1 + exp (- z)).
Proof. unfold sigmoid. rewrite Exact.lit_1. cbn [div add neg Math_exp RealNumber]. lra. Qed.

Lemma sigmoid_range (z : R) : 0 < sigmoid z < 1.
Proof.
  rewrite sigmoid_R. pose proof (exp_pos (- z)) as He. split.
  - apply Rinv_0_lt_compat. lra.
  - rewrite <- Rinv_1 at 2. apply Rinv_lt_contravar; lra.
Qed.

Lemma sigmoid_increasing (z z' : R) : z < z' -> sigmoid z < sigmoid z'.
Proof.
  intros H. rewrite !sigmoid_R.
  pose proof (exp_pos (- z)). pose proof (exp_pos (- z')).
  assert (exp (- z') < exp (- z)) by (apply exp_increasing; lra).
  apply Rinv_lt_contravar; [apply Rmult_lt_0_compat |]; lra.
Qed.

Lemma sigmoid_opp (z : R) : sigmoid (- z) = 1 - sigmoid z.
Proof.
  rewrite !sigmoid_R, Ropp_involutive, exp_Ropp.
  pose proof (exp_pos z). field. split; lra.
Qed.

Lemma sigmoid_0 : sigmoid 0 = 1 / 2.
Proof. rewrite sigmoid_R, Ropp_0, exp_0. lra. Qed.

(** Over the reals the clamp of [scoreDayFromValues] is never active. *)
Lemma score_of_sigmoid (z : R) : score_of z = 100 * sigmoid z.
Proof.
  unfold score_of. rewrite Exact.lit_100. cbn [mul RealNumber].
  apply clamp_default_inside. pose proof (sigmoid_range z). lra.
Qed.




End ExactMore.

Section ExactTheorems.

Local Open Scope R_scope.

(** X10. In exact real arithmetic [sigmoid] takes its values strictly
    between 0 and 1, is strictly increasing, is 1/2 at 0 and satisfies
    [sigmoid(-z) = 1 - sigmoid(z)].  In binary64 and for every host,
    [sigmoid(NaN)] is [NaN], [sigmoid(+Infinity)] is 1, [sigmoid(-Infinity)]
    is [+0], and [sigmoid(+0)] and [sigmoid(-0)] are 0.5. *)
Theorem sigmoid_shape :
  (forall z : R, 0 < sigmoid z < 1) /\
  (forall z z' : R, z < z' <-> sigmoid z < sigmoid z') /\
  (forall z : R, sigmoid (- z) = 1 - sigmoid z) /\
  sigmoid 0 = 1 / 2 /\
  (forall host : Binary64.Host,
      sigmoid Binary64.NaN = Binary64.NaN /\
      sigmoid Binary64.Infinity = lit 1%Q /\
      sigmoid (S754_infinity true) = S754_zero false /\
      sigmoid (S754_zero false) = lit 0.5%Q /\
      sigmoid (S754_zero true) = lit 0.5%Q).
Proof.
  split; [| split; [| split; [| split]]].
  - apply ExactMore.sigmoid_range.
  - intros z z'. split; [apply ExactMore.sigmoid_increasing |].
    intros H. destruct (Rlt_le_dec z z') as [Hlt | Hge]; [exact Hlt | exfalso].
    destruct Hge as [Hgt | ->]; [| lra].
    pose proof (ExactMore.sigmoid_increasing Hgt). lra.
  - apply ExactMore.sigmoid_opp.
  - apply ExactMore.sigmoid_0.
  - intros host. vm_compute. repeat split.
Qed.

(** X11. In exact real arithmetic the clamp of [scoreDayFromValues] never
    acts: the raw score is [100 * sigmoid(z)] and lies strictly between 0
    and 100.  With [scale > 0] it is above 50 exactly when
    [positiveSum > lambda * negativeSum], 50 when they are equal, and
    below 50 otherwise. *)
Theorem rawScore_exact_shape (values : list R) (config : ScoreConfig R) :
  let r := scoreDayFromValues values config in
  let p := positiveSum r in
  let n := negativeSum r in
  (rawScore r = 100 * sigmoid ((p - lambda config * n) / scale config) /\
   0 < rawScore r < 100) /\
  (0 < scale config ->
   (50 < rawScore r <-> lambda config * n < p) /\
   (rawScore r = 50 <-> p = lambda config * n) /\
   (rawScore r < 50 <-> p < lambda config * n)).
Proof.
  cbv zeta. rewrite Exact.scoreDayFromValues_R. cbn [positiveSum negativeSum rawScore].
  set (p := total pos_part values). set (n := total neg_part values).
  set (z := (p - lambda config * n) / scale config).
  rewrite ExactMore.score_of_sigmoid.
  pose proof (ExactMore.sigmoid_range z) as Hr.
  split; [split; [reflexivity | lra] |].
  intros Hs.
  assert (Hz : forall c : R, (c < z <-> c * scale config < p - lambda config * n) /\
                             (z < c <-> p - lambda config * n < c * scale config)).
  { intros c. unfold z, Rdiv.
    assert (Hi : 0 < / scale config) by (apply Rinv_0_lt_compat; exact Hs).
    split; split; intros H.
    - apply Rmult_lt_compat_r with (r := scale config) in H; [| exact Hs].
      rewrite Rmult_assoc, Rinv_l, Rmult_1_r in H by lra. exact H.
    - apply Rmult_lt_reg_r with (scale config); [exact Hs |].
      rewrite Rmult_assoc, Rinv_l, Rmult_1_r by lra. exact H.
    - apply Rmult_lt_compat_r with (r := scale config) in H; [| exact Hs].
      rewrite Rmult_assoc, Rinv_l, Rmult_1_r in H by lra. exact H.
    - apply Rmult_lt_reg_r with (scale config); [exact Hs |].
      rewrite Rmult_assoc, Rinv_l, Rmult_1_r by lra. exact H. }
  destruct (Hz 0) as [Hpos Hneg]. rewrite Rmult_0_l in Hpos, Hneg.
  pose proof ExactMore.sigmoid_0 as H0.
  assert (Hup : 0 < z -> 1 / 2 < sigmoid z).
  { intros H. rewrite <- H0. apply ExactMore.sigmoid_increasing, H. }
  assert (Hdown : z < 0 -> sigmoid z < 1 / 2).
  { intros H. rewrite <- H0. apply ExactMore.sigmoid_increasing, H. }
  assert (Hmid : z = 0 -> sigmoid z = 1 / 2) by (intros ->; exact H0).
  destruct (Rtotal_order z 0) as [Hlt | [Heq | Hgt]].
  - specialize (Hdown Hlt). apply Hneg in Hlt. repeat split; intros; lra.
  - specialize (Hmid Heq).
    assert (p - lambda config * n = 0).
    { destruct (Rtotal_order (p - lambda config * n) 0) as [H | [H | H]];
        [apply Hneg in H | exact H | apply Hpos in H]; lra. }
    repeat split; intros; lra.
  - specialize (Hup Hgt). apply Hpos in Hgt. repeat split; intros; lra.
Qed.

(** X12. In exact real arithmetic, for [0 <= emaAlpha <= 1] and a raw and a
    previous smoothed score in [0, 100], the clamp of [emaScore] does not
    act: the result is [a * todayRaw + (1 - a) * yesterdaySmoothed], and it
    lies between the smaller and the larger of the two scores. *)
Theorem emaScore_between (todayRaw yesterday : R) (config : ScoreConfig R) :
  0 <= emaAlpha config <= 1 ->
  0 <= todayRaw <= 100 -> 0 <= yesterday <= 100 ->
  let s := emaScore todayRaw (Some yesterday) config in
  s = emaAlpha config * todayRaw + (1 - emaAlpha config) * yesterday /\
  Rmin todayRaw yesterday <= s <= Rmax todayRaw yesterday.
Proof.
  intros Ha Ht Hy s. subst s. cbn [emaScore]. rewrite Exact.lit_1.
  cbn [add sub mul RealNumber].
  set (a := emaAlpha config) in *.
  assert (Hlo : Rmin todayRaw yesterday <= a * todayRaw + (1 - a) * yesterday).
  { unfold Rmin. destruct (Rle_dec todayRaw yesterday); nra. }
  assert (Hhi : a * todayRaw + (1 - a) * yesterday <= Rmax todayRaw yesterday).
  { unfold Rmax. destruct (Rle_dec todayRaw yesterday); nra. }
  assert (H0 : 0 <= Rmin todayRaw yesterday) by (apply Rmin_glb; lra).
  assert (H1 : Rmax todayRaw yesterday <= 100) by (apply Rmax_lub; lra).
  rewrite ExactMore.clamp_default_inside by lra.
  split; [reflexivity | split; assumption].
Qed.

End ExactTheorems.

(** ** The averages of the report *)

Section ReportAverages.

Variable unicode_toLowerCase : jsstring -> jsstring.
Variable toLocalDateKey : jsstring -> jsstring.

Local Open Scope R_scope.



End ReportAverages.

(** ** The classifier's normalisation and its table *)

Section ClassifierMore.

Context {num : Type} {NUM : Number num}.
Variable unicode_toLowerCase : jsstring -> jsstring.

Lemma normalise_ascii (txt : jsstring) :
  forallb isASCII txt = true ->
  toLowerCase unicode_toLowerCase (trim txt) = List.map lowerASCII (trim txt).
Proof. intros H. unfold toLowerCase. rewrite Strings.trim_ascii by exact H. reflexivity. Qed.

(** X14. White space before and after a text does not change its
    classification, and neither does the case of the ASCII letters of a
    text of ASCII code units. *)
Theorem scoreEntryLocal_ignores_space_and_case :
  (forall before txt after : jsstring,
      forallb isWhiteSpace before = true -> forallb isWhiteSpace after = true ->
      scoreEntryLocal unicode_toLowerCase (before ++ txt ++ after)
      = scoreEntryLocal unicode_toLowerCase txt) /\
  (forall txt : jsstring,
      scoreEntryLocal unicode_toLowerCase (trim txt) = scoreEntryLocal unicode_toLowerCase txt) /\
  (forall a b : jsstring,
      forallb isASCII a = true -> forallb isASCII b = true ->
      List.map lowerASCII a = List.map lowerASCII b ->
      scoreEntryLocal unicode_toLowerCase a = scoreEntryLocal unicode_toLowerCase b).
Proof.
  split; [| split].
  - intros before txt after Hb Ha. rewrite !scoreEntryLocal_first_match.
    rewrite Strings.trim_surrounded by assumption. reflexivity.
  - intros txt. rewrite !scoreEntryLocal_first_match, Strings.trim_idempotent. reflexivity.
  - intros a b Ha Hb E. rewrite !scoreEntryLocal_first_match.
    rewrite !normalise_ascii by assumption.
    rewrite <- !Strings.trim_lower, E. reflexivity.
Qed.

End ClassifierMore.

Section KeywordTable.

Context {num : Type} {NUM : Number num}.
Variable unicode_toLowerCase : jsstring -> jsstring.

(** X15. No keyword of the table is shadowed: a text that consists of one
    keyword is classified by the rule that lists the keyword, so every
    keyword of every rule can decide a classification. *)
Theorem every_keyword_reaches_its_rule :
  Forall (fun rule : list jsstring * Scored num =>
            Forall (fun w => scoreEntryLocal unicode_toLowerCase w = snd rule) (fst rule))
         keyword_rules.
Proof.
  unfold keyword_rules.
  repeat (constructor; [cbn [fst snd]; repeat (constructor; [vm_compute; reflexivity |]);
                        constructor |]).
  constructor.
Qed.

End KeywordTable.

(** ** The order of binary64 *)

Module OrderFacts.

Import Binary64 Order.
Local Open Scope Z_scope.

Lemma SFcompare_place (x y : spec_float) :
  isNaN x = false -> isNaN y = false ->
  match SFcompare x y with
  | Some Lt => below (place x) (place y)
  | Some Eq => place x = place y
  | Some Gt => below (place y) (place x)
  | None => False
  end.
Proof.
  intros Hx Hy.
  destruct x as [sx | [|] | | [|] mx ex], y as [sy | [|] | | [|] my ey];
    try discriminate; cbn; try lia; try reflexivity.
  - destruct (Z.compare_spec ex ey) as [-> | H | H]; cbn; try lia.
    change (PosDef.Pos.compare_cont Eq mx my) with (Pos.compare mx my).
    destruct (Pos.compare_spec mx my) as [-> | H | H]; cbn; try reflexivity; lia.
  - destruct (Z.compare_spec ex ey) as [-> | H | H]; cbn; try lia.
    change (PosDef.Pos.compare_cont Eq mx my) with (Pos.compare mx my).
    destruct (Pos.compare_spec mx my) as [-> | H | H]; cbn; try reflexivity; lia.
Qed.

Lemma ltb_below (x y : spec_float) :
  isNaN x = false -> isNaN y = false ->
  (SFltb x y = true <-> below (place x) (place y)).
Proof.
  intros Hx Hy. pose proof (SFcompare_place x y Hx Hy) as H. unfold SFltb.
  destruct (place x) as [[a1 a2] a3] eqn:Ex, (place y) as [[b1 b2] b3] eqn:Ey.
  destruct (SFcompare x y) as [[ | | ] |]; cbn in *;
    try (injection H as -> -> ->); split; intros; try discriminate; try reflexivity;
    try contradiction; try lia.
Qed.

Lemma leb_not_below (x y : spec_float) :
  isNaN x = false -> isNaN y = false ->
  (SFleb x y = true <-> ~ below (place y) (place x)).
Proof.
  intros Hx Hy. pose proof (SFcompare_place x y Hx Hy) as H. unfold SFleb.
  destruct (place x) as [[a1 a2] a3] eqn:Ex, (place y) as [[b1 b2] b3] eqn:Ey.
  destruct (SFcompare x y) as [[ | | ] |]; cbn in *;
    try (injection H as -> -> ->); split; intros; try discriminate; try reflexivity;
    try contradiction; try lia.
Qed.

Lemma leb_refl (x : spec_float) : isNaN x = false -> SFleb x x = true.
Proof.
  intros Hx. apply leb_not_below; try assumption.
  destruct (place x) as [[a1 a2] a3]. cbn. lia.
Qed.

Lemma ltb_leb (x y : spec_float) : SFltb x y = true -> SFleb x y = true.
Proof. unfold SFltb, SFleb. destruct (SFcompare x y) as [[ | | ] |]; congruence. Qed.

Lemma not_ltb_leb (x y : spec_float) :
  isNaN x = false -> isNaN y = false -> SFltb x y = false -> SFleb y x = true.
Proof.
  intros Hx Hy H. apply leb_not_below; try assumption.
  intros Hb. apply ltb_below in Hb; try assumption. congruence.
Qed.

Lemma leb_trans (x y z : spec_float) :
  isNaN x = false -> isNaN y = false -> isNaN z = false ->
  SFleb x y = true -> SFleb y z = true -> SFleb x z = true.
Proof.
  intros Hx Hy Hz. rewrite !leb_not_below by assumption.
  destruct (place x) as [[a1 a2] a3], (place y) as [[b1 b2] b3], (place z) as [[c1 c2] c3].
  cbn. lia.
Qed.

Lemma leb_ltb_false (x y : spec_float) :
  isNaN x = false -> isNaN y = false -> SFleb x y = true -> SFltb y x = false.
Proof.
  intros Hx Hy H. apply leb_not_below in H; try assumption.
  destruct (SFltb y x) eqn:E; [| reflexivity].
  apply ltb_below in E; try assumption. contradiction.
Qed.

Lemma isNaN_max (a b : spec_float) : isNaN (Binary64.max a b) = isNaN a || isNaN b.
Proof.
  destruct a as [sa | sa | | sa ma ea], b as [sb | sb | | sb mb eb]; try reflexivity;
    unfold Binary64.max; match goal with |- context [SFltb ?x ?y] => destruct (SFltb x y) end;
    reflexivity.
Qed.

Lemma isNaN_min (a b : spec_float) : isNaN (Binary64.min a b) = isNaN a || isNaN b.
Proof.
  destruct a as [sa | sa | | sa ma ea], b as [sb | sb | | sb mb eb]; try reflexivity;
    unfold Binary64.min; match goal with |- context [SFltb ?x ?y] => destruct (SFltb x y) end;
    reflexivity.
Qed.

(** [Math.max(a, b)] and [Math.min(a, b)] have the place of one of their
    arguments: of the larger and of the smaller. *)
Lemma max_place (a b : spec_float) :
  isNaN a = false -> isNaN b = false ->
  place (Binary64.max a b) = if SFltb a b then place b else place a.
Proof.
  intros Ha Hb.
  destruct a as [sa | sa | | sa ma ea], b as [sb | sb | | sb mb eb]; try discriminate;
    try reflexivity;
    unfold Binary64.max; match goal with |- context [SFltb ?x ?y] => destruct (SFltb x y) end;
    reflexivity.
Qed.

Lemma min_place (a b : spec_float) :
  isNaN a = false -> isNaN b = false ->
  place (Binary64.min a b) = if SFltb b a then place b else place a.
Proof.
  intros Ha Hb.
  destruct a as [sa | sa | | sa ma ea], b as [sb | sb | | sb mb eb]; try discriminate;
    try reflexivity;
    unfold Binary64.min; match goal with |- context [SFltb ?x ?y] => destruct (SFltb x y) end;
    reflexivity.
Qed.

End OrderFacts.

(** ** [clamp] in binary64 *)

Module ClampOnBinary64.

Import Binary64 Order OrderFacts.

Section Host.

Context {host : Host}.

(** [clamp(n)] by the shape of [n]. *)
Lemma clamp_default_cases (n : spec_float) :
  clamp_default n
  = match n with
    | S754_nan => NaN
    | S754_zero _ | S754_infinity true | S754_finite true _ _ => lit 0
    | S754_infinity false => lit 100
    | S754_finite false _ _ => if SFltb n (lit 100) then n else lit 100
    end.
Proof.
  unfold clamp_default, clamp. rewrite OnBinary64.literal_0, OnBinary64.literal_100.
  cbn [Math_max Math_min js].
  destruct n as [[|] | [|] | | [|] m e]; try reflexivity.
  unfold min.
  destruct (SFltb (S754_finite false m e) (S754_finite false 7036874417766400 (-46)));
    reflexivity.
Qed.

Lemma leb_100_eq (m : positive) (e : Z) :
  SFleb (S754_finite false m e) (lit 100) = true ->
  SFltb (S754_finite false m e) (lit 100) = false ->
  S754_finite false m e = lit 100.
Proof.
  rewrite OnBinary64.literal_100. unfold SFleb, SFltb. intros Hle Hlt.
  pose proof (@SFcompare_place (S754_finite false m e)
                (S754_finite false 7036874417766400 (-46)) eq_refl eq_refl) as H.
  destruct (SFcompare _ _) as [[ | | ] |]; try discriminate.
  cbn [place] in H. injection H as -> ->. reflexivity.
Qed.

(** The general [clamp]: the places of its result. *)
Lemma clamp_NaN (n lo hi : spec_float) :
  isNaN (clamp n lo hi) = isNaN n || isNaN lo || isNaN hi.
Proof.
  unfold clamp. cbn [Math_max Math_min js]. rewrite isNaN_max, isNaN_min.
  destruct (isNaN n), (isNaN lo), (isNaN hi); reflexivity.
Qed.

Lemma clamp_place (n lo hi : spec_float) :
  isNaN n = false -> isNaN lo = false -> isNaN hi = false ->
  place (clamp n lo hi)
  = if SFltb lo (Binary64.min hi n)
    then (if SFltb n hi then place n else place hi)
    else place lo.
Proof.
  intros Hn Hlo Hhi. unfold clamp. cbn [Math_max Math_min js].
  assert (Hx : isNaN (Binary64.min hi n) = false) by (rewrite isNaN_min, Hn, Hhi; reflexivity).
  rewrite max_place by assumption.
  destruct (SFltb lo (Binary64.min hi n)); [| reflexivity].
  apply min_place; assumption.
Qed.

End Host.

End ClampOnBinary64.

Section ClampTheorems.

Import Binary64 Order OrderFacts.

Context {host : Host}.

(** X16. In binary64, [clamp(n)] with the default bounds is [NaN] for
    [NaN], [+0] for every [n] below 0 and for both zeros, 100 for every
    [n] above 100, the infinities included, and [n] itself in between;
    clamping twice is clamping once. *)
Theorem clamp_default_saturates (n : spec_float) :
  (isNaN n = true -> clamp_default n = NaN) /\
  (SFltb n (lit 0) = true -> clamp_default n = lit 0) /\
  (SFltb (lit 100) n = true -> clamp_default n = lit 100) /\
  (SFleb (lit 0) n = true -> SFleb n (lit 100) = true ->
   clamp_default n = n \/ (n = S754_zero true /\ clamp_default n = S754_zero false)) /\
  clamp_default (clamp_default n) = clamp_default n.
Proof.
  rewrite ClampOnBinary64.clamp_default_cases.
  split; [| split; [| split; [| split]]].
  - destruct n; try discriminate. reflexivity.
  - destruct n as [[|] | [|] | | [|] m e]; try discriminate; reflexivity.
  - destruct n as [[|] | [|] | | [|] m e]; try discriminate; try reflexivity.
    intros H. rewrite (@leb_ltb_false (lit 100) (S754_finite false m e)); try reflexivity.
    apply ltb_leb, H.
  - destruct n as [[|] | [|] | | [|] m e]; try discriminate; intros H0 H100.
    + right. split; reflexivity.
    + left. reflexivity.
    + left. destruct (SFltb (S754_finite false m e) (lit 100)) eqn:E; [reflexivity |].
      symmetry. apply ClampOnBinary64.leb_100_eq; assumption.
  - destruct n as [[|] | [|] | | [|] m e]; try reflexivity.
    destruct (SFltb (S754_finite false m e) (lit 100)) eqn:E.
    + rewrite ClampOnBinary64.clamp_default_cases, E. reflexivity.
    + reflexivity.
Qed.

(** X17. In binary64, [clamp(n, min, max)] is [NaN] exactly when one of its
    three arguments is.  Otherwise, when [min <= max] the result lies
    between [min] and [max], and when [max < min] the result is [min],
    whatever [n] is. *)
Theorem clamp_bounds (n lo hi : spec_float) :
  isNaN (clamp n lo hi) = isNaN n || isNaN lo || isNaN hi /\
  (isNaN n = false -> isNaN lo = false -> isNaN hi = false ->
   (SFleb lo hi = true ->
    SFleb lo (clamp n lo hi) = true /\ SFleb (clamp n lo hi) hi = true) /\
   (SFltb hi lo = true -> clamp n lo hi = lo)).
Proof.
  split; [apply ClampOnBinary64.clamp_NaN |].
  intros Hn Hlo Hhi.
  assert (Hc : isNaN (clamp n lo hi) = false).
  { rewrite ClampOnBinary64.clamp_NaN, Hn, Hlo, Hhi. reflexivity. }
  assert (Hx : isNaN (Binary64.min hi n) = false) by (rewrite isNaN_min, Hn, Hhi; reflexivity).
  pose proof (@ClampOnBinary64.clamp_place _ n lo hi Hn Hlo Hhi) as Hp.
  pose proof (@min_place hi n Hhi Hn) as Hm.
  split.
  - intros Hle. rewrite !leb_not_below by assumption. rewrite Hp.
    apply leb_not_below in Hle; try assumption.
    destruct (SFltb lo (Binary64.min hi n)) eqn:E1.
    + apply ltb_below in E1; try assumption. rewrite Hm in E1.
      destruct (SFltb n hi) eqn:E2.
      * apply ltb_below in E2; try assumption.
        destruct (place lo) as [[a1 a2] a3], (place n) as [[b1 b2] b3],
                 (place hi) as [[c1 c2] c3]. cbn in *. lia.
      * destruct (place lo) as [[a1 a2] a3], (place hi) as [[c1 c2] c3]. cbn in *. lia.
    + destruct (place lo) as [[a1 a2] a3], (place hi) as [[c1 c2] c3]. cbn in *. lia.
  - intros Hlt. apply ltb_below in Hlt; try assumption.
    assert (E1 : SFltb lo (Binary64.min hi n) = false).
    { destruct (SFltb lo (Binary64.min hi n)) eqn:E; [| reflexivity]. exfalso.
      apply ltb_below in E; try assumption. rewrite Hm in E.
      destruct (SFltb n hi) eqn:E2.
      - apply ltb_below in E2; try assumption.
        destruct (place lo) as [[a1 a2] a3], (place n) as [[b1 b2] b3],
                 (place hi) as [[c1 c2] c3]. cbn in *. lia.
      - destruct (place lo) as [[a1 a2] a3], (place hi) as [[c1 c2] c3]. cbn in *. lia. }
    (* [lo] and [min(hi, n)] are not both zeros: the latter is below [lo] *)
    assert (Hbelow : below (place (Binary64.min hi n)) (place lo)).
    { rewrite Hm. destruct (SFltb n hi) eqn:E2.
      - apply ltb_below in E2; try assumption.
        destruct (place lo) as [[a1 a2] a3], (place n) as [[b1 b2] b3],
                 (place hi) as [[c1 c2] c3]. cbn in *. lia.
      - exact Hlt. }
    unfold clamp. cbn [Math_max Math_min js].
    destruct lo as [sl | sl | | sl ml el]; try discriminate;
      destruct (Binary64.min hi n) as [sx | sx | | sx mx ex] eqn:Ex; try discriminate;
      unfold Binary64.max; rewrite ?E1; try reflexivity.
    cbn in Hbelow. lia.
Qed.

End ClampTheorems.

(** ** The trend in binary64 *)

Module TrendOnBinary64.

Import Binary64.

Section Host.

Context {host : Host}.

Lemma emaScore_NaN_today (prev : option spec_float) (config : ScoreConfig spec_float) :
  emaScore NaN prev config = NaN.
Proof.
  destruct prev as [prev |]; cbn [emaScore]; [| reflexivity].
  destruct (emaAlpha config) as [s | s | | s m e]; reflexivity.
Qed.

Lemma emaScore_NaN_yesterday (raw : spec_float) (config : ScoreConfig spec_float) :
  emaScore raw (Some NaN) config = NaN.
Proof.
  cbn [emaScore].
  set (x := (emaAlpha config * raw)%num).
  assert (Hy : ((lit 1 - emaAlpha config) * NaN)%num = NaN).
  { destruct (lit 1 - emaAlpha config)%num as [s | s | | s m e]; reflexivity. }
  rewrite Hy. destruct x as [s | s | | s m e]; reflexivity.
Qed.

Lemma smoothed_from_NaN (config : ScoreConfig spec_float) (raws : list spec_float) :
  smoothed_from config raws (Some NaN) = repeat NaN (length raws).
Proof.
  induction raws as [|r raws IH]; [reflexivity |].
  cbn [smoothed_from length repeat]. rewrite emaScore_NaN_yesterday, IH. reflexivity.
Qed.

Lemma smoothed_from_app (config : ScoreConfig spec_float) (before after : list spec_float)
    (prev : option spec_float) :
  smoothed_from config (before ++ after) prev
  = smoothed_from config before prev
    ++ smoothed_from config after
         (match rev (smoothed_from config before prev) with
          | [] => prev
          | s :: _ => Some s
          end).
Proof.
  revert prev. induction before as [|r before IH]; intros prev; [reflexivity |].
  cbn [app smoothed_from]. rewrite IH. f_equal. f_equal.
  cbn [rev]. destruct (rev (smoothed_from config before _)) as [|s l]; reflexivity.
Qed.

Lemma smoothed_from_length (config : ScoreConfig spec_float) (raws : list spec_float)
    (prev : option spec_float) :
  length (smoothed_from config raws prev) = length raws.
Proof.
  revert prev. induction raws as [|r raws IH]; intros prev; [reflexivity |].
  cbn [smoothed_from length]. rewrite IH. reflexivity.
Qed.

Lemma smoothed_from_range (config : ScoreConfig spec_float) (raws : list spec_float)
    (prev : option spec_float) :
  Forall (fun s => s = NaN \/ (leb (lit 0) s = true /\ leb s (lit 100) = true))
         (smoothed_from config raws prev).
Proof.
  revert prev. induction raws as [|r raws IH]; intros prev; [constructor |].
  cbn [smoothed_from]. constructor; [| apply IH].
  destruct prev as [prev |]; cbn [emaScore];
    match goal with
    | |- context [clamp_default ?x] =>
        destruct (OnBinary64.clamp_default_range x) as [[_ H] | [_ H]]
    end; auto.
Qed.

(** A day without values under the default configuration, and the
    smoothing of a 50 after a 50 or after nothing. *)
Lemma empty_day_default :
  scoreDayFromValues (num := spec_float) [] DEFAULT_CONFIG
  = {| positiveSum := lit 0; negativeSum := lit 0; rawScore := lit 50 |} /\
  emaScore (num := spec_float) (lit 50) None DEFAULT_CONFIG = lit 50 /\
  emaScore (num := spec_float) (lit 50) (Some (lit 50)) DEFAULT_CONFIG = lit 50.
Proof. vm_compute. repeat split. Qed.

End Host.

End TrendOnBinary64.

Section TrendTheorems.

Import Binary64.

Context {host : Host}.
Variable unicode_toLowerCase : jsstring -> jsstring.
Variable toLocalDateKey : jsstring -> jsstring.

(** X18. In binary64 every smoothed score is [NaN] or lies in [0, 100], and
    a [NaN] never leaves the trend: from the first day whose raw score is
    [NaN] on, every smoothed score is [NaN], whatever the later raw scores
    and the configuration are.  So it is on the report page. *)
Theorem NaN_stays_in_the_trend :
  (forall (config : ScoreConfig spec_float) (raws : list spec_float) (prev : option spec_float),
      Forall (fun s => s = NaN \/ (leb (lit 0) s = true /\ leb s (lit 100) = true))
             (smoothed_from config raws prev)) /\
  (forall (config : ScoreConfig spec_float) (before after : list spec_float)
          (prev : option spec_float),
      smoothed_from config (before ++ NaN :: after) prev
      = smoothed_from config before prev ++ repeat NaN (S (length after))) /\
  (forall (entries : list (Entry spec_float)) (keys : list jsstring) (i j : nat)
          (di dj : DayScore spec_float),
      let days := fst (ReportPage_days unicode_toLowerCase toLocalDateKey entries keys) in
      nth_error days i = Some di -> nth_error days j = Some dj -> (i <= j)%nat ->
      d_rawScore di = NaN -> smoothedScore dj = NaN).
Proof.
  split; [| split].
  - apply TrendOnBinary64.smoothed_from_range.
  - intros config before after prev.
    rewrite TrendOnBinary64.smoothed_from_app. f_equal.
    cbn [smoothed_from repeat]. rewrite TrendOnBinary64.emaScore_NaN_today.
    rewrite TrendOnBinary64.smoothed_from_NaN. reflexivity.
  - intros entries keys i j di dj days Hi Hj Hij Hnan.
    pose proof (days_from_smoothed unicode_toLowerCase toLocalDateKey entries keys None) as Hs.
    cbv zeta in Hs. fold (ReportPage_days unicode_toLowerCase toLocalDateKey entries keys) in Hs.
    fold days in Hs.
    destruct (nth_error_split days i Hi) as (l1 & l2 & El & Hlen).
    assert (Hr : List.map (@d_rawScore spec_float) days
                 = List.map (@d_rawScore spec_float) l1 ++ NaN
                   :: List.map (@d_rawScore spec_float) l2).
    { rewrite El, map_app. cbn [List.map]. rewrite Hnan. reflexivity. }
    rewrite Hr in Hs.
    rewrite TrendOnBinary64.smoothed_from_app in Hs.
    cbn [smoothed_from] in Hs. rewrite TrendOnBinary64.emaScore_NaN_today in Hs.
    rewrite TrendOnBinary64.smoothed_from_NaN in Hs.
    apply (f_equal (fun l => nth_error l j)) in Hs.
    rewrite nth_error_map, Hj in Hs. cbn [option_map] in Hs.
    rewrite nth_error_app2 in Hs
      by (rewrite TrendOnBinary64.smoothed_from_length, length_map; lia).
    rewrite TrendOnBinary64.smoothed_from_length, !length_map in Hs.
    assert (Hjl : (j < length days)%nat) by (apply nth_error_Some; congruence).
    rewrite El, length_app in Hjl. cbn [length] in Hjl.
    change (NaN :: repeat NaN (length l2)) with (repeat NaN (S (length l2))) in Hs.
    rewrite nth_error_repeat in Hs by lia.
    congruence.
Qed.

(** X19. In binary64 and for every host, a day without notes has both sums
    0, the raw score 50 and, after days without notes only, the smoothed
    score 50: when no entry of the log falls on any of the keys, every row
    of the report is such a row, and over seven days both averages are
    50. *)
Theorem days_without_notes_score_50 (entries : list (Entry spec_float)) (keys : list jsstring) :
  Forall (fun key => onDay toLocalDateKey key entries = []) keys ->
  let days := fst (ReportPage_days unicode_toLowerCase toLocalDateKey entries keys) in
  days = List.map (fun key => {| dateKey := key; entries_of := [];
                                 d_positiveSum := lit 0; d_negativeSum := lit 0;
                                 d_rawScore := lit 50; smoothedScore := lit 50 |}) keys /\
  (length keys = 7%nat -> totals days = {| avgRaw := lit 50; avgSmooth := lit 50 |}).
Proof.
  intros Hempty days.
  destruct (@TrendOnBinary64.empty_day_default host) as (Hday & Hfirst & Hnext).
  assert (Hrows : forall prev,
             prev = None \/ prev = Some (lit 50) ->
             fst (days_from unicode_toLowerCase toLocalDateKey entries keys prev)
             = List.map (fun key => {| dateKey := key; entries_of := [];
                                       d_positiveSum := lit 0; d_negativeSum := lit 0;
                                       d_rawScore := lit 50; smoothedScore := lit 50 |}) keys).
  { induction Hempty as [|key later Hkey _ IH]; intros prev Hprev; [reflexivity |].
    cbn [days_from]. cbv zeta. rewrite !fst_bind. cbn [ret fst List.map].
    rewrite Hkey. cbn [mapT ret fst List.map]. rewrite Hday.
    cbn [positiveSum negativeSum rawScore].
    assert (Hs : emaScore (lit 50) prev DEFAULT_CONFIG = lit 50)
      by (destruct Hprev as [-> | ->]; assumption).
    rewrite Hs. f_equal. apply IH. right. reflexivity. }
  assert (Hd : days = List.map (fun key => {| dateKey := key; entries_of := [];
                                       d_positiveSum := lit 0; d_negativeSum := lit 0;
                                       d_rawScore := lit 50; smoothedScore := lit 50 |}) keys).
  { apply Hrows. left. reflexivity. }
  split; [exact Hd |].
  intros Hlen. rewrite Hd.
  destruct keys as [|k1 [|k2 [|k3 [|k4 [|k5 [|k6 [|k7 [|k8 rest]]]]]]]]; try discriminate Hlen.
  vm_compute. reflexivity.
Qed.

End TrendTheorems.

(** ** Products, quotients by 1 and comparisons of integers in binary64 *)

Module IntegerProducts.

Import Binary64 IntegerDoubles.
Local Open Scope Z_scope.

Lemma digits_upper c : Zpos c < 2 ^ digits c.
Proof.
  unfold digits. rewrite digits_size.
  pose proof (Pos.size_gt c) as H. apply Pos2Z.pos_lt_pos in H.
  rewrite Pos2Z.inj_pow in H. exact H.
Qed.

Lemma digits_lower c : 2 ^ (digits c - 1) <= Zpos c.
Proof.
  unfold digits. rewrite digits_size.
  pose proof (Pos.size_le c) as H. apply Pos2Z.pos_le_pos in H.
  rewrite Pos2Z.inj_pow, (Pos2Z.inj_xO c) in H.
  replace (Zpos (Pos.size c)) with (Z.succ (Zpos (Pos.size c) - 1)) in H by lia.
  rewrite Z.pow_succ_r in H by lia. lia.
Qed.

(** The number of digits is monotone. *)
Lemma digits_le a b : Zpos a <= Zpos b -> digits a <= digits b.
Proof.
  intros H. pose proof (digits_lower a). pose proof (digits_upper b).
  pose proof (digits_pos a). pose proof (digits_pos b).
  assert (Hlt : 2 ^ (digits a - 1) < 2 ^ digits b) by lia.
  apply Z.pow_lt_mono_r_iff in Hlt; lia.
Qed.

Lemma digits_mul a b : digits a + digits b - 1 <= digits (a * b).
Proof.
  pose proof (digits_lower a). pose proof (digits_lower b).
  pose proof (digits_upper (a * b)) as Hu. rewrite Pos2Z.inj_mul in Hu.
  pose proof (digits_pos a). pose proof (digits_pos b). pose proof (digits_pos (a * b)).
  assert (Hp : 2 ^ (digits a - 1) * 2 ^ (digits b - 1) <= Zpos a * Zpos b).
  { apply Z.mul_le_mono_nonneg; try lia; apply Z.pow_nonneg; lia. }
  rewrite <- Z.pow_add_r in Hp by lia.
  assert (Hlt : 2 ^ (digits a - 1 + (digits b - 1)) < 2 ^ digits (a * b)) by lia.
  apply Z.pow_lt_mono_r_iff in Hlt; lia.
Qed.

(** Rounding [c * 2^k * 2^-k], with [c * 2^k] of 53 digits or more, yields
    the double of [c]. *)
Lemma round_aux_shl s c k :
  digits c <= 53 -> 53 - digits c <= Z.of_nat k ->
  binary_round_aux prec emax s (Zpos (shl c k)) (- Z.of_nat k) loc_Exact = normal s c.
Proof.
  intros Hd Hk. pose proof (digits_pos c).
  destruct (digits c - 53 + Z.of_nat k) as [| p | p] eqn:E; [| | lia].
  - assert (k = Z.to_nat (53 - digits c)) by lia. subst k.
    replace (- Z.of_nat (Z.to_nat (53 - digits c))) with (digits c - 53) by lia.
    apply round_aux_nf, Hd.
  - unfold binary_round_aux.
    rewrite (@shr_fexp_shifted c k p) by lia.
    cbn [shr_m loc_of_shr_record round_nearest_even].
    rewrite (@shr_fexp_nf c Hd). cbn [shr_m].
    unfold normal, emax, prec.
    destruct (Z.leb_spec (digits c - 53) (1024 - 53)); [reflexivity | lia].
Qed.

Lemma shl_mul a b j k : (shl a j * shl b k)%positive = shl (a * b) (j + k).
Proof.
  apply Pos2Z.inj. rewrite Pos2Z.inj_mul, !Zpos_shl, Pos2Z.inj_mul, Nat2Z.inj_add.
  rewrite Z.pow_add_r by lia. ring.
Qed.

Lemma SFmul_nf sa ca sb cb :
  Zpos ca * Zpos cb < 2 ^ 53 ->
  SFmul prec emax (normal sa ca) (normal sb cb) = normal (xorb sa sb) (ca * cb).
Proof.
  intros Hab.
  pose proof (digits_pos ca). pose proof (digits_pos cb).
  assert (Ha : digits ca <= 53).
  { apply digits_le_53. assert (1 <= Zpos cb) by lia. nia. }
  assert (Hb : digits cb <= 53).
  { apply digits_le_53. assert (1 <= Zpos ca) by lia. nia. }
  assert (Hc : digits (ca * cb) <= 53) by (apply digits_le_53; rewrite Pos2Z.inj_mul; exact Hab).
  pose proof (digits_mul ca cb).
  unfold normal at 1 2. cbn [SFmul]. rewrite shl_mul.
  replace (digits ca - 53 + (digits cb - 53))
    with (- Z.of_nat (Z.to_nat (53 - digits ca) + Z.to_nat (53 - digits cb))) by lia.
  apply round_aux_shl; [exact Hc | lia].
Qed.

(** Multiplication of integer doubles is exact below [2^53]; the
    product of [+0] and a negative integer is [-0]. *)
Lemma SFmul_of_Z a b :
  0 <= a -> 0 <= b -> a * b < 2 ^ 53 ->
  SFmul prec emax (of_Z a) (of_Z b) = of_Z (a * b).
Proof.
  intros Ha Hb Hab.
  destruct a as [| ca | ca], b as [| cb | cb]; try reflexivity; try lia.
  cbn [of_Z Z.mul]. rewrite SFmul_nf by (cbn in Hab; lia). reflexivity.
Qed.

(** The quotient of an integer double by 1 is that double: a literal
    without fraction denotes its integer. *)
Lemma SFdiv_nf_1 s c :
  digits c <= 53 ->
  SFdiv prec emax (normal s c) (S754_finite false 4503599627370496 (-52)) = normal s c.
Proof.
  intros Hd. pose proof (digits_pos c).
  unfold normal at 1. cbn [SFdiv]. unfold SFdiv_core_binary.
  set (k := Z.to_nat (53 - digits c)).
  cbn [Zdigits2]. fold (digits (shl c k)). rewrite digits_shl.
  change (Zpos (digits2_pos 4503599627370496)) with 53.
  replace (digits c + Z.of_nat k + (digits c - 53) - (53 + -52)) with (digits c - 1) by lia.
  assert (Hf : fexp prec emax (digits c - 1) = digits c - 54).
  { unfold fexp, emin, prec, emax. lia. }
  rewrite Hf.
  replace (Z.min (digits c - 54) (digits c - 53 - -52)) with (digits c - 54) by lia.
  replace (digits c - 53 - -52 - (digits c - 54)) with 53 by lia.
  cbv zeta.
  assert (Hq : Z.div_eucl (Z.shiftl (Zpos (shl c k)) 53) 4503599627370496
               = (Zpos (shl c (S k)), 0)).
  { rewrite Z.shiftl_mul_pow2 by lia.
    pose proof (Z.div_eucl_eq (Zpos (shl c k) * 2 ^ 53) 4503599627370496 ltac:(lia)) as Heq.
    pose proof (Z.mod_pos_bound (Zpos (shl c k) * 2 ^ 53) 4503599627370496 ltac:(lia)) as Hm.
    unfold Z.modulo in Hm.
    destruct (Z.div_eucl (Zpos (shl c k) * 2 ^ 53) 4503599627370496) as [q r].
    assert (E2 : 2 ^ 53 = 2 * 4503599627370496) by reflexivity.
    assert (Es : Zpos (shl c (S k)) = 2 * Zpos (shl c k)).
    { rewrite !Zpos_shl, Nat2Z.inj_succ, Z.pow_succ_r by lia. ring. }
    rewrite Es. f_equal; nia. }
  rewrite Hq. cbn [new_location Z.even new_location_even Z.eqb].
  cbn [xorb]. rewrite xorb_false_r.
  replace (digits c - 54) with (- Z.of_nat (S k)) by lia.
  apply round_aux_shl; [exact Hd | lia].
Qed.

Lemma literal_inject_Z z : Z.abs z < 2 ^ 53 -> literal (inject_Z z) = of_Z z.
Proof.
  intros Hz. unfold literal. cbn [Qnum Qden inject_Z].
  rewrite (@int_of_Z z Hz). change (int 1) with (S754_finite false 4503599627370496 (-52)).
  destruct z as [| c | c]; cbn [of_Z]; [reflexivity | |];
    apply SFdiv_nf_1, digits_le_53; lia.
Qed.

(** The comparison of two positive integer doubles is that of the
    integers. *)
Lemma SFcompare_nf a b :
  digits a <= 53 -> digits b <= 53 ->
  SFcompare (normal false a) (normal false b) = Some (Pos.compare a b).
Proof.
  intros Ha Hb. pose proof (digits_pos a). pose proof (digits_pos b).
  unfold normal. cbn [SFcompare].
  change (PosDef.Pos.compare_cont Eq ?x ?y) with (Pos.compare x y).
  pose proof (digits_lower a). pose proof (digits_upper a).
  pose proof (digits_lower b). pose proof (digits_upper b).
  destruct (Z.compare_spec (digits a - 53) (digits b - 53)) as [E | E | E].
  - assert (Ed : digits a = digits b) by lia. rewrite Ed.
    set (k := Z.to_nat (53 - digits b)).
    rewrite !Pos2Z.inj_compare, !Zpos_shl.
    assert (0 < 2 ^ Z.of_nat k) by (apply Z.pow_pos_nonneg; lia).
    destruct (Z.compare_spec (Zpos a) (Zpos b)) as [E' | E' | E'].
    + rewrite E'. apply f_equal, Z.compare_refl.
    + f_equal. apply Z.compare_lt_iff. nia.
    + f_equal. apply Z.compare_gt_iff. nia.
  - f_equal. symmetry. apply Pos.compare_lt_iff.
    assert (Hp : 2 ^ digits a <= 2 ^ (digits b - 1)) by (apply Z.pow_le_mono_r; lia).
    lia.
  - f_equal. symmetry. apply Pos.compare_gt_iff.
    assert (Hp : 2 ^ digits b <= 2 ^ (digits a - 1)) by (apply Z.pow_le_mono_r; lia).
    lia.
Qed.

Lemma SFltb_of_Z a b :
  0 <= a < 2 ^ 53 -> 0 <= b < 2 ^ 53 -> SFltb (of_Z a) (of_Z b) = (a <? b).
Proof.
  intros Ha Hb. unfold SFltb.
  destruct a as [| ca | ca], b as [| cb | cb]; try lia; try reflexivity.
  cbn [of_Z]. rewrite SFcompare_nf by (apply digits_le_53; lia).
  unfold Z.ltb. cbn [Z.compare]. reflexivity.
Qed.

End IntegerProducts.

(** ** The emotion analyzer *)

Module AnalyzerFacts.

Lemma Emotion_eqb_eq (a b : Emotion) : Emotion_eqb a b = true <-> a = b.
Proof. destruct a, b; cbn; split; congruence. Qed.

Lemma scan_words_spec (t : jsstring) (emo : Emotion) (words : list jsstring)
    (state : Counts * list jsstring) :
  (forall e, fst (scan_words t emo words state) e
             = if Emotion_eqb e emo
               then (fst state e + length (filter (fun w => includes t w) words))%nat
               else fst state e) /\
  snd (scan_words t emo words state)
  = snd state ++ List.map (fun w => hit_text w emo) (filter (fun w => includes t w) words).
Proof.
  unfold scan_words. revert state. induction words as [|w words IH]; intros state.
  - cbn. split; [| now rewrite app_nil_r].
    intros e. destruct (Emotion_eqb e emo); lia.
  - cbn [fold_left filter]. destruct (includes t w).
    + destruct (IH (increment (fst state) emo, snd state ++ [hit_text w emo])) as [Hc Hh].
      split.
      * intros e. rewrite Hc. cbn [fst length]. unfold increment.
        destruct (Emotion_eqb e emo); lia.
      * rewrite Hh. cbn [snd List.map]. rewrite <- app_assoc. reflexivity.
    + apply IH.
Qed.

(** After the two loops, [counts] holds the number of words found per
    emotion, and [reasonHits] the words found, emotion by emotion in the
    order of [lex] and word by word in the order of their lists. *)
Lemma scan_spec (t : jsstring) :
  (forall e, fst (scan t) e = hits t e) /\
  snd (scan t)
  = flat_map (fun e => List.map (fun w => hit_text w e) (found t e))
             [Joy; Sadness; Anger; Anxiety].
Proof.
  unfold scan, lex. cbn [fold_left fst snd].
  split.
  - intros e.
    repeat match goal with
           | |- context [fst (scan_words t ?emo ?words ?st) ?x] =>
               rewrite (proj1 (scan_words_spec t emo words st) x)
           end.
    unfold hits, found, no_counts.
    destruct e; cbn [Emotion_eqb words_of fst filter length]; lia.
  - repeat match goal with
           | |- context [snd (scan_words t ?emo ?words ?st)] =>
               rewrite (proj2 (scan_words_spec t emo words st))
           end.
    cbn [snd flat_map app]. unfold found. cbn [words_of].
    rewrite app_nil_r, <- !app_assoc. reflexivity.
Qed.

(** The [forEach]: [top] is the largest of the four counts, and [emotion]
    the first emotion that reaches it, when it is not 0. *)
Lemma pick_spec (counts : Counts) :
  let (emotion, top) := pick counts in
  (forall e, e <> Neutral -> (counts e <= top)%nat) /\
  ((top = 0)%nat -> emotion = Neutral) /\
  ((0 < top)%nat ->
   emotion <> Neutral /\ counts emotion = top /\
   forall e, (rank e < rank emotion)%nat -> (counts e < top)%nat).
Proof.
  unfold pick. cbn [fold_left].
  destruct (Nat.ltb_spec (snd (Neutral, O)) (counts Joy)); cbn [snd fst] in *;
    match goal with
    | |- context [Nat.ltb ?a (counts Sadness)] => destruct (Nat.ltb_spec a (counts Sadness))
    end; cbn [snd fst] in *;
    match goal with
    | |- context [Nat.ltb ?a (counts Anger)] => destruct (Nat.ltb_spec a (counts Anger))
    end; cbn [snd fst] in *;
    match goal with
    | |- context [Nat.ltb ?a (counts Anxiety)] => destruct (Nat.ltb_spec a (counts Anxiety))
    end; cbn [snd fst] in *;
    (split; [intros [] He; try congruence; lia |]);
    (split; [intros; first [reflexivity | exfalso; lia] |]);
    intros Hpos; (split; [first [discriminate | exfalso; lia] |]);
    (split; [first [reflexivity | exfalso; lia] |]);
    intros [] Hr; cbn [rank] in Hr; try lia.
Qed.

End AnalyzerFacts.

Module AnalyzerFacts2.

Import AnalyzerFacts.

Lemma pick_ext (c c' : Counts) : (forall e, c e = c' e) -> pick c = pick c'.
Proof. intros H. unfold pick. cbn [fold_left]. rewrite !H. reflexivity. Qed.

Lemma hits_le_8 (t : jsstring) (e : Emotion) : (hits t e <= 8)%nat.
Proof.
  unfold hits, found.
  pose proof (filter_length_le (fun w => includes t w) (words_of e)) as H.
  destruct e; cbn [words_of length] in *; lia.
Qed.

Lemma hits_0 (t : jsstring) (e : Emotion) :
  hits t e = O <-> forall w, In w (words_of e) -> includes t w = false.
Proof.
  unfold hits, found. split.
  - intros H w Hw. destruct (includes t w) eqn:E; [| reflexivity].
    assert (Hin : In w (filter (fun w => includes t w) (words_of e)))
      by (apply filter_In; split; assumption).
    destruct (filter _ _); [destruct Hin | discriminate].
  - intros H. destruct (filter (fun w => includes t w) (words_of e)) as [|w l] eqn:E;
      [reflexivity |].
    assert (Hin : In w (filter (fun w => includes t w) (words_of e)))
      by (rewrite E; left; reflexivity).
    apply filter_In in Hin as [Hw Hi]. rewrite (H w Hw) in Hi. discriminate.
Qed.

Section Carrier.

Context {num : Type} {NUM : Number num}.
Variable unicode_toLowerCase : jsstring -> jsstring.

(** The result of [analyze] in terms of the words found. *)
Lemma analyze_spec (txt : jsstring) :
  let t := toLowerCase unicode_toLowerCase (trim txt) in
  let r := analyze unicode_toLowerCase txt in
  let emotion0 := fst (pick (hits t)) in
  let top := snd (pick (hits t)) in
  let reasonHits := flat_map (fun e => List.map (fun w => hit_text w e) (found t e))
                             [Joy; Sadness; Anger; Anxiety] in
  r_emotion r = (if (top =? 0)%nat then Neutral else emotion0) /\
  r_score r = clamp (count top * lit 25 + count (matches t 33) * lit 10
                     + count (matches t 63) * lit 5)%num (lit 0) (lit 100) /\
  r_reason r = match r_emotion r with
               | Neutral => str "No strong emotion keywords detected."
               | _ => str "Matched: " ++ join (str ", ") (firstn 4 reasonHits)
                      ++ (if (4 <? length reasonHits)%nat then [ellipsis] else [])
               end /\
  r_rewrite r = rewriteByEmotion (r_emotion r).
Proof.
  cbv zeta. unfold analyze.
  destruct (scan_spec (toLowerCase unicode_toLowerCase (trim txt))) as [Hc Hh].
  destruct (scan (toLowerCase unicode_toLowerCase (trim txt))) as [counts reasonHits].
  cbn [fst snd] in Hc, Hh. rewrite (@pick_ext _ _ Hc). subst reasonHits.
  destruct (pick (hits (toLowerCase unicode_toLowerCase (trim txt)))) as [emotion0 top].
  cbn [fst snd r_emotion r_score r_reason r_rewrite]. repeat split.
Qed.

Lemma pick_top (t : jsstring) : snd (pick (hits t)) = top_hits t.
Proof.
  pose proof (pick_spec (hits t)) as H. destruct (pick (hits t)) as [emotion top].
  destruct H as (Hle & H0 & Hpos). cbn [snd]. unfold top_hits.
  pose proof (Hle Joy ltac:(discriminate)). pose proof (Hle Sadness ltac:(discriminate)).
  pose proof (Hle Anger ltac:(discriminate)). pose proof (Hle Anxiety ltac:(discriminate)).
  destruct (Nat.eq_dec top 0) as [-> | Hne]; [lia |].
  destruct (Hpos ltac:(lia)) as (Hn & He & _).
  destruct emotion; try congruence; lia.
Qed.

End Carrier.

End AnalyzerFacts2.

Section AnalyzerTheorems.

Import AnalyzerFacts AnalyzerFacts2.

Context {num : Type} {NUM : Number num}.
Variable unicode_toLowerCase : jsstring -> jsstring.

(** X20. [analyze] answers [Neutral] exactly when none of the words of
    [lex] occurs in the trimmed, lower-cased text; its reason and its
    rewrite are then the two fixed sentences. *)
Theorem analyze_neutral_without_keyword (txt : jsstring) :
  let t := toLowerCase unicode_toLowerCase (trim txt) in
  let r := analyze unicode_toLowerCase txt in
  (r_emotion r = Neutral
   <-> forall e w, In w (words_of e) -> includes t w = false) /\
  (r_emotion r = Neutral ->
   r_reason r = str "No strong emotion keywords detected." /\
   r_rewrite r = str "I want to express this clearly: what I care about is ___, and what I hope happens next is ___.").
Proof.
  cbv zeta.
  destruct (analyze_spec unicode_toLowerCase txt) as (He & _ & Hr & Hw). cbv zeta in *.
  set (t := toLowerCase unicode_toLowerCase (trim txt)) in *.
  pose proof (pick_spec (hits t)) as Hp. destruct (pick (hits t)) as [emotion0 top].
  destruct Hp as (Hle & H0 & Hpos). cbn [fst snd] in He.
  split.
  - rewrite He. split.
    + intros Hn e w Hw'.
      assert (Ht : top = O).
      { destruct (Nat.eqb_spec top 0) as [E | E]; [exact E |].
        destruct (Hpos ltac:(lia)) as [Hne _]. contradiction. }
      destruct e; [| | | | destruct Hw'];
        (apply (proj1 (hits_0 t _)) with (2 := Hw');
         match goal with
         | |- hits t ?e = O => pose proof (Hle e ltac:(discriminate)); lia
         end).
    + intros Hnone.
      destruct (Nat.eqb_spec top 0) as [E | E]; [reflexivity | exfalso].
      destruct (Hpos ltac:(lia)) as (_ & Hc & _).
      assert (Hz : hits t emotion0 = O) by (apply hits_0; intros w Hw'; now apply (Hnone emotion0)).
      lia.
  - intros Hn. rewrite Hr, Hw, Hn. split; reflexivity.
Qed.

(** X21. When [analyze] answers an emotion, at least one of its words
    occurs in the text, no emotion has more of its words in the text, and
    every emotion listed before it has fewer: of the emotions with the most
    words found, the first in the order Joy, Sadness, Anger, Anxiety wins.
    A word counts once, however often it occurs. *)
Theorem analyze_picks_first_largest (txt : jsstring) :
  let t := toLowerCase unicode_toLowerCase (trim txt) in
  let r := analyze unicode_toLowerCase txt in
  r_emotion r <> Neutral ->
  (0 < hits t (r_emotion r))%nat /\
  (forall e, hits t e <= hits t (r_emotion r))%nat /\
  (forall e, rank e < rank (r_emotion r) -> hits t e < hits t (r_emotion r))%nat /\
  (forall e, hits t e = length (filter (fun w => includes t w) (words_of e))).
Proof.
  cbv zeta. intros Hne.
  destruct (analyze_spec unicode_toLowerCase txt) as (He & _). cbv zeta in *.
  set (t := toLowerCase unicode_toLowerCase (trim txt)) in *.
  pose proof (pick_spec (hits t)) as Hp. destruct (pick (hits t)) as [emotion0 top].
  destruct Hp as (Hle & H0 & Hpos). cbn [fst snd] in He.
  destruct (Nat.eqb_spec top 0) as [E | E]; [congruence |].
  destruct (Hpos ltac:(lia)) as (Hn & Hc & Hfirst).
  rewrite He, Hc. split; [lia | split; [| split; [exact Hfirst | reflexivity]]].
  intros e. destruct e; try (apply Hle; discriminate). cbn. lia.
Qed.

End AnalyzerTheorems.

Section AnalyzerScore.

Import Binary64 AnalyzerFacts AnalyzerFacts2.

Context {host : Host}.
Variable unicode_toLowerCase : jsstring -> jsstring.

Lemma count_of_Z (n : nat) : (Z.of_nat n < 2 ^ 53)%Z -> count n = of_Z (Z.of_nat n).
Proof. intros H. unfold count. cbn [lit js]. apply IntegerProducts.literal_inject_Z. lia. Qed.

Lemma clamp_of_Z (n : Z) :
  (0 <= n < 2 ^ 53)%Z -> clamp (of_Z n) (lit 0) (lit 100) = of_Z (Z.min 100 n).
Proof.
  intros Hn. change (clamp (of_Z n) (lit 0) (lit 100)) with (clamp_default (of_Z n)).
  destruct n as [| c | c]; [reflexivity | | lia].
  assert (H : clamp_default (of_Z (Zpos c))
              = if SFltb (of_Z (Zpos c)) (lit 100) then of_Z (Zpos c) else lit 100)
    by exact (ClampOnBinary64.clamp_default_cases (of_Z (Zpos c))).
  rewrite H.
  change (lit 100) with (literal (inject_Z 100)).
  rewrite IntegerProducts.literal_inject_Z by (cbn; lia).
  rewrite IntegerProducts.SFltb_of_Z by lia.
  destruct (Z.ltb_spec (Zpos c) 100).
  - rewrite Z.min_r by lia. reflexivity.
  - rewrite Z.min_l by lia. reflexivity.
Qed.

(** X22. In binary64, for a text of fewer than [2^32] code units once
    trimmed and lower-cased, the score of [analyze] is exactly
    [min(100, 25 * top + 10 * exclam + 5 * qmark)], where [top] is the
    largest number of words of one emotion found (8 at most), [exclam] the
    number of exclamation marks and [qmark] that of question marks: an
    integer between 0 and 100, never [NaN], which is 25 at least when an
    emotion is answered and [min(100, 10 * exclam + 5 * qmark)] for
    [Neutral]. *)
Theorem analyze_score_is_exact (txt : jsstring) :
  let t := toLowerCase unicode_toLowerCase (trim txt) in
  let r : Result spec_float := analyze unicode_toLowerCase txt in
  let top := Z.of_nat (top_hits t) in
  let exclam := Z.of_nat (count_occ N.eq_dec t 33%N) in
  let qmark := Z.of_nat (count_occ N.eq_dec t 63%N) in
  (Z.of_nat (length t) < 2 ^ 32)%Z ->
  r_score r = int (Z.min 100 (25 * top + 10 * exclam + 5 * qmark)) /\
  (0 <= top <= 8)%Z /\
  (r_emotion r <> Neutral -> (25 <= Z.min 100 (25 * top + 10 * exclam + 5 * qmark))%Z) /\
  (r_emotion r = Neutral -> top = 0%Z).
Proof.
  cbv zeta. intros Hlen.
  destruct (analyze_spec (NUM := js) unicode_toLowerCase txt) as (He & Hs & _).
  cbv zeta in *.
  set (t := toLowerCase unicode_toLowerCase (trim txt)) in *.
  rewrite pick_top in He, Hs.
  assert (Htop : (top_hits t <= 8)%nat).
  { unfold top_hits. pose proof (hits_le_8 t Joy). pose proof (hits_le_8 t Sadness).
    pose proof (hits_le_8 t Anger). pose proof (hits_le_8 t Anxiety). lia. }
  pose proof (count_occ_bound N.eq_dec 33%N t) as Hx.
  pose proof (count_occ_bound N.eq_dec 63%N t) as Hq.
  assert (E32 : (2 ^ 32 = 4294967296)%Z) by reflexivity.
  assert (E53 : (2 ^ 53 = 9007199254740992)%Z) by reflexivity.
  split; [| split; [lia | split]].
  - rewrite Hs. unfold matches.
    set (a := top_hits t) in *. set (x := count_occ N.eq_dec t 33%N) in *.
    set (q := count_occ N.eq_dec t 63%N) in *.
    rewrite !count_of_Z by lia.
    change (lit 25) with (literal (inject_Z 25)).
    change (lit 10) with (literal (inject_Z 10)).
    change (lit 5) with (literal (inject_Z 5)).
    rewrite !IntegerProducts.literal_inject_Z by (cbn; lia).
    cbn [add mul js].
    rewrite !IntegerProducts.SFmul_of_Z by lia.
    rewrite !IntegerDoubles.SFadd_of_Z by lia.
    rewrite clamp_of_Z by lia.
    rewrite IntegerDoubles.int_of_Z by lia.
    f_equal. lia.
  - intros Hne. rewrite He in Hne.
    destruct (Nat.eqb_spec (top_hits t) 0); [congruence | lia].
  - intros Hn. rewrite He in Hn.
    destruct (Nat.eqb_spec (top_hits t) 0) as [E | E]; [lia | exfalso].
    pose proof (pick_spec (hits t)) as Hp. destruct (pick (hits t)) as [emotion0 top] eqn:Ep.
    destruct Hp as (_ & _ & Hpos). cbn [fst] in Hn.
    pose proof (pick_top t) as Ht. rewrite Ep in Ht. cbn [snd] in Ht.
    destruct (Hpos ltac:(lia)) as [Hnn _]. contradiction.
Qed.

End AnalyzerScore.

Section AnalyzerReason.

Import AnalyzerFacts AnalyzerFacts2.

Context {num : Type} {NUM : Number num}.
Variable unicode_toLowerCase : jsstring -> jsstring.

(** X23. When [analyze] answers an emotion, its reason lists the words
    found, each once and with its emotion, in the order of [lex] (emotion
    by emotion, not in the order of the text): the first four of them,
    joined by ", ", and an ellipsis after them exactly when more than four
    were found. *)
Theorem analyze_reason_lists_found_words (txt : jsstring) :
  let t := toLowerCase unicode_toLowerCase (trim txt) in
  let r := analyze unicode_toLowerCase txt in
  let all := flat_map (fun e => List.map (fun w => hit_text w e) (found t e))
                      [Joy; Sadness; Anger; Anxiety] in
  r_emotion r <> Neutral ->
  r_reason r = str "Matched: " ++ join (str ", ") (firstn 4 all)
               ++ (if (4 <? length all)%nat then [ellipsis] else []) /\
  length all = (hits t Joy + hits t Sadness + hits t Anger + hits t Anxiety)%nat /\
  (forall e, NoDup (found t e)).
Proof.
  cbv zeta. intros Hne.
  destruct (analyze_spec unicode_toLowerCase txt) as (_ & _ & Hr & _). cbv zeta in Hr.
  split; [| split].
  - rewrite Hr. destruct (r_emotion (analyze unicode_toLowerCase txt));
      try reflexivity. contradiction.
  - cbn [flat_map]. rewrite !length_app, !length_map. unfold hits. cbn [length]. lia.
  - intros e. unfold found. apply NoDup_filter.
    destruct e; cbn [words_of];
      repeat (constructor; [cbn; intuition discriminate |]); constructor.
Qed.

End AnalyzerReason.


(** ** The journal's own entries *)

Section JournalScores.

Import Binary64.

Context {host : Host}.
Variable unicode_toLowerCase : jsstring -> jsstring.
Variable toLocalDateKey : jsstring -> jsstring.

Lemma classified_values (es : list (Entry spec_float)) :
  Forall (well_scored unicode_toLowerCase) es ->
  exists zs : list Z,
    List.map (value_used unicode_toLowerCase) es = List.map int zs /\
    Forall (fun z => (-4 <= z <= 4)%Z) zs /\ length zs = length es.
Proof.
  induction 1 as [|e es He _ (zs & Hv & Hz & Hl)].
  - exists []. repeat split. constructor.
  - destruct (scoreEntryLocal_integer unicode_toLowerCase (text e)) as (z & Hb & Ez).
    exists (z :: zs). cbn [List.map length]. rewrite Hv, Hl.
    destruct He as (_ & _ & _ & Hval). unfold value_used at 1. rewrite Hval, Ez.
    repeat split. constructor; assumption.
Qed.

Lemma magnitude_small (zs : list Z) :
  Forall (fun z => (-4 <= z <= 4)%Z) zs -> (magnitude zs <= 4 * Z.of_nat (length zs))%Z.
Proof.
  induction 1 as [|z zs Hz _ IH].
  - cbn. lia.
  - rewrite IntegerDoubles.magnitude_cons. cbn [length]. lia.
Qed.

(** X24. In binary64, on a log built by [addEntry] and [removeEntry] alone
    (by fewer than [2^50] actions), the values of a day are the doubles of
    integers between -4 and 4, both sums of the day are the exact integer
    sums and finite, and the raw score of the main page is a number between
    0 and 100 as soon as the host's [Math.exp] returns a number at
    [-z]. *)
Theorem journal_scores_are_numbers (actions : list Action) (key : jsstring) :
  (Z.of_nat (length actions) < 2 ^ 50)%Z ->
  let entries := run unicode_toLowerCase actions [] in
  let scored := fst (scoredToday unicode_toLowerCase toLocalDateKey entries key) in
  let r := fst (todayScore unicode_toLowerCase toLocalDateKey entries key) in
  let z := ((positiveSum r - lambda DEFAULT_CONFIG * negativeSum r)
            / scale DEFAULT_CONFIG)%num in
  (exists zs : list Z,
      Forall (fun z => (-4 <= z <= 4)%Z) zs /\
      List.map (@s_value spec_float) scored = List.map int zs /\
      positiveSum r = int (Zsum (Z.max 0) zs) /\
      negativeSum r = int (Zsum (fun z => Z.max 0 (- z)) zs)) /\
  isFinite (positiveSum r) = true /\ isFinite (negativeSum r) = true /\
  (isNaN (approx (- z)%num) = false ->
   leb (lit 0) (rawScore r) = true /\ leb (rawScore r) (lit 100) = true).
Proof.
  intros Hlen entries scored r z.
  destruct (@run_well_scored spec_float _ unicode_toLowerCase actions [] (Forall_nil _)) as [Hw Hl].
  fold entries in Hw, Hl.
  assert (Hday : Forall (well_scored unicode_toLowerCase) (onDay toLocalDateKey key entries)).
  { rewrite Forall_forall in *. intros e He. apply Hw.
    unfold onDay in He. apply filter_In in He. apply He. }
  destruct (classified_values Hday) as (zs & Hv & Hz & Hzl).
  pose proof (filter_length_le
                (fun e : Entry spec_float => jsstring_eqb (toLocalDateKey (createdAt e)) key)
                entries) as Hfl.
  fold (onDay toLocalDateKey key entries) in Hfl.
  pose proof (magnitude_small Hz) as Hm.
  assert (E50 : (2 ^ 50 = 1125899906842624)%Z) by reflexivity.
  assert (E53 : (2 ^ 53 = 9007199254740992)%Z) by reflexivity.
  cbn [length] in Hl.
  assert (Hb : (magnitude zs < 2 ^ 53)%Z) by lia.
  assert (Hvals : List.map (@s_value spec_float) scored = List.map int zs).
  { unfold scored, scoredToday.
    destruct (mapT_toScoredEntry unicode_toLowerCase (onDay toLocalDateKey key entries))
      as [_ Hu].
    rewrite Hu. exact Hv. }
  assert (Hr : r = scoreDayFromValues (List.map int zs) DEFAULT_CONFIG).
  { unfold r, todayScore. rewrite fst_bind. cbn [ret fst]. fold scored.
    rewrite Hvals. reflexivity. }
  destruct (IntegerDoubles.integer_day zs DEFAULT_CONFIG Hb) as (Hp & Hn & _).
  rewrite <- Hr in Hp, Hn.
  assert (Hfin : forall f, (forall z, (Z.abs (f z) <= Z.abs z)%Z) ->
                           isFinite (int (Zsum f zs)) = true).
  { intros f Hf. pose proof (IntegerDoubles.Zsum_bound f zs Hf).
    rewrite IntegerDoubles.int_of_Z by lia. destruct (Zsum f zs); reflexivity. }
  assert (Hfp : isFinite (positiveSum r) = true) by (rewrite Hp; apply Hfin; intros; lia).
  assert (Hfn : isFinite (negativeSum r) = true) by (rewrite Hn; apply Hfin; intros; lia).
  split; [exists zs; repeat split; assumption |].
  split; [exact Hfp | split; [exact Hfn |]].
  intros Ha. subst z. rewrite Hr in *.
  apply NotNaN.rawScore_in_range; try assumption; reflexivity.
Qed.

End JournalScores.


(** ** The seven days of the report *)

Section SevenDays.

Import LocalDate.

Context {num : Type} {NUM : Number num}.
Context {host : DateHost} {clock : Clock}.
Variable unicode_toLowerCase : jsstring -> jsstring.

(** X25. [lastNDaysKeys(n)] returns [n] keys, today's first, and none for
    [n = 0].  The report always has seven rows, the oldest day first and
    today last, whatever the log holds: a day without entries has its row
    too. *)
Theorem report_has_seven_rows (entries : list (Entry num)) :
  let days := fst (ReportPage unicode_toLowerCase entries) in
  (forall n : nat, length (lastNDaysKeys n) = n) /\
  (forall n : nat, hd_error (lastNDaysKeys (S n)) = Some (toLocalDateKey (isoDaysAgo 0))) /\
  length days = 7%nat /\
  List.map (@dateKey num) days
  = List.map (fun i => toLocalDateKey (isoDaysAgo i)) [6; 5; 4; 3; 2; 1; 0]%nat.
Proof.
  cbv zeta. split; [| split].
  - intros n. unfold lastNDaysKeys. rewrite length_map, length_seq. reflexivity.
  - intros n. reflexivity.
  - unfold ReportPage, ReportPage_days.
    destruct (days_from_rows unicode_toLowerCase toLocalDateKey entries
                (rev (lastNDaysKeys 7)) None) as [Hk _].
    split; [| exact Hk].
    rewrite <- (length_map (@dateKey num)), Hk. reflexivity.
Qed.

End SevenDays.

(** ** The properties with a precondition, each at an input *)

(** X3 at a log of two entries on two days. *)
Lemma report_rows_partition_the_log_witness :
  let e1 : Entry R := {| id := str "a"; text := str "gym"; createdAt := str "d1";
                         category := None; value := None |} in
  let e2 : Entry R := {| id := str "b"; text := str "ok"; createdAt := str "d2";
                         category := None; value := None |} in
  let keys := [str "d1"; str "d2"] in
  let days := fst (ReportPage_days (fun s => s) (fun s => s) [e2; e1] keys) in
  NoDup keys /\
  Permutation
    (concat (List.map (fun d => List.map (@s_id R) (entries_of d)) days))
    (List.map (@id R)
       (filter (fun e => existsb (jsstring_eqb (createdAt e)) keys) [e2; e1])).
Proof.
  cbv zeta.
  assert (Hnd : NoDup [str "d1"; str "d2"]).
  { constructor; [cbn; intros [H | []]; discriminate H |].
    constructor; [intros [] | constructor]. }
  split; [exact Hnd |].
  apply (@report_rows_partition_the_log R RealNumber (fun s => s) (fun s => s)). exact Hnd.
Defined.

(** X4 at a host that reads one string, as the fifth of March 2024. *)
Lemma toLocalDateKey_format_witness :
  let iso := str "2024-03-05T10:00:00.000Z" in
  let f := {| LocalDate.fullYear := 2024; LocalDate.month := 2; LocalDate.date := 5 |} in
  let host : LocalDate.DateHost := fun s => if jsstring_eqb s iso then Some f else None in
  (LocalDate.Date iso = Some f /\ LocalDate.inRange f) /\
  LocalDate.toLocalDateKey iso = str "2024-03-05" /\
  length (LocalDate.toLocalDateKey iso) = 10%nat /\
  LocalDate.toLocalDateKey (str "yesterday") = str "NaN-NaN-NaN".
Proof.
  cbv zeta.
  set (iso := str "2024-03-05T10:00:00.000Z").
  set (f := {| LocalDate.fullYear := 2024; LocalDate.month := 2; LocalDate.date := 5 |}).
  set (host := (fun s => if jsstring_eqb s iso then Some f else None) : LocalDate.DateHost).
  assert (Hd : @LocalDate.Date host iso = Some f) by reflexivity.
  assert (Hr : LocalDate.inRange f) by (split; cbn; lia).
  split; [split; assumption |].
  destruct (proj1 (@toLocalDateKey_format host iso) f Hd Hr) as (Hk & _ & H4 & _).
  destruct (H4 ltac:(cbn; lia)) as [Hl _].
  split; [rewrite Hk; reflexivity | split; [exact Hl |]].
  apply (proj2 (@toLocalDateKey_format host (str "yesterday"))). reflexivity.
Defined.

(** X5 at two times of the same day. *)
Lemma toLocalDateKey_injective_witness :
  let a := str "2024-03-05T10:00:00.000Z" in
  let b := str "2024-03-05T18:30:00.000Z" in
  let f := {| LocalDate.fullYear := 2024; LocalDate.month := 2; LocalDate.date := 5 |} in
  let host : LocalDate.DateHost :=
    fun s => if jsstring_eqb s a || jsstring_eqb s b then Some f else None in
  (LocalDate.toLocalDateKey a = LocalDate.toLocalDateKey b <-> f = f) /\
  LocalDate.toLocalDateKey a <> str "NaN-NaN-NaN".
Proof.
  cbv zeta.
  apply (@toLocalDateKey_injective
           (fun s => if jsstring_eqb s (str "2024-03-05T10:00:00.000Z")
                        || jsstring_eqb s (str "2024-03-05T18:30:00.000Z")
                     then Some {| LocalDate.fullYear := 2024; LocalDate.month := 2;
                                  LocalDate.date := 5 |}
                     else None)
           (str "2024-03-05T10:00:00.000Z") (str "2024-03-05T18:30:00.000Z"));
    first [reflexivity | split; cbn; lia].
Defined.

(** X6 at a log with an entry of that day and one without a date. *)
Lemma entries_grouped_by_local_date_witness :
  let day := str "2024-03-05T10:00:00.000Z" in
  let f := {| LocalDate.fullYear := 2024; LocalDate.month := 2; LocalDate.date := 5 |} in
  let host : LocalDate.DateHost := fun s => if jsstring_eqb s day then Some f else None in
  let e1 : Entry R := {| id := str "a"; text := str "gym"; createdAt := day;
                         category := None; value := None |} in
  let e2 : Entry R := {| id := str "b"; text := str "ok"; createdAt := str "?";
                         category := None; value := None |} in
  LocalDate.Date day = Some f /\
  forall e : Entry R,
    In e (onDay LocalDate.toLocalDateKey (LocalDate.toLocalDateKey day) [e1; e2])
    <-> In e [e1; e2] /\ LocalDate.Date (createdAt e) = Some f.
Proof.
  cbv zeta. split; [reflexivity |].
  apply (@entries_grouped_by_local_date
           (fun s => if jsstring_eqb s (str "2024-03-05T10:00:00.000Z")
                     then Some {| LocalDate.fullYear := 2024; LocalDate.month := 2;
                                  LocalDate.date := 5 |}
                     else None) R).
  - intros iso g. unfold LocalDate.Date.
    destruct (jsstring_eqb iso (str "2024-03-05T10:00:00.000Z")); [| discriminate].
    intros H. injection H as <-. split; cbn; lia.
  - reflexivity.
Defined.

(** X8 at a log without the [id] to delete. *)
Lemma removeEntry_deletes_by_id_witness :
  let e1 : Entry R := {| id := str "a"; text := str "gym"; createdAt := str "d1";
                         category := None; value := None |} in
  (forall e, In e [e1] -> id e <> str "b") /\
  removeEntry (str "b") [e1] = [e1].
Proof.
  cbv zeta.
  assert (H : forall e : Entry R,
             In e [{| id := str "a"; text := str "gym"; createdAt := str "d1";
                      category := None; value := None |}] -> id e <> str "b").
  { intros e [<- | []]. cbn. discriminate. }
  split; [exact H |].
  apply (proj1 (proj2 (proj2 (proj2 (@removeEntry_deletes_by_id R (str "b") _))))). exact H.
Defined.


(** X11 at the day 4, 3, -3 under the default configuration. *)
Lemma rawScore_exact_shape_witness :
  let r := scoreDayFromValues [4; 3; -3]%R DEFAULT_CONFIG in
  (0 < scale DEFAULT_CONFIG)%R /\
  (50 < rawScore r <-> lambda DEFAULT_CONFIG * negativeSum r < positiveSum r)%R /\
  (rawScore r = 50 <-> positiveSum r = lambda DEFAULT_CONFIG * negativeSum r)%R /\
  (rawScore r < 50 <-> positiveSum r < lambda DEFAULT_CONFIG * negativeSum r)%R.
Proof.
  cbv zeta.
  assert (Hs : (0 < scale (DEFAULT_CONFIG (num := R)))%R).
  { cbn [scale DEFAULT_CONFIG]. rewrite Exact.lit_R. cbn [Qnum Qden]. lra. }
  split; [exact Hs |].
  apply (proj2 (rawScore_exact_shape [4; 3; -3]%R DEFAULT_CONFIG)). exact Hs.
Defined.

(** X12 at a raw score of 40 after a smoothed score of 80. *)
Lemma emaScore_between_witness :
  let s := emaScore 40%R (Some 80%R) DEFAULT_CONFIG in
  (s = emaAlpha DEFAULT_CONFIG * 40 + (1 - emaAlpha DEFAULT_CONFIG) * 80 /\
   Rmin 40 80 <= s <= Rmax 40 80)%R.
Proof.
  apply (@emaScore_between 40%R 80%R DEFAULT_CONFIG).
  - cbn [emaAlpha DEFAULT_CONFIG]. rewrite Exact.lit_R. cbn [Qnum Qden]. lra.
  - lra.
  - lra.
Defined.

(** X14 at " Gym", with a line feed after it, and at "GYM". *)
Lemma scoreEntryLocal_ignores_space_and_case_witness :
  scoreEntryLocal (num := R) (fun s => s) ([32%N] ++ str "Gym" ++ [10%N])
  = scoreEntryLocal (fun s => s) (str "Gym") /\
  scoreEntryLocal (num := R) (fun s => s) (str "GYM") = scoreEntryLocal (fun s => s) (str "gym").
Proof.
  split.
  - apply (proj1 (@scoreEntryLocal_ignores_space_and_case R RealNumber (fun s => s)));
      reflexivity.
  - apply (proj2 (proj2 (@scoreEntryLocal_ignores_space_and_case R RealNumber (fun s => s))));
      reflexivity.
Defined.

(** X16 at 250 and at 42, with the sample host. *)
Lemma clamp_default_saturates_witness :
  let host : Binary64.Host := Binary64.sample_approx in
  clamp_default (num := spec_float) (lit 250) = lit 100 /\
  (clamp_default (num := spec_float) (lit 42) = lit 42 \/
   (lit 42 = S754_zero true /\ clamp_default (num := spec_float) (lit 42) = S754_zero false)).
Proof.
  intros host. split.
  - apply (proj1 (proj2 (proj2 (@clamp_default_saturates host (lit 250))))).
    vm_compute. reflexivity.
  - apply (proj1 (proj2 (proj2 (proj2 (@clamp_default_saturates host (lit 42))))));
      vm_compute; reflexivity.
Defined.

(** X17 at the bounds 1 and 10, in order and swapped. *)
Lemma clamp_bounds_witness :
  let host : Binary64.Host := Binary64.sample_approx in
  (SFleb (lit 1) (clamp (num := spec_float) (lit 42) (lit 1) (lit 10)) = true /\
   SFleb (clamp (num := spec_float) (lit 42) (lit 1) (lit 10)) (lit 10) = true) /\
  clamp (num := spec_float) (lit 5) (lit 10) (lit 1) = lit 10.
Proof.
  intros host. split.
  - apply (proj2 (@clamp_bounds host (lit 42) (lit 1) (lit 10)));
      vm_compute; reflexivity.
  - apply (proj2 (@clamp_bounds host (lit 5) (lit 10) (lit 1)));
      vm_compute; reflexivity.
Defined.

(** X19 at the empty log and seven keys. *)
Lemma days_without_notes_score_50_witness :
  let host : Binary64.Host := Binary64.sample_approx in
  let keys := List.map str ["d1"; "d2"; "d3"; "d4"; "d5"; "d6"; "d7"]%string in
  let days := fst (ReportPage_days (num := spec_float) (fun s => s) (fun s => s) [] keys) in
  Forall (fun key => onDay (num := spec_float) (fun s => s) key [] = []) keys /\
  totals days = {| avgRaw := lit 50; avgSmooth := lit 50 |}.
Proof.
  intros host keys days.
  assert (H : Forall (fun key => onDay (num := spec_float) (fun s => s) key [] = []) keys)
    by (repeat constructor).
  split; [exact H |].
  apply (proj2 (@days_without_notes_score_50 host (fun s => s) (fun s => s) [] keys H)).
  reflexivity.
Defined.

(** X18 at a log whose first day overflows both sums: its raw score is
    [NaN], and so is the smoothed score of the day after. *)
Lemma NaN_stays_in_the_trend_witness :
  let host : Binary64.Host := Binary64.sample_approx in
  let huge (v : Q) : Entry spec_float :=
    {| id := str "a"; text := str "gym"; createdAt := str "d1";
       category := Some Other; value := Some (lit v) |} in
  let entries := [huge 1e308; huge 1e308; huge (-1e308); huge (-1e308)] in
  let days := fst (ReportPage_days (fun s => s) (fun s => s) entries [str "d1"; str "d2"]) in
  exists di dj : DayScore spec_float,
    nth_error days 0 = Some di /\ nth_error days 1 = Some dj /\
    d_rawScore di = Binary64.NaN /\ smoothedScore dj = Binary64.NaN.
Proof.
  intros host huge entries days.
  destruct (nth_error days 0) as [di |] eqn:Hi; [| vm_compute in Hi; discriminate Hi].
  destruct (nth_error days 1) as [dj |] eqn:Hj; [| vm_compute in Hj; discriminate Hj].
  assert (Hnan : d_rawScore di = Binary64.NaN).
  { vm_compute in Hi. injection Hi as <-. reflexivity. }
  exists di, dj. repeat split; try assumption.
  apply (proj2 (proj2 (@NaN_stays_in_the_trend host (fun s => s) (fun s => s)))
           entries [str "d1"; str "d2"] 0%nat 1%nat di dj Hi Hj (Nat.le_succ_diag_r 0) Hnan).
Defined.

(** X20 at a text without any word of [lex]. *)
Lemma analyze_neutral_without_keyword_witness :
  let host : Binary64.Host := Binary64.sample_approx in
  let r : Result spec_float := analyze (fun s => s) (str "See you at noon!") in
  r_emotion r = Neutral /\
  r_reason r = str "No strong emotion keywords detected." /\
  r_rewrite r = str "I want to express this clearly: what I care about is ___, and what I hope happens next is ___.".
Proof.
  intros host r.
  assert (H : r_emotion r = Neutral) by (vm_compute; reflexivity).
  split; [exact H |].
  apply (proj2 (@analyze_neutral_without_keyword spec_float _ (fun s => s)
                  (str "See you at noon!"))).
  exact H.
Defined.

(** X21 at a text with two words of joy, three of sadness and one of
    anxiety. *)
Lemma analyze_picks_first_largest_witness :
  let host : Binary64.Host := Binary64.sample_approx in
  let txt := str "I am so HAPPY and glad! but worried?? sad and hurt and lonely" in
  let t := toLowerCase (fun s => s) (trim txt) in
  let r : Result spec_float := analyze (fun s => s) txt in
  r_emotion r = Sadness /\
  (0 < hits t (r_emotion r))%nat /\
  (forall e, hits t e <= hits t (r_emotion r))%nat /\
  (forall e, rank e < rank (r_emotion r) -> hits t e < hits t (r_emotion r))%nat.
Proof.
  intros host txt t r.
  assert (H : r_emotion r = Sadness) by (vm_compute; reflexivity).
  split; [exact H |].
  destruct (@analyze_picks_first_largest spec_float _ (fun s => s) txt) as (H1 & H2 & H3 & _).
  - fold r. rewrite H. discriminate.
  - repeat split; assumption.
Defined.

(** X22 at the same text: three words of sadness, one exclamation mark
    and two question marks score 95. *)
Lemma analyze_score_is_exact_witness :
  let host : Binary64.Host := Binary64.sample_approx in
  let txt := str "I am so HAPPY and glad! but worried?? sad and hurt and lonely" in
  let t := toLowerCase (fun s => s) (trim txt) in
  let r : Result spec_float := analyze (fun s => s) txt in
  (Z.of_nat (length t) < 2 ^ 32)%Z /\
  r_score r = Binary64.int 95 /\ r_score r = lit 95.
Proof.
  intros host txt t r.
  assert (H : (Z.of_nat (length t) < 2 ^ 32)%Z) by (vm_compute; reflexivity).
  split; [exact H |].
  destruct (@analyze_score_is_exact host (fun s => s) txt H) as (Hs & _).
  fold r in Hs. split; rewrite Hs; vm_compute; reflexivity.
Defined.

(** X23 at the same text: six words found, four listed. *)
Lemma analyze_reason_lists_found_words_witness :
  let host : Binary64.Host := Binary64.sample_approx in
  let txt := str "I am so HAPPY and glad! but worried?? sad and hurt and lonely" in
  let t := toLowerCase (fun s => s) (trim txt) in
  let r : Result spec_float := analyze (fun s => s) txt in
  r_emotion r <> Neutral /\
  r_reason r
  = str "Matched: " ++ hit_text (str "happy") Joy ++ str ", " ++ hit_text (str "glad") Joy
    ++ str ", " ++ hit_text (str "sad") Sadness ++ str ", " ++ hit_text (str "hurt") Sadness
    ++ [ellipsis].
Proof.
  intros host txt t r.
  assert (H : r_emotion r <> Neutral) by (vm_compute; discriminate).
  split; [exact H |].
  destruct (@analyze_reason_lists_found_words spec_float (@Binary64.js host) (fun s => s) txt)
    as (Hr & _); [exact H |].
  fold r in Hr. rewrite Hr. vm_compute. reflexivity.
Defined.

(** X24 at a log of two notes of the same day, with the sample host. *)
Lemma journal_scores_are_numbers_witness :
  let host : Binary64.Host := Binary64.sample_approx in
  let actions := [Add (str "Went for a walk") (str "a") (str "d1");
                  Add (str "stayed up until 3am") (str "b") (str "d1")] in
  let entries := run (num := spec_float) (fun s => s) actions [] in
  let r := fst (todayScore (fun s => s) (fun s => s) entries (str "d1")) in
  (Z.of_nat (length actions) < 2 ^ 50)%Z /\
  Binary64.leb (lit 0) (rawScore r) = true /\ Binary64.leb (rawScore r) (lit 100) = true.
Proof.
  intros host actions entries r.
  assert (H : (Z.of_nat (length actions) < 2 ^ 50)%Z) by (vm_compute; reflexivity).
  split; [exact H |].
  apply (proj2 (proj2 (proj2
           (@journal_scores_are_numbers host (fun s => s) (fun s => s) actions (str "d1") H)))).
  vm_compute. reflexivity.
Defined.
